(** * IPXWrapper interface cache: [src/interface.c]

    A shallow embedding of the interface functions of IPXWrapper
    ([load_sys_interfaces], [load_ipx_interfaces], the deep-copy and free
    helpers, and the time-bounded interface cache with its query functions)
    together with the properties of the specification that concern them.

    The C code manipulates heap-allocated, intrusive doubly-linked lists
    (utlist.h).  The embedding keeps that structure: records live in a
    store indexed by locations, pointers are optional locations, and every
    function is a computation in a state-and-fault monad over the [world]
    (store, allocator, clock, operating system, configuration, cache
    globals). *)

From Stdlib Require Import ZArith Lia.
From stdpp Require Import base option list gmap strings.

(** ** Machine-level data *)

Abbreviation loc := nat.

(** A C pointer: [None] is [NULL]. *)
Definition ptr := option loc.

(** [uint32_t] complement, with the wrap-around written out. *)
Definition not32 (x : Z) : Z := Z.land (Z.lnot x) 0xFFFFFFFF.

(** Modelled from the spec: [addr48_in] and [addr32_out] are declared in
    common.h and defined outside interface.c and config.h.  A 48-bit address
    is the number whose big-endian bytes are the six bytes in memory; a
    32-bit address is written out as its four bytes in the same order.
    IPv4 addresses ([inet_addr] values) are likewise represented by the
    number whose big-endian bytes are the bytes in memory, so that
    [10.0.0.5] is [0x0A000005]; the bitwise operations of the code act
    byte by byte and do not depend on this choice. *)
Definition addr48_in (src : list Z) : Z :=
  fold_left (λ acc b, acc * 256 + b mod 256)%Z (take 6 src) 0%Z.

Definition addr32_bytes (v : Z) : list Z :=
  [(v / 16777216) mod 256; (v / 65536) mod 256; (v / 256) mod 256; v mod 256]%Z.

Definition addr32_out (dst : list Z) (off : nat) (v : Z) : list Z :=
  take off dst ++ addr32_bytes v ++ drop (off + 4) dst.

(** struct ipx_interface_ip (interface.h): one IPv4 binding, a node of the
    list hanging off an interface. *)
Record ipx_interface_ip_t := mk_ip {
  ipaddr : Z;
  netmask : Z;
  bcast : Z;
  ip_prev : ptr;
  ip_next : ptr
}.

(** struct ipx_interface (interface.h).  The C field [ipaddr] (head of the
    binding list) is called [iface_ipaddr] here, the name [ipaddr] being
    taken by the binding record. *)
Record ipx_interface_t := mk_iface {
  hwaddr : Z;
  ipx_net : Z;
  ipx_node : Z;
  iface_ipaddr : ptr;
  iface_prev : ptr;
  iface_next : ptr
}.

(** struct iface_config (config.h). *)
Record iface_config_t := mk_config {
  netnum : Z;
  nodenum : Z;
  enabled : bool
}.

(** IP_ADDR_STRING (iphlpapi.h): the two fields hold the values that
    [inet_addr] returns on the [IpAddress.String] and [IpMask.String]
    members. *)
Record IP_ADDR_STRING := mk_addr_string {
  IpAddress : Z;
  IpMask : Z
}.

(** IP_ADAPTER_INFO (iphlpapi.h).  [IpAddressList] is embedded in the
    structure, so an adapter always carries at least one entry; the
    entries reached through its [Next] pointers are [IpAddressNext].
    A pointer into the (read-only) adapter list is the list of adapters
    from that position on; [NULL] is the empty list. *)
Record IP_ADAPTER_INFO := mk_adapter {
  Address : list Z;
  IpAddressList : IP_ADDR_STRING;
  IpAddressNext : list IP_ADDR_STRING
}.

Inductive win32_error :=
  | ERROR_SUCCESS
  | ERROR_NO_DATA
  | ERROR_BUFFER_OVERFLOW
  | ERROR_OTHER (code : Z).

(** What one call of [GetAdaptersInfo] answers. *)
Inductive gai_reply :=
  | ReplyAdapters (first : IP_ADAPTER_INFO) (rest : list IP_ADAPTER_INFO)
  | ReplyNoData
  | ReplyOverflow (needed : Z)
  | ReplyFailure (code : Z).

Inductive log_level := LOG_ERROR | LOG_WARNING.

(** ** The world *)

(** The store: one typed heap per structure, the live adapter buffers,
    and the allocator's counters. *)
Record store := mk_store {
  ifaces : gmap loc ipx_interface_t;
  ips : gmap loc ipx_interface_ip_t;
  bufs : gset loc;
  next_loc : loc;      (* locations from here on were never handed out *)
  allocs : nat         (* number of allocation requests made so far *)
}.

Record world := mk_world {
  mem : store;
  (* allocator oracle: whether the n-th allocation request is granted *)
  alloc_ok : nat → bool;
  (* time(NULL): the n-th reading of the clock *)
  clock : nat → Z;
  time_calls : nat;
  (* GetAdaptersInfo: the answers still to come *)
  os_script : list gai_reply;
  cs_init_ok : bool;
  (* configuration store (config.h) *)
  get_iface_config : Z → iface_config_t;
  get_primary_iface : Z;
  (* log_printf output *)
  log : list (log_level * string);
  (* number of times load_ipx_interfaces was entered (bookkeeping only) *)
  builds : nat;
  (* static globals of interface.c *)
  interface_cache : ptr;
  interface_cache_ctime : Z
}.

Definition set_ifaces (h : gmap loc ipx_interface_t) (s : store) : store :=
  mk_store h (ips s) (bufs s) (next_loc s) (allocs s).

Definition set_ips (h : gmap loc ipx_interface_ip_t) (s : store) : store :=
  mk_store (ifaces s) h (bufs s) (next_loc s) (allocs s).

Definition set_bufs (b : gset loc) (s : store) : store :=
  mk_store (ifaces s) (ips s) b (next_loc s) (allocs s).

(** One allocation request was made; [fresh] locations were handed out. *)
Definition bump (fresh : nat) (s : store) : store :=
  mk_store (ifaces s) (ips s) (bufs s) (fresh + next_loc s) (S (allocs s)).

Definition set_mem (s : store) (w : world) : world :=
  mk_world s (alloc_ok w) (clock w) (time_calls w) (os_script w)
    (cs_init_ok w) (get_iface_config w) (get_primary_iface w) (log w)
    (builds w) (interface_cache w) (interface_cache_ctime w).

Definition tick (w : world) : world :=
  mk_world (mem w) (alloc_ok w) (clock w) (S (time_calls w)) (os_script w)
    (cs_init_ok w) (get_iface_config w) (get_primary_iface w) (log w)
    (builds w) (interface_cache w) (interface_cache_ctime w).

Definition set_os_script (s : list gai_reply) (w : world) : world :=
  mk_world (mem w) (alloc_ok w) (clock w) (time_calls w) s
    (cs_init_ok w) (get_iface_config w) (get_primary_iface w) (log w)
    (builds w) (interface_cache w) (interface_cache_ctime w).

Definition add_log (e : log_level * string) (w : world) : world :=
  mk_world (mem w) (alloc_ok w) (clock w) (time_calls w) (os_script w)
    (cs_init_ok w) (get_iface_config w) (get_primary_iface w) (log w ++ [e])
    (builds w) (interface_cache w) (interface_cache_ctime w).

Definition count_build (w : world) : world :=
  mk_world (mem w) (alloc_ok w) (clock w) (time_calls w) (os_script w)
    (cs_init_ok w) (get_iface_config w) (get_primary_iface w) (log w)
    (S (builds w)) (interface_cache w) (interface_cache_ctime w).

Definition set_interface_cache (p : ptr) (w : world) : world :=
  mk_world (mem w) (alloc_ok w) (clock w) (time_calls w) (os_script w)
    (cs_init_ok w) (get_iface_config w) (get_primary_iface w) (log w)
    (builds w) p (interface_cache_ctime w).

Definition set_interface_cache_ctime (t : Z) (w : world) : world :=
  mk_world (mem w) (alloc_ok w) (clock w) (time_calls w) (os_script w)
    (cs_init_ok w) (get_iface_config w) (get_primary_iface w) (log w)
    (builds w) (interface_cache w) t.

(** ** The monad of C computations *)

Inductive fault :=
  | NullPointer      (* a field of NULL was accessed *)
  | InvalidPointer   (* a freed or never allocated object was accessed *)
  | Hang             (* a loop or a system call that does not come back *)
  | Aborted.         (* abort() *)

Inductive outcome (A : Type) :=
  | Ok (a : A) (w : world)
  | Fault (f : fault).
Arguments Ok {A} a w.
Arguments Fault {A} f.

Definition M (A : Type) : Type := world → outcome A.

Definition ret {A} (a : A) : M A := λ w, Ok a w.

Definition bind {A B} (c : M A) (k : A → M B) : M B :=
  λ w, match c w with
       | Ok a w' => k a w'
       | Fault f => Fault f
       end.

Notation "'let!' x ':=' c 'in' k" := (bind c (λ x, k))
  (at level 10, x pattern, c at level 100, k at level 200).
Notation "c ;;; k" := (bind c (λ _, k))
  (at level 100, k at level 200, right associativity).

Definition fail {A} (f : fault) : M A := λ _, Fault f.
Definition get {A} (proj : world → A) : M A := λ w, Ok (proj w) w.
Definition modify (f : world → world) : M unit := λ w, Ok tt (f w).

Definition log_printf (level : log_level) (msg : string) : M unit :=
  modify (add_log (level, msg)).

Definition time : M Z :=
  λ w, Ok (clock w (time_calls w)) (tick w).

(** ** Typed access to the store *)

(** The structures that utlist.h can link: they have [prev] and [next]
    fields, and objects of the type live in one of the heaps. *)
Class DLNode (N : Type) := {
  prev : N → ptr;
  next : N → ptr;
  with_prev : ptr → N → N;
  with_next : ptr → N → N;
  heap : store → gmap loc N;
  with_heap : gmap loc N → store → store
}.

Definition set_ipaddr (v : Z) (a : ipx_interface_ip_t) :=
  mk_ip v (netmask a) (bcast a) (ip_prev a) (ip_next a).
Definition set_netmask (v : Z) (a : ipx_interface_ip_t) :=
  mk_ip (ipaddr a) v (bcast a) (ip_prev a) (ip_next a).
Definition set_bcast (v : Z) (a : ipx_interface_ip_t) :=
  mk_ip (ipaddr a) (netmask a) v (ip_prev a) (ip_next a).
Definition set_ip_prev (p : ptr) (a : ipx_interface_ip_t) :=
  mk_ip (ipaddr a) (netmask a) (bcast a) p (ip_next a).
Definition set_ip_next (p : ptr) (a : ipx_interface_ip_t) :=
  mk_ip (ipaddr a) (netmask a) (bcast a) (ip_prev a) p.

Definition set_hwaddr (v : Z) (i : ipx_interface_t) :=
  mk_iface v (ipx_net i) (ipx_node i) (iface_ipaddr i) (iface_prev i) (iface_next i).
Definition set_ipx_net (v : Z) (i : ipx_interface_t) :=
  mk_iface (hwaddr i) v (ipx_node i) (iface_ipaddr i) (iface_prev i) (iface_next i).
Definition set_ipx_node (v : Z) (i : ipx_interface_t) :=
  mk_iface (hwaddr i) (ipx_net i) v (iface_ipaddr i) (iface_prev i) (iface_next i).
Definition set_iface_ipaddr (p : ptr) (i : ipx_interface_t) :=
  mk_iface (hwaddr i) (ipx_net i) (ipx_node i) p (iface_prev i) (iface_next i).
Definition set_iface_prev (p : ptr) (i : ipx_interface_t) :=
  mk_iface (hwaddr i) (ipx_net i) (ipx_node i) (iface_ipaddr i) p (iface_next i).
Definition set_iface_next (p : ptr) (i : ipx_interface_t) :=
  mk_iface (hwaddr i) (ipx_net i) (ipx_node i) (iface_ipaddr i) (iface_prev i) p.

#[global] Instance ip_node : DLNode ipx_interface_ip_t := {|
  prev := ip_prev; next := ip_next;
  with_prev := set_ip_prev; with_next := set_ip_next;
  heap := ips; with_heap := set_ips
|}.

#[global] Instance iface_node : DLNode ipx_interface_t := {|
  prev := iface_prev; next := iface_next;
  with_prev := set_iface_prev; with_next := set_iface_next;
  heap := ifaces; with_heap := set_ifaces
|}.

(** The contents of memory returned by malloc are unspecified; the code
    writes every field of a new object before it reads it. *)
Definition junk_ip : ipx_interface_ip_t := mk_ip 0 0 0 None None.
Definition junk_iface : ipx_interface_t := mk_iface 0 0 0 None None None.

Section Store.
Context {N : Type} `{DLNode N}.

(** Reading through a pointer, [*p]. *)
Definition deref (p : ptr) : M N :=
  λ w, match p with
       | None => Fault NullPointer
       | Some x =>
           match heap (mem w) !! x with
           | Some n => Ok n w
           | None => Fault InvalidPointer
           end
       end.

(** Writing through a pointer: [p->field = v], with [f] the update of the
    field (or of the whole object for [*p = v]). *)
Definition assign (p : ptr) (f : N → N) : M unit :=
  λ w, match p with
       | None => Fault NullPointer
       | Some x =>
           match heap (mem w) !! x with
           | Some _ => Ok tt (set_mem (with_heap (alter f x (heap (mem w))) (mem w)) w)
           | None => Fault InvalidPointer
           end
       end.

(** [malloc(sizeof(N))]: NULL when the request is refused, else a
    location never handed out before. *)
Definition malloc (junk : N) : M ptr :=
  λ w, let s := mem w in
       if alloc_ok w (allocs s)
       then Ok (Some (next_loc s))
               (set_mem (bump 1 (with_heap (<[next_loc s := junk]> (heap s)) s)) w)
       else Ok None (set_mem (bump 0 s) w).

(** [free(p)]: nothing for NULL. *)
Definition free (p : ptr) : M unit :=
  λ w, match p with
       | None => Ok tt w
       | Some x =>
           match heap (mem w) !! x with
           | Some _ => Ok tt (set_mem (with_heap (delete x (heap (mem w))) (mem w)) w)
           | None => Fault InvalidPointer
           end
       end.

(** *** utlist.h

    The list macros of utlist.h, the third-party header that
    interface.c includes, for lists whose head's [prev] points at the
    tail.  [head] is an lvalue in C; here its value is passed in and
    the new value is returned, to be stored back by the caller. *)

Definition DL_APPEND (head : ptr) (add : loc) : M ptr :=
  match head with
  | Some _ =>
      let! h := deref head in
      assign (Some add) (with_prev (prev h)) ;;;
      let! h := deref head in
      assign (prev h) (with_next (Some add)) ;;;
      assign head (with_prev (Some add)) ;;;
      assign (Some add) (with_next None) ;;;
      ret head
  | None =>
      assign (Some add) (with_prev (Some add)) ;;;
      assign (Some add) (with_next None) ;;;
      ret (Some add)
  end.

Definition DL_PREPEND (head : ptr) (add : loc) : M ptr :=
  assign (Some add) (with_next head) ;;;
  match head with
  | Some _ =>
      let! h := deref head in
      assign (Some add) (with_prev (prev h)) ;;;
      assign head (with_prev (Some add)) ;;;
      ret (Some add)
  | None =>
      assign (Some add) (with_prev (Some add)) ;;;
      ret (Some add)
  end.

Definition DL_DELETE (head : ptr) (del : loc) : M ptr :=
  let! d := deref (Some del) in
  if decide (prev d = Some del) then ret None
  else if decide (Some del = head) then
    assign (next d) (with_prev (prev d)) ;;;
    let! d := deref (Some del) in
    ret (next d)
  else
    assign (prev d) (with_next (next d)) ;;;
    let! d := deref (Some del) in
    match next d with
    | Some _ => assign (next d) (with_prev (prev d)) ;;; ret head
    | None => assign head (with_prev (prev d)) ;;; ret head
    end.

(** The nodes reached from [p] through [next], if the walk ends within
    [fuel] steps. *)
Fixpoint read_chain (fuel : nat) (h : gmap loc N) (p : ptr) : option (list N) :=
  match p with
  | None => Some []
  | Some x =>
      match fuel with
      | O => None
      | S fuel' =>
          match h !! x with
          | Some n => cons n <$> read_chain fuel' h (next n)
          | None => None
          end
      end
  end.
End Store.

(** The adapter buffer of [load_sys_interfaces] is an untyped block. *)
Definition realloc (p : ptr) (size : Z) : M ptr :=
  λ w, let s := mem w in
       if alloc_ok w (allocs s)
       then match p with
            | None => Ok (Some (next_loc s))
                         (set_mem (bump 1 (set_bufs ({[next_loc s]} ∪ bufs s) s)) w)
            | Some x =>
                if decide (x ∈ bufs s) then Ok (Some x) (set_mem (bump 0 s) w)
                else Fault InvalidPointer
            end
       else Ok None (set_mem (bump 0 s) w).

Definition free_buf (p : ptr) : M unit :=
  λ w, match p with
       | None => Ok tt w
       | Some x =>
           if decide (x ∈ bufs (mem w))
           then Ok tt (set_mem (set_bufs (bufs (mem w) ∖ {[x]}) (mem w)) w)
           else Fault InvalidPointer
       end.

(** [GetAdaptersInfo]: the next answer of the operating system. *)
Definition GetAdaptersInfo : M gai_reply :=
  λ w, match os_script w with
       | [] => Fault Hang
       | r :: rest => Ok r (set_os_script rest w)
       end.

(** ** interface.c *)

Definition INTERFACE_CACHE_TTL : Z := 5.

Definition sizeof_IP_ADAPTER_INFO : Z := 640.

(** The retry loop of [load_sys_interfaces]; it yields [ifroot], [err]
    and, when [err] is [ERROR_SUCCESS], the adapters written to the
    buffer.  Every turn but the last consumes one answer of the operating
    system, which bounds the number of turns. *)
Fixpoint load_sys_loop (fuel : nat) (ifroot : ptr) (bufsize : Z)
  : M (ptr * win32_error * list IP_ADAPTER_INFO) :=
  match fuel with
  | O => fail Hang
  | S fuel' =>
      let! ifptr := realloc ifroot bufsize in
      match ifptr with
      | None =>
          log_printf LOG_ERROR "Couldn't allocate IP_ADAPTER_INFO structures!" ;;;
          ret (ifroot, ERROR_BUFFER_OVERFLOW, [])
      | Some _ =>
          let ifroot := ifptr in
          let! r := GetAdaptersInfo in
          match r with
          | ReplyNoData =>
              log_printf LOG_WARNING "No network interfaces detected!" ;;;
              ret (ifroot, ERROR_NO_DATA, [])
          | ReplyFailure code =>
              log_printf LOG_ERROR "Error fetching network interfaces: %s" ;;;
              ret (ifroot, ERROR_OTHER code, [])
          | ReplyOverflow needed => load_sys_loop fuel' ifroot needed
          | ReplyAdapters a rest => ret (ifroot, ERROR_SUCCESS, a :: rest)
          end
      end
  end.

(** Fetch the list of network interfaces available on the system: the
    buffer and the adapters in it, or NULL. *)
Definition load_sys_interfaces : M (option (loc * list IP_ADAPTER_INFO)) :=
  let! script := get os_script in
  let! r := load_sys_loop (S (length script)) None (sizeof_IP_ADAPTER_INFO * 8) in
  let '(ifroot, err, adapters) := r in
  match err, ifroot with
  | ERROR_SUCCESS, Some b => ret (Some (b, adapters))
  | _, _ => free_buf ifroot ;;; ret None
  end.

(** DL_FOREACH_SAFE(iface->ipaddr, a, a_tmp) of [free_ipx_interface]. *)
Fixpoint free_ip_loop (fuel : nat) (iface : ptr) (a : ptr) : M unit :=
  match a with
  | None => ret tt
  | Some x =>
      match fuel with
      | O => fail Hang
      | S fuel' =>
          let! n := deref (N:=ipx_interface_ip_t) a in
          let a_tmp := next n in
          let! i := deref (N:=ipx_interface_t) iface in
          let! hd := DL_DELETE (N:=ipx_interface_ip_t) (iface_ipaddr i) x in
          assign iface (set_iface_ipaddr hd) ;;;
          free (N:=ipx_interface_ip_t) a ;;;
          free_ip_loop fuel' iface a_tmp
      end
  end.

(** Free an ipx_interface structure and any memory allocated within. *)
Definition free_ipx_interface (iface : ptr) : M unit :=
  match iface with
  | None => ret tt
  | Some _ =>
      let! i := deref (N:=ipx_interface_t) iface in
      let! h := get (ips ∘ mem) in
      free_ip_loop (size h) iface (iface_ipaddr i) ;;;
      free (N:=ipx_interface_t) iface
  end.

(** DL_FOREACH_SAFE( *list, iface, tmp) of [free_ipx_interface_list]. *)
Fixpoint free_list_loop (fuel : nat) (list : ptr) (iface : ptr) : M ptr :=
  match iface with
  | None => ret list
  | Some x =>
      match fuel with
      | O => fail Hang
      | S fuel' =>
          let! n := deref (N:=ipx_interface_t) iface in
          let tmp := next n in
          let! list' := DL_DELETE (N:=ipx_interface_t) list x in
          free_ipx_interface iface ;;;
          free_list_loop fuel' list' tmp
      end
  end.

(** Free a list of ipx_interface structures.  The C function takes the
    address of the list head; the final value of the head is returned. *)
Definition free_ipx_interface_list (list : ptr) : M ptr :=
  let! h := get (ifaces ∘ mem) in
  free_list_loop (size h) list list.

(** The bytes of the Hamachi workaround. *)
Definition hamachi_bug : list Z := [0x7A; 0x79; 0x00; 0x00; 0x00; 0x00]%Z.

(** The inner loop of [load_ipx_interfaces] over the address entries of one
    adapter.  It may free and reset [nics], whose value it returns. *)
Fixpoint load_ip_loop (iface : ptr) (nics : ptr) (ip_ptr : list IP_ADDR_STRING)
  : M ptr :=
  match ip_ptr with
  | [] => ret nics
  | e :: Next =>
      let ipaddr := IpAddress e in
      let netmask := IpMask e in
      if decide (ipaddr = 0%Z) then
        (* No IP address. *)
        load_ip_loop iface nics Next
      else
        let! addr := malloc junk_ip in
        match addr with
        | None =>
            log_printf LOG_ERROR "Couldn't allocate ipx_interface_ip!" ;;;
            free_ipx_interface iface ;;;
            let! nics := free_ipx_interface_list nics in
            load_ip_loop iface nics Next
        | Some a =>
            assign addr (set_ipaddr ipaddr) ;;;
            assign addr (set_netmask netmask) ;;;
            assign addr (set_bcast (Z.lor ipaddr (not32 netmask))) ;;;
            let! i := deref (N:=ipx_interface_t) iface in
            let! hd := DL_APPEND (N:=ipx_interface_ip_t) (iface_ipaddr i) a in
            assign iface (set_iface_ipaddr hd) ;;;
            load_ip_loop iface nics Next
        end
  end.

(** The loop of [load_ipx_interfaces] over the adapters.  [inl v] is an
    early [return v]; [inr nics] is the normal exit of the loop.

    In the branch for a disabled adapter the code advances [ifptr] itself
    and then hits [continue], which runs the increment of the [for]
    statement: [ifptr = ifptr->Next] is executed twice. *)
Fixpoint load_ipx_loop (primary : Z) (nics : ptr) (ifptr : list IP_ADAPTER_INFO)
  : M (ptr + ptr) :=
  match ifptr with
  | [] => ret (inr nics)
  | ad :: Next =>
      let hw := addr48_in (Address ad) in
      let! config := get (λ w, get_iface_config w hw) in
      if negb (enabled config) then
        (* Interface has been disabled, don't add it *)
        match Next with
        | [] => fail NullPointer
        | _ :: Next' => load_ipx_loop primary nics Next'
        end
      else
        let! iface := malloc junk_iface in
        match iface with
        | None =>
            log_printf LOG_ERROR "Couldn't allocate ipx_interface!" ;;;
            free_ipx_interface_list nics ;;;
            ret (inl None)
        | Some x =>
            assign iface (set_iface_ipaddr None) ;;;
            let! nics := load_ip_loop iface nics (IpAddressList ad :: IpAddressNext ad) in
            assign iface (set_hwaddr hw) ;;;
            assign iface (set_ipx_net (netnum config)) ;;;
            assign iface (set_ipx_node (nodenum config)) ;;;
            let! i := deref (N:=ipx_interface_t) iface in
            (if decide (ipx_node i = addr48_in hamachi_bug ∧ iface_ipaddr i ≠ None) then
               log_printf LOG_WARNING
                 "Invalid Hamachi interface detected, correcting node number" ;;;
               let! first := deref (N:=ipx_interface_ip_t) (iface_ipaddr i) in
               let hamachi_bug := addr32_out hamachi_bug 2 (ipaddr first) in
               assign iface (set_ipx_node (addr48_in hamachi_bug))
             else ret tt) ;;;
            let! i := deref (N:=ipx_interface_t) iface in
            let! nics :=
              if decide (hwaddr i = primary)
              then DL_PREPEND (N:=ipx_interface_t) nics x
              else DL_APPEND (N:=ipx_interface_t) nics x in
            load_ipx_loop primary nics Next
        end
  end.

(** Load a list of virtual IPX interfaces. *)
Definition load_ipx_interfaces : M ptr :=
  modify count_build ;;;
  let! ifroot := load_sys_interfaces in
  let! primary := get get_primary_iface in
  let! r := load_ipx_loop primary None
              (match ifroot with Some (_, adapters) => adapters | None => [] end) in
  match r with
  | inl v => ret v
  | inr nics =>
      free_buf (fst <$> ifroot) ;;;
      ret nics
  end.

(** DL_FOREACH(src->ipaddr, ip) of [copy_ipx_interface]. *)
Fixpoint copy_ip_loop (fuel : nat) (dest : ptr) (ip : ptr) : M ptr :=
  match ip with
  | None => ret dest
  | Some _ =>
      match fuel with
      | O => fail Hang
      | S fuel' =>
          let! new_ip := malloc junk_ip in
          match new_ip with
          | None =>
              log_printf LOG_ERROR "Cannot allocate ipx_interface_ip!" ;;;
              free_ipx_interface dest ;;;
              ret None
          | Some n =>
              let! v := deref (N:=ipx_interface_ip_t) ip in
              assign new_ip (λ _, v) ;;;
              let! d := deref (N:=ipx_interface_t) dest in
              let! hd := DL_APPEND (N:=ipx_interface_ip_t) (iface_ipaddr d) n in
              assign dest (set_iface_ipaddr hd) ;;;
              let! v := deref (N:=ipx_interface_ip_t) ip in
              copy_ip_loop fuel' dest (next v)
          end
      end
  end.

(** Deep copy an ipx_interface structure.  Returns NULL on malloc failure. *)
Definition copy_ipx_interface (src : ptr) : M ptr :=
  let! dest := malloc junk_iface in
  match dest with
  | None =>
      log_printf LOG_ERROR "Cannot allocate ipx_interface!" ;;;
      ret None
  | Some _ =>
      let! s := deref (N:=ipx_interface_t) src in
      assign dest (λ _, s) ;;;
      assign dest (set_iface_ipaddr None) ;;;
      assign dest (set_iface_prev None) ;;;
      assign dest (set_iface_next None) ;;;
      let! s := deref (N:=ipx_interface_t) src in
      let! h := get (ips ∘ mem) in
      copy_ip_loop (size h) dest (iface_ipaddr s)
  end.

(** DL_FOREACH(src, s) of [copy_ipx_interface_list]. *)
Fixpoint copy_list_loop (fuel : nat) (dest : ptr) (s : ptr) : M ptr :=
  match s with
  | None => ret dest
  | Some _ =>
      match fuel with
      | O => fail Hang
      | S fuel' =>
          let! d := copy_ipx_interface s in
          match d with
          | None =>
              free_ipx_interface_list dest ;;;
              ret None
          | Some x =>
              let! dest := DL_APPEND (N:=ipx_interface_t) dest x in
              let! n := deref (N:=ipx_interface_t) s in
              copy_list_loop fuel' dest (next n)
          end
      end
  end.

(** Deep copy an entire list of ipx_interface structures.  Returns NULL on
    malloc failure. *)
Definition copy_ipx_interface_list (src : ptr) : M ptr :=
  let! h := get (ifaces ∘ mem) in
  copy_list_loop (size h) None src.

(** The critical section serialises the callers; a single thread of
    control is modelled, for which entering and leaving do nothing.  The
    model does not follow the life of the section object: what a call that
    enters it does once [ipx_interfaces_cleanup] has deleted it is outside
    of what is described here, and nothing is stated about such a call. *)
Definition EnterCriticalSection : M unit := ret tt.
Definition LeaveCriticalSection : M unit := ret tt.
Definition DeleteCriticalSection : M unit := ret tt.

(** Initialise the IPX interface cache. *)
Definition ipx_interfaces_init : M unit :=
  modify (set_interface_cache None) ;;;
  modify (set_interface_cache_ctime 0) ;;;
  let! ok := get cs_init_ok in
  if ok then ret tt
  else
    log_printf LOG_ERROR "Failed to initialise critical section: %s" ;;;
    fail Aborted.

(** Release any resources used by the IPX interface cache. *)
Definition ipx_interfaces_cleanup : M unit :=
  DeleteCriticalSection ;;;
  let! c := get interface_cache in
  let! c := free_ipx_interface_list c in
  modify (set_interface_cache c).

(** Check the age of the IPX interface cache and reload it if necessary. *)
Definition renew_interface_cache : M unit :=
  let! now := time in
  let! ctime := get interface_cache_ctime in
  if decide (now - ctime > INTERFACE_CACHE_TTL)%Z then
    let! c := get interface_cache in
    let! c := free_ipx_interface_list c in
    modify (set_interface_cache c) ;;;
    let! nics := load_ipx_interfaces in
    modify (set_interface_cache nics) ;;;
    let! now := time in
    modify (set_interface_cache_ctime now)
  else ret tt.

(** Return a copy of the IPX interface cache.  The cache will be reloaded
    before copying if too old. *)
Definition get_ipx_interfaces : M ptr :=
  EnterCriticalSection ;;;
  renew_interface_cache ;;;
  let! c := get interface_cache in
  let! copy := copy_ipx_interface_list c in
  LeaveCriticalSection ;;;
  ret copy.

(** DL_FOREACH(interface_cache, iface) of [ipx_interface_by_addr]; the
    value of [iface] when the loop is left. *)
Fixpoint by_addr_loop (fuel : nat) (net node : Z) (iface : ptr) : M ptr :=
  match iface with
  | None => ret None
  | Some _ =>
      match fuel with
      | O => fail Hang
      | S fuel' =>
          let! i := deref (N:=ipx_interface_t) iface in
          if decide (ipx_net i = net ∧ ipx_node i = node) then
            copy_ipx_interface iface
          else
            let! i := deref (N:=ipx_interface_t) iface in
            by_addr_loop fuel' net node (next i)
      end
  end.

(** Search for an IPX interface by address.  Returns NULL if the interface
    doesn't exist or malloc failure. *)
Definition ipx_interface_by_addr (net node : Z) : M ptr :=
  EnterCriticalSection ;;;
  renew_interface_cache ;;;
  let! c := get interface_cache in
  let! h := get (ifaces ∘ mem) in
  let! iface := by_addr_loop (size h) net node c in
  LeaveCriticalSection ;;;
  ret iface.

(** DL_FOREACH(interface_cache, iface) of [ipx_interface_by_index]. *)
Fixpoint by_index_loop (fuel : nat) (index iface_index : Z) (iface : ptr) : M ptr :=
  match iface with
  | None => ret None
  | Some _ =>
      match fuel with
      | O => fail Hang
      | S fuel' =>
          if decide (iface_index = index) then
            copy_ipx_interface iface
          else
            let! i := deref (N:=ipx_interface_t) iface in
            by_index_loop fuel' index (iface_index + 1)%Z (next i)
      end
  end.

(** Search for an IPX interface by index.  Returns NULL if the interface
    doesn't exist or malloc failure. *)
Definition ipx_interface_by_index (index : Z) : M ptr :=
  EnterCriticalSection ;;;
  renew_interface_cache ;;;
  let! c := get interface_cache in
  let! h := get (ifaces ∘ mem) in
  let! iface := by_index_loop (size h) index 0 c in
  LeaveCriticalSection ;;;
  ret iface.

(** DL_FOREACH(interface_cache, iface) of [ipx_interface_count]. *)
Fixpoint count_loop (fuel : nat) (count : Z) (iface : ptr) : M Z :=
  match iface with
  | None => ret count
  | Some _ =>
      match fuel with
      | O => fail Hang
      | S fuel' =>
          let! i := deref (N:=ipx_interface_t) iface in
          count_loop fuel' (count + 1)%Z (next i)
      end
  end.

(** Returns the number of IPX interfaces. *)
Definition ipx_interface_count : M Z :=
  EnterCriticalSection ;;;
  renew_interface_cache ;;;
  let! c := get interface_cache in
  let! h := get (ifaces ∘ mem) in
  let! count := count_loop (size h) 0 c in
  LeaveCriticalSection ;;;
  ret count.

(** ** What a list in the store denotes *)

(** The contents of a binding node, links apart. *)
Record InterfaceAddress := mk_address {
  address : Z;
  mask : Z;
  broadcast : Z
}.

(** The contents of an interface node and of the bindings hanging off it. *)
Record Interface := mk_interface {
  hardware_address : Z;
  network_number : Z;
  node_number : Z;
  addresses : list InterfaceAddress
}.

Definition ip_view (a : ipx_interface_ip_t) : InterfaceAddress :=
  mk_address (ipaddr a) (netmask a) (bcast a).

Definition read_ips (s : store) (p : ptr) : option (list InterfaceAddress) :=
  fmap (M:=list) ip_view <$> read_chain (size (ips s)) (ips s) p.

Definition iface_view (s : store) (i : ipx_interface_t) : option Interface :=
  mk_interface (hwaddr i) (ipx_net i) (ipx_node i) <$> read_ips s (iface_ipaddr i).

(** The list of interfaces that starts at [p], when [p] heads a
    NULL-terminated list of live interface nodes with such binding lists. *)
Definition read_ifaces (s : store) (p : ptr) : option (list Interface) :=
  read_chain (size (ifaces s)) (ifaces s) p ≫= mapM (iface_view s).

(** The data held by the cache. *)
Definition snapshot (w : world) : option (list Interface) :=
  read_ifaces (mem w) (interface_cache w).

(** Running a computation and reading the list it returns. *)
Definition run_list (c : M ptr) (w : world) : outcome (option (list Interface)) :=
  match c w with
  | Ok p w' => Ok (read_ifaces (mem w') p) w'
  | Fault f => Fault f
  end.

Definition result {A} (o : outcome A) : option A :=
  match o with Ok a _ => Some a | Fault _ => None end.

Definition final {A} (o : outcome A) : option world :=
  match o with Ok _ w => Some w | Fault _ => None end.


(** * Representation predicates and functional models *)

(** ** Doubly-linked lists in the store *)

(** What the field updates of a node satisfy. *)
Class DLNodeLaws (N : Type) `{DLNode N} := {
  prev_with_prev p n : prev (with_prev p n) = p;
  next_with_prev p n : next (with_prev p n) = next n;
  prev_with_next p n : prev (with_next p n) = prev n;
  next_with_next p n : next (with_next p n) = p;
  with_prev_erase p n :
    with_prev None (with_next None (with_prev p n)) = with_prev None (with_next None n);
  with_next_erase p n :
    with_prev None (with_next None (with_next p n)) = with_prev None (with_next None n);
  heap_with_heap h s : heap (with_heap h s) = h;
  with_heap_with_heap h h' s : with_heap h (with_heap h' s) = with_heap h s;
  with_heap_heap s : with_heap (heap s) s = s
}.

Section Lists.
Context {N : Type} `{DLNodeLaws N}.
Implicit Types (h : gmap loc N) (p head : ptr) (ls : list loc) (x : loc).

(** The links and the contents of the node at [x], if it is live. *)
Definition nextf h x : option ptr := next <$> h !! x.
Definition prevf h x : option ptr := prev <$> h !! x.
Definition payload (n : N) : N := with_prev None (with_next None n).
Definition bodyf h x : option N := payload <$> h !! x.

(** [ls] are the locations of the nodes met from [p] by following [next]
    down to NULL. *)
Fixpoint chain h p ls : Prop :=
  match ls with
  | [] => p = None
  | x :: ls' => p = Some x ∧ ∃ q, nextf h x = Some q ∧ chain h q ls'
  end.

(** A list as utlist.h keeps it: the nodes are distinct, and [prev] of the
    head is the tail. *)
Definition dll h head ls : Prop :=
  NoDup ls ∧ chain h head ls ∧ ∀ x, head = Some x → prevf h x = Some (last ls).

(** The world [w] with [h] for the heap of [N]. *)
Definition hw (w : world) h : world := set_mem (with_heap h (mem w)) w.

End Lists.

#[global] Instance ip_node_laws : DLNodeLaws ipx_interface_ip_t.
Proof. split; try done. by intros []. Qed.

#[global] Instance iface_node_laws : DLNodeLaws ipx_interface_t.
Proof. split; try done. by intros []. Qed.

(** ** Lists of bindings and of interfaces in the store *)

(** The list of bindings at [p] occupies the locations [ils] and reads as
    [al]. *)
Definition ip_list (h : gmap loc ipx_interface_ip_t) (p : ptr)
    (ils : list loc) (al : list InterfaceAddress) : Prop :=
  dll h p ils ∧ Forall2 (λ x v, ip_view <$> h !! x = Some v) ils al.

(** The interface record at [x] reads as [v]; its bindings occupy [ils]. *)
Definition iface_at (hi : gmap loc ipx_interface_t) (ha : gmap loc ipx_interface_ip_t)
    (x : loc) (ils : list loc) (v : Interface) : Prop :=
  ∃ i, hi !! x = Some i
     ∧ hwaddr i = hardware_address v
     ∧ ipx_net i = network_number v
     ∧ ipx_node i = node_number v
     ∧ ip_list ha (iface_ipaddr i) ils (addresses v).

(** The list of interfaces at [head] reads as [L]; [sh] gives the location
    of each interface record with those of its bindings, no binding
    record being shared. *)
Definition iface_list (hi : gmap loc ipx_interface_t) (ha : gmap loc ipx_interface_ip_t)
    (head : ptr) (sh : list (loc * list loc)) (L : list Interface) : Prop :=
  dll hi head sh.*1
  ∧ NoDup (concat sh.*2)
  ∧ Forall2 (λ c v, iface_at hi ha c.1 c.2 v) sh L.

(** ** Running the primitives on an explicit store *)

(** The world [w] with the store spelled out. *)
Abbreviation W w hi ha bf n k := (set_mem (mk_store hi ha bf n k) w).

(** ** Copying *)

(** Every live location of [h] was handed out before [n]. *)
Definition below {A} (n : nat) (h : gmap loc A) : Prop :=
  ∀ y, is_Some (h !! y) → y < n.

(** The records of a list lie below, respectively at or above, [b]. *)
Definition sh_below (b : nat) (sh : list (loc * list loc)) : Prop :=
  (∀ y, y ∈ sh.*1 → y < b) ∧ (∀ z, z ∈ concat sh.*2 → z < b).

Definition sh_above (b : nat) (sh : list (loc * list loc)) : Prop :=
  (∀ y, y ∈ sh.*1 → b ≤ y) ∧ (∀ z, z ∈ concat sh.*2 → b ≤ z).

(** ** The interface list that a build denotes *)

(** The binding built from one address entry of an adapter. *)
Definition binding_of (e : IP_ADDR_STRING) : InterfaceAddress :=
  mk_address (IpAddress e) (IpMask e) (Z.lor (IpAddress e) (not32 (IpMask e))).

(** The bindings built from the address entries of an adapter. *)
Definition bindings_of (es : list IP_ADDR_STRING) : list InterfaceAddress :=
  binding_of <$> filter (λ e, IpAddress e ≠ 0%Z) es.

(** The entries of an adapter: [IpAddressList] and what follows it. *)
Definition adapter_bindings (ad : IP_ADAPTER_INFO) : list InterfaceAddress :=
  bindings_of (IpAddressList ad :: IpAddressNext ad).

(** The world [w] with [lg] for the log. *)
Definition set_log (lg : list (log_level * string)) (w : world) : world :=
  mk_world (mem w) (alloc_ok w) (clock w) (time_calls w) (os_script w)
    (cs_init_ok w) (get_iface_config w) (get_primary_iface w) lg
    (builds w) (interface_cache w) (interface_cache_ctime w).

(** The interface built from an adapter, with the Hamachi correction. *)
Definition interface_of (cfg : Z → iface_config_t) (ad : IP_ADAPTER_INFO) : Interface :=
  let hw := addr48_in (Address ad) in
  let al := adapter_bindings ad in
  mk_interface hw (netnum (cfg hw))
    (match al with
     | first :: _ =>
         if decide (nodenum (cfg hw) = addr48_in hamachi_bug)
         then addr48_in (addr32_out hamachi_bug 2 (address first))
         else nodenum (cfg hw)
     | [] => nodenum (cfg hw)
     end)
    al.

(** Where a new interface goes in the list. *)
Definition place (primary : Z) (L : list Interface) (v : Interface) : list Interface :=
  if decide (hardware_address v = primary) then v :: L else L ++ [v].

(** How the adapter loop ends. *)
Inductive build_outcome :=
  | Built (L : list Interface) (k : nat)
  | OutOfMemory (k : nat)
  | NullDeref
  | Unspecified.

(** What the adapter loop does to the list [L] built so far, as a function
    of the allocator's answers from request [k] on: it runs to its end, or
    returns NULL when an interface cannot be allocated, or steps through
    NULL behind a disabled last adapter.  Nothing is said of a run in which
    the allocation of a binding is refused. *)
Fixpoint build (ok : nat → bool) (cfg : Z → iface_config_t) (primary : Z)
    (k : nat) (L : list Interface) (l : list IP_ADAPTER_INFO) : build_outcome :=
  match l with
  | [] => Built L k
  | ad :: Next =>
      if enabled (cfg (addr48_in (Address ad))) then
        if ok k then
          let m := length (adapter_bindings ad) in
          if forallb ok (seq (S k) m)
          then build ok cfg primary (S k + m) (place primary L (interface_of cfg ad)) Next
          else Unspecified
        else OutOfMemory (S k)
      else
        match Next with
        | [] => NullDeref
        | _ :: Next' => build ok cfg primary k L Next'
        end
  end.

(** What [load_ipx_loop] returns and leaves in the store when the loop ends
    as [o], from a store whose next free location is [n]. *)
Definition loop_post (w : world) (hi : gmap loc ipx_interface_t)
    (ha : gmap loc ipx_interface_ip_t) (bf : gset loc) (n b : nat)
    (o : build_outcome) (r : outcome (ptr + ptr)) : Prop :=
  match o with
  | Built L' k' =>
      ∃ lg hi' ha' sh' q n',
        r = Ok (inr q) (W (set_log lg w) hi' ha' bf n' k')
        ∧ n ≤ n' ∧ below n' hi' ∧ below n' ha'
        ∧ (∀ y, y < b → hi' !! y = hi !! y)
        ∧ (∀ y, y < b → ha' !! y = ha !! y)
        ∧ iface_list hi' ha' q sh' L'
        ∧ sh_above b sh'
  | OutOfMemory k' =>
      ∃ lg hi' ha' n',
        r = Ok (inl None) (W (set_log lg w) hi' ha' bf n' k')
        ∧ n ≤ n' ∧ below n' hi' ∧ below n' ha'
        ∧ (∀ y, y < b → hi' !! y = hi !! y)
        ∧ (∀ y, y < b → ha' !! y = ha !! y)
        ∧ (∀ y, b ≤ y → hi' !! y = None)
        ∧ (∀ y, b ≤ y → ha' !! y = None)
  | NullDeref => r = Fault NullPointer
  | Unspecified => True
  end.

(** ** Fetching the adapters *)

(** How [load_sys_interfaces] ends. *)
Inductive sys_outcome :=
  | SysAdapters (l : list IP_ADAPTER_INFO) (k : nat) (sc : list gai_reply)
  | SysNone (k : nat) (sc : list gai_reply)
  | SysHang.

(** What [load_sys_interfaces] comes to, as a function of the allocator's
    answers from request [k] on and of the answers of the operating
    system: the adapters, or NULL (no adapters, an error, or no memory for
    the buffer). *)
Fixpoint sys (ok : nat → bool) (k : nat) (sc : list gai_reply) : sys_outcome :=
  match sc with
  | [] => if ok k then SysHang else SysNone (S k) []
  | r :: sc' =>
      if ok k then
        match r with
        | ReplyAdapters a rest => SysAdapters (a :: rest) (S k) sc'
        | ReplyNoData => SysNone (S k) sc'
        | ReplyFailure _ => SysNone (S k) sc'
        | ReplyOverflow _ => sys ok (S k) sc'
        end
      else SysNone (S k) sc
  end.

(** What [load_sys_loop] returns once the buffer [x] is allocated. *)
Definition sys_loop_post (w : world) hi ha (bf : gset loc) (n : nat) (x : loc)
    (o : sys_outcome)
    (r : outcome (ptr * win32_error * list IP_ADAPTER_INFO)) : Prop :=
  match o with
  | SysAdapters l k' sc' =>
      r = Ok (Some x, ERROR_SUCCESS, l) (W (set_os_script sc' w) hi ha bf n k')
  | SysNone k' sc' =>
      ∃ lg err, err ≠ ERROR_SUCCESS
        ∧ r = Ok (Some x, err, []) (W (set_log lg (set_os_script sc' w)) hi ha bf n k')
  | SysHang => r = Fault Hang
  end.

(** What [load_sys_interfaces] returns and leaves in the store. *)
Definition sys_post (w : world) hi ha (bf : gset loc) (n : nat)
    (o : sys_outcome) (r : outcome (option (loc * list IP_ADAPTER_INFO))) : Prop :=
  match o with
  | SysAdapters l k' sc' =>
      r = Ok (Some (n, l)) (W (set_os_script sc' w) hi ha ({[n]} ∪ bf) (S n) k')
  | SysNone k' sc' =>
      ∃ lg n', n ≤ n'
        ∧ r = Ok None (W (set_log lg (set_os_script sc' w)) hi ha bf n' k')
  | SysHang => r = Fault Hang
  end.

(** ** The build as a whole *)

(** What [load_ipx_interfaces] returns and leaves in the store. *)
Definition load_post (w : world) (hi : gmap loc ipx_interface_t)
    (ha : gmap loc ipx_interface_ip_t) (bf : gset loc) (n k : nat)
    (r : outcome ptr) : Prop :=
  match sys (alloc_ok w) k (os_script w) with
  | SysAdapters l k1 sc' =>
      match build (alloc_ok w) (get_iface_config w) (get_primary_iface w) k1 [] l with
      | Built L k' =>
          ∃ lg hi' ha' sh q n',
            r = Ok q (W (set_log lg (set_os_script sc' (count_build w))) hi' ha' bf n' k')
            ∧ n < n' ∧ below n' hi' ∧ below n' ha'
            ∧ (∀ y, y ≤ n → hi' !! y = hi !! y)
            ∧ (∀ y, y ≤ n → ha' !! y = ha !! y)
            ∧ iface_list hi' ha' q sh L
            ∧ sh_above (S n) sh
      | OutOfMemory k' =>
          ∃ lg hi' ha' n',
            r = Ok None (W (set_log lg (set_os_script sc' (count_build w))) hi' ha'
                           ({[n]} ∪ bf) n' k')
            ∧ n < n' ∧ below n' hi' ∧ below n' ha'
            ∧ (∀ y, y ≤ n → hi' !! y = hi !! y)
            ∧ (∀ y, y ≤ n → ha' !! y = ha !! y)
            ∧ (∀ y, n < y → hi' !! y = None)
            ∧ (∀ y, n < y → ha' !! y = None)
      | NullDeref => r = Fault NullPointer
      | Unspecified => True
      end
  | SysNone k' sc' =>
      ∃ lg n', n ≤ n'
        ∧ r = Ok None (W (set_log lg (set_os_script sc' (count_build w))) hi ha bf n' k')
  | SysHang => r = Fault Hang
  end.

(** ** The cache *)

(** Every live object was handed out by the allocator. *)
Definition store_ok (s : store) : Prop :=
  below (next_loc s) (ifaces s)
  ∧ below (next_loc s) (ips s)
  ∧ ∀ x, x ∈ bufs s → x < next_loc s.

(** The cache variable heads a well-formed list of interfaces. *)
Definition cache_inv (w : world) : Prop :=
  store_ok (mem w)
  ∧ ∃ sh L, iface_list (ifaces (mem w)) (ips (mem w)) (interface_cache w) sh L.

(** No allocation request is refused from now on. *)
Definition all_ok (w : world) : Prop :=
  ∀ j, allocs (mem w) ≤ j → alloc_ok w j = true.

(** The cache is older than its time to live at the next reading of the
    clock. *)
Definition stale (w : world) : Prop :=
  (clock w (time_calls w) - interface_cache_ctime w > INTERFACE_CACHE_TTL)%Z.

(** The configuration and the oracles, which no function of the module
    changes. *)
Definition same_env (w w' : world) : Prop :=
  alloc_ok w' = alloc_ok w
  ∧ clock w' = clock w
  ∧ cs_init_ok w' = cs_init_ok w
  ∧ get_iface_config w' = get_iface_config w
  ∧ get_primary_iface w' = get_primary_iface w.

(** The list that a rebuild puts in the cache: [None] when the rebuild does
    not come back, or when the allocation of a binding is refused. *)
Definition rebuild_spec (w : world) : option (list Interface) :=
  match sys (alloc_ok w) (allocs (mem w)) (os_script w) with
  | SysAdapters l k1 _ =>
      match build (alloc_ok w) (get_iface_config w) (get_primary_iface w) k1 [] l with
      | Built L _ => Some L
      | OutOfMemory _ => Some []
      | NullDeref => None
      | Unspecified => None
      end
  | SysNone _ _ => Some []
  | SysHang => None
  end.

(** The answers of the operating system left over by a rebuild. *)
Definition script_after (w : world) : list gai_reply :=
  match sys (alloc_ok w) (allocs (mem w)) (os_script w) with
  | SysAdapters _ _ sc' => sc'
  | SysNone _ sc' => sc'
  | SysHang => []
  end.

(** The list that a call of a query function finds in the cache once the
    cache was renewed. *)
Definition list_spec (w : world) : option (list Interface) :=
  if decide (stale w) then rebuild_spec w else snapshot w.

(** ** Looking an interface up *)

(** The element that [ipx_interface_by_index] selects: the loop counts up
    from [i0] and stops at the node whose count is [index]. *)
Fixpoint nth_from (index i0 : Z) (L : list Interface) : option Interface :=
  match L with
  | [] => None
  | v :: L' => if decide (i0 = index) then Some v else nth_from index (i0 + 1) L'
  end.

(** The element that [ipx_interface_by_addr] selects: the first one with
    the network and node numbers asked for. *)
Fixpoint find_addr (net node : Z) (L : list Interface) : option Interface :=
  match L with
  | [] => None
  | v :: L' =>
      if decide (network_number v = net ∧ node_number v = node) then Some v
      else find_addr net node L'
  end.

(** The outcome of a successful [copy_ipx_interface] of an interface that
    denotes [v], from a store whose next free location is [n]. *)
Definition copy_post (w : world) (hi : gmap loc ipx_interface_t)
    (ha : gmap loc ipx_interface_ip_t) (bf : gset loc) (n k : nat)
    (v : Interface) (r : outcome ptr) : Prop :=
  ∃ ha' ils' q n' k',
    r = Ok (Some n)
          (W w (<[n := mk_iface (hardware_address v) (network_number v)
                          (node_number v) q None None]> hi) ha' bf n' k')
    ∧ n < n' ∧ k < k' ∧ below n' ha'
    ∧ (∀ y, y < n → ha' !! y = ha !! y)
    ∧ ip_list ha' q ils' (addresses v)
    ∧ (∀ y, y ∈ ils' → n < y).

(** The outcome of a query for one interface, from the world [w1] in which
    the cache was renewed and holds [L]: nothing when no interface is
    selected, else a fresh copy of the selected one. *)
Definition single_post (w1 : world) (L : list Interface) (ov : option Interface)
    (r : outcome ptr) : Prop :=
  match ov with
  | None => r = Ok None w1
  | Some v =>
      ∃ w' q ils shc,
        r = Ok (Some (next_loc (mem w1))) w'
        ∧ w' = set_mem (mem w') w1
        ∧ store_ok (mem w')
        ∧ bufs (mem w') = bufs (mem w1)
        ∧ allocs (mem w1) ≤ allocs (mem w')
        ∧ next_loc (mem w1) < next_loc (mem w')
        ∧ ifaces (mem w')
          = <[next_loc (mem w1) := mk_iface (hardware_address v) (network_number v)
                                     (node_number v) q None None]> (ifaces (mem w1))
        ∧ (∀ y, y < next_loc (mem w1) → ips (mem w') !! y = ips (mem w1) !! y)
        ∧ ip_list (ips (mem w')) q ils (addresses v)
        ∧ (∀ y, y ∈ ils → next_loc (mem w1) < y)
        ∧ iface_list (ifaces (mem w')) (ips (mem w')) (interface_cache w1) shc L
        ∧ sh_below (next_loc (mem w1)) shc
  end.

(** ** The adapters that the loop looks at *)

(** The adapters for which the body of the loop of [load_ipx_interfaces]
    builds an interface, in the order in which it does: an enabled adapter
    is built and the walk goes on with its successor; behind a disabled
    adapter the walk goes on with the successor of its successor, and
    steps through NULL ([None]) if there is none. *)
Fixpoint visited (cfg : Z → iface_config_t) (l : list IP_ADAPTER_INFO)
  : option (list IP_ADAPTER_INFO) :=
  match l with
  | [] => Some []
  | ad :: Next =>
      if enabled (cfg (addr48_in (Address ad))) then cons ad <$> visited cfg Next
      else match Next with
           | [] => None
           | _ :: Next' => visited cfg Next'
           end
  end.

(** ** The records of a list *)

Section Cells.
Context {N : Type} `{DLNode N}.

(** The locations of the nodes reached from [p] through [next]. *)
Fixpoint chain_locs (fuel : nat) (h : gmap loc N) (p : ptr) : list loc :=
  match p, fuel with
  | Some x, S fuel' =>
      match h !! x with
      | Some n => x :: chain_locs fuel' h (next n)
      | None => []
      end
  | _, _ => []
  end.

End Cells.

(** The interface records of the list that starts at [q]. *)
Definition iface_cells (s : store) (q : ptr) : list loc :=
  chain_locs (size (ifaces s)) (ifaces s) q.

(** The binding records of the interfaces of the list that starts at [q]. *)
Definition ip_cells (s : store) (q : ptr) : list loc :=
  concat ((λ x, match ifaces s !! x with
                | Some i => chain_locs (size (ips s)) (ips s) (iface_ipaddr i)
                | None => []
                end) <$> iface_cells s q).

(** ** A host to run the functions on *)

Module Host.

(** Hardware address [00:00:00:00:00:n]. *)
Definition mac (n : Z) : list Z := [0; 0; 0; 0; 0; n; 0; 0]%Z.

(** The configuration store: adapter 1 is enabled, adapter 2 is enabled
    and carries the node number of the Hamachi bug, adapter 3 is disabled,
    any other adapter is enabled and uses its hardware address. *)
Definition config (hw : Z) : iface_config_t :=
  if decide (hw = 1)%Z then mk_config 0x11 0xAA true
  else if decide (hw = 2)%Z then mk_config 0x22 0x7A7900000000 true
  else if decide (hw = 3)%Z then mk_config 0x33 0xCC false
  else mk_config 0 hw true.

(** 192.168.1.10/255.255.255.0 *)
Definition lan : IP_ADAPTER_INFO :=
  mk_adapter (mac 1) (mk_addr_string 0xC0A8010A 0xFFFFFF00) [].

(** An unbound entry followed by 10.0.0.5/255.0.0.0 *)
Definition tunnel : IP_ADAPTER_INFO :=
  mk_adapter (mac 2) (mk_addr_string 0 0) [mk_addr_string 0x0A000005 0xFF000000].

(** Disabled by the configuration, 192.168.2.1/255.255.255.0 *)
Definition off : IP_ADAPTER_INFO :=
  mk_adapter (mac 3) (mk_addr_string 0xC0A80201 0xFFFFFF00) [].

(** An adapter without an address. *)
Definition bare : IP_ADAPTER_INFO :=
  mk_adapter (mac 4) (mk_addr_string 0 0) [].

(** The world after [ipx_interfaces_init], before anything was allocated. *)
Definition boot (primary : Z) (ok : nat → bool) (clk : nat → Z)
    (script : list gai_reply) : world :=
  mk_world (mk_store ∅ ∅ ∅ 0 0) ok clk 0 script true config primary [] 0 None 0.

Definition granted : nat → bool := λ _, true.

(** All requests are granted but the [n]-th. *)
Definition refused_at (n : nat) : nat → bool := λ j, negb (Nat.eqb j n).

(** The clock reads 100 at the first two readings and 200 afterwards. *)
Definition clock_100_200 : nat → Z := λ n, if Nat.ltb n 2 then 100%Z else 200%Z.

Definition i_lan : Interface :=
  mk_interface 1 0x11 0xAA [mk_address 0xC0A8010A 0xFFFFFF00 0xC0A801FF].
Definition i_tunnel : Interface :=
  mk_interface 2 0x22 0x7A790A000005 [mk_address 0x0A000005 0xFF000000 0x0AFFFFFF].
Definition i_bare : Interface := mk_interface 4 0 4 [].

End Host.

(** The world in which a computation ends (the starting world if it
    faults). *)
Definition exec {A} (c : M A) (w : world) : world :=
  match c w with Ok _ w' => w' | Fault _ => w end.

(** The interface that [q] points to. *)
Definition read_iface (s : store) (q : ptr) : option Interface :=
  q ≫= λ x, ifaces s !! x ≫= iface_view s.

Import Host.

(** *** Refreshing when the enumeration fails *)

(** A first call fills the cache from three adapters; the enumeration of
    the next refresh fails. *)
Definition filled_then_failing : world :=
  exec get_ipx_interfaces
    (boot 2 granted clock_100_200 [ReplyAdapters lan [tunnel; bare]; ReplyFailure 31]).

(** *** Freshness *)

(** The age of the cache at the next reading of the clock. *)
Definition age (w : world) : Z :=
  (clock w (time_calls w) - interface_cache_ctime w)%Z.

(** The clock reads 100, 101, 102, ... *)
Definition clock_from_100 : nat → Z := λ n, (100 + Z.of_nat n)%Z.

(** *** What NULL stands for *)

(** The world after a first call that filled the cache from three
    adapters, with a clock that has not yet run past the time to live; the
    allocator refuses request [k]. *)
Definition filled (k : nat) : world :=
  exec get_ipx_interfaces
    (boot 2 (refused_at k) clock_from_100 [ReplyAdapters lan [tunnel; bare]]).

(** *** The list that a build returns *)

(** The order in which the adapters that are built end up in the list:
    those with the primary hardware address were put in front one after
    the other, the rest were appended. *)
Definition arrange (primary : Z) (V : list IP_ADAPTER_INFO) : list IP_ADAPTER_INFO :=
  reverse (filter (λ ad, addr48_in (Address ad) = primary) V)
  ++ filter (λ ad, addr48_in (Address ad) ≠ primary) V.

(** *** The place of the primary interface *)

(** A second adapter with the hardware address of [lan]. *)
Definition twin : IP_ADAPTER_INFO :=
  mk_adapter (mac 1) (mk_addr_string 0xC0A8010B 0xFFFFFF00) [].

Definition i_twin : Interface :=
  mk_interface 1 0x11 0xAA [mk_address 0xC0A8010B 0xFFFFFF00 0xC0A801FF].

(** ** What a caller holds *)

(** What a caller can do with the structure that a query returned at [q]
    in world [w]: write to its records or free them.  Everything else is as
    it was. *)
Definition tampered (w : world) (q : ptr) (w2 : world) : Prop :=
  w2 = set_mem (mem w2) w
  ∧ next_loc (mem w2) = next_loc (mem w)
  ∧ allocs (mem w2) = allocs (mem w)
  ∧ bufs (mem w2) = bufs (mem w)
  ∧ (∀ x, x ∉ iface_cells (mem w) q → ifaces (mem w2) !! x = ifaces (mem w) !! x)
  ∧ (∀ x, x ∉ ip_cells (mem w) q → ips (mem w2) !! x = ips (mem w) !! x).

(** The answers of the query functions in world [w] are those for the
    list [L]. *)
Definition answers (w : world) (L : list Interface) : Prop :=
  (∃ q w', get_ipx_interfaces w = Ok q w' ∧ read_ifaces (mem w') q = Some L)
  ∧ (∀ index, ∃ r w', ipx_interface_by_index index w = Ok r w'
                    ∧ read_iface (mem w') r = nth_from index 0 L)
  ∧ (∀ net node, ∃ r w', ipx_interface_by_addr net node w = Ok r w'
                       ∧ read_iface (mem w') r = find_addr net node L).

(** The structure returned at [q] by a call that started in [w] and ended
    in [w'] is the caller's own: its records were allocated by the call,
    none of them is a record of the cache, and writing to them or freeing
    them does not change the answer of a later query. *)
Definition independent (w w' : world) (q : ptr) : Prop :=
  (∀ x, x ∈ iface_cells (mem w') q →
     next_loc (mem w) ≤ x ∧ x ∉ iface_cells (mem w') (interface_cache w'))
  ∧ (∀ x, x ∈ ip_cells (mem w') q →
       next_loc (mem w) ≤ x ∧ x ∉ ip_cells (mem w') (interface_cache w'))
  ∧ ∀ w2 L2, tampered w' q w2 → list_spec w' = Some L2 → answers w' L2 ∧ answers w2 L2.

(** The caller frees the list that a first call returned, or overwrites
    the interface that [ipx_interface_by_index] returned: the next call
    returns what the first one did. *)
Definition scribble (i : ipx_interface_t) : ipx_interface_t :=
  mk_iface 0xDEAD 0xDEAD 0xDEAD None None None.

(** ** Copying when memory runs out *)

(** The number of records of a list: one for each interface and one for
    each of its bindings. *)
Definition cells (sh : list (loc * list loc)) : nat :=
  length sh + length (concat sh.*2).

(** The number of allocations that a copy of the list [L] asks for: one
    for each interface and one for each of its bindings. *)
Definition records (L : list Interface) : nat :=
  length L + length (concat (addresses <$> L)).

(** The world after a first call filled the cache from three adapters,
    all allocations being granted. *)
Definition three_cached : world :=
  exec get_ipx_interfaces (boot 2 granted clock_from_100 [ReplyAdapters lan [tunnel; bare]]).

(** The world [w] with an allocator that grants every request but the
    [k]-th. *)
Definition refusing (k : nat) (w : world) : world :=
  mk_world (mem w) (refused_at k) (clock w) (time_calls w) (os_script w)
    (cs_init_ok w) (get_iface_config w) (get_primary_iface w) (log w)
    (builds w) (interface_cache w) (interface_cache_ctime w).

(** ** A build in which the allocation of a binding is refused *)

(** The allocation requests of a build that runs through the adapters
    [l], all of them enabled: one for each interface and one for each of
    its bindings. *)
Definition requests (l : list IP_ADAPTER_INFO) : nat :=
  length l + length (concat (adapter_bindings <$> l)).

(** * Verification *)

(** ** Doubly-linked lists in the store *)

Section ListsLemmas.
Context {N : Type} `{DLNodeLaws N}.
Implicit Types (h : gmap loc N) (p head : ptr) (ls : list loc) (x : loc).

Lemma nextf_alter_prev h p k x : nextf (alter (with_prev p) k h) x = nextf h x.
Proof.
  unfold nextf. destruct (decide (k = x)) as [->|].
  - rewrite lookup_alter_eq. destruct (h !! x); simpl; [|done].
    by rewrite next_with_prev.
  - by rewrite lookup_alter_ne.
Qed.

Lemma prevf_alter_next h p k x : prevf (alter (with_next p) k h) x = prevf h x.
Proof.
  unfold prevf. destruct (decide (k = x)) as [->|].
  - rewrite lookup_alter_eq. destruct (h !! x); simpl; [|done].
    by rewrite prev_with_next.
  - by rewrite lookup_alter_ne.
Qed.

Lemma nextf_alter_next_ne h p k x :
  k ≠ x → nextf (alter (with_next p) k h) x = nextf h x.
Proof. intros. unfold nextf. by rewrite lookup_alter_ne. Qed.

Lemma prevf_alter_prev_ne h p k x :
  k ≠ x → prevf (alter (with_prev p) k h) x = prevf h x.
Proof. intros. unfold prevf. by rewrite lookup_alter_ne. Qed.

Lemma nextf_alter_next_eq h p x :
  is_Some (h !! x) → nextf (alter (with_next p) x h) x = Some p.
Proof.
  intros [n Hn]. unfold nextf. rewrite lookup_alter_eq, Hn. simpl.
  by rewrite next_with_next.
Qed.

Lemma prevf_alter_prev_eq h p x :
  is_Some (h !! x) → prevf (alter (with_prev p) x h) x = Some p.
Proof.
  intros [n Hn]. unfold prevf. rewrite lookup_alter_eq, Hn. simpl.
  by rewrite prev_with_prev.
Qed.

Lemma bodyf_alter_prev h p k x : bodyf (alter (with_prev p) k h) x = bodyf h x.
Proof.
  unfold bodyf. destruct (decide (k = x)) as [->|].
  - rewrite lookup_alter_eq. destruct (h !! x); simpl; [|done].
    unfold payload. by rewrite with_prev_erase.
  - by rewrite lookup_alter_ne.
Qed.

Lemma bodyf_alter_next h p k x : bodyf (alter (with_next p) k h) x = bodyf h x.
Proof.
  unfold bodyf. destruct (decide (k = x)) as [->|].
  - rewrite lookup_alter_eq. destruct (h !! x); simpl; [|done].
    unfold payload. by rewrite with_next_erase.
  - by rewrite lookup_alter_ne.
Qed.

Lemma nextf_is_Some h x : is_Some (nextf h x) ↔ is_Some (h !! x).
Proof. unfold nextf. apply fmap_is_Some. Qed.

Lemma prevf_is_Some h x : is_Some (prevf h x) ↔ is_Some (h !! x).
Proof. unfold prevf. apply fmap_is_Some. Qed.

Lemma bodyf_is_Some h x : is_Some (bodyf h x) ↔ is_Some (h !! x).
Proof. unfold bodyf. apply fmap_is_Some. Qed.

(** A chain only depends on the [next] fields of its own nodes. *)
Lemma chain_ext h h' p ls :
  (∀ x, x ∈ ls → nextf h' x = nextf h x) → chain h p ls → chain h' p ls.
Proof.
  revert p. induction ls as [|x ls IH]; intros p Hext; simpl; [done|].
  intros [-> (q & Hq & Hc)]. split; [done|]. exists q. split.
  - rewrite Hext; [done|]. left.
  - apply IH; [|done]. intros y Hy. apply Hext. by right.
Qed.

Lemma chain_live h p ls x : chain h p ls → x ∈ ls → is_Some (h !! x).
Proof.
  revert p. induction ls as [|y ls IH]; intros p; simpl.
  - intros _ Hx. by apply elem_of_nil in Hx.
  - intros [-> (q & Hq & Hc)] Hx. apply elem_of_cons in Hx as [->|Hx].
    + apply nextf_is_Some. by rewrite Hq.
    + by eapply IH.
Qed.

Lemma chain_head h p ls : chain h p ls → p = head ls.
Proof. destruct ls; simpl; [done|]. by intros [-> _]. Qed.

(** Linking a new node behind the last one. *)
Lemma chain_snoc h h' p ls t add :
  chain h p ls → last ls = Some t → add ∉ ls → NoDup ls →
  (∀ x, x ∈ ls → x ≠ t → nextf h' x = nextf h x) →
  nextf h' t = Some (Some add) → nextf h' add = Some None →
  chain h' p (ls ++ [add]).
Proof.
  revert p. induction ls as [|x ls IH]; intros p; simpl; [done|].
  intros [-> (q & Hq & Hc)] Hlast Hadd Hnd Hext Ht Ha.
  apply NoDup_cons in Hnd as [Hx Hnd].
  split; [done|]. destruct ls as [|y ls].
  - simpl in *. injection Hlast as ->. subst q. exists (Some add).
    split; [done|]. split; [done|]. exists None. done.
  - exists q. split.
    + rewrite Hext; [done|left|]. intros ->. apply Hx.
      rewrite last_cons_cons in Hlast. by apply last_Some_elem_of.
    + apply IH; try done.
      * intros Hin. apply Hadd. by right.
      * intros z Hz Hzt. apply Hext; [by right|done].
Qed.

Lemma dll_nil h : dll h None [].
Proof. split; [constructor|]. split; [done|]. by intros. Qed.

Lemma dll_nil_inv h p : dll h p [] → p = None.
Proof. by intros (_ & ? & _). Qed.

Lemma dll_ext h h' head ls :
  (∀ x, x ∈ ls → nextf h' x = nextf h x) →
  (∀ x, head = Some x → prevf h' x = prevf h x) →
  dll h head ls → dll h' head ls.
Proof.
  intros Hn Hp (Hnd & Hc & Hl). split; [done|]. split.
  - by eapply chain_ext.
  - intros x Hx. rewrite Hp by done. by apply Hl.
Qed.

(** Running the primitives. *)
Lemma bind_Ok {A B} (c : M A) (k : A → M B) w a w' :
  c w = Ok a w' → bind c k w = k a w'.
Proof. unfold bind. by intros ->. Qed.

Lemma deref_ok x n w :
  heap (mem w) !! x = Some n → deref (Some x) w = Ok n w.
Proof. unfold deref. by intros ->. Qed.

Lemma assign_ok x (f : N → N) w :
  is_Some (heap (mem w) !! x) →
  assign (Some x) f w = Ok tt (set_mem (with_heap (alter f x (heap (mem w))) (mem w)) w).
Proof. unfold assign. by intros [n ->]. Qed.

Lemma free_ok x w :
  is_Some (heap (mem w) !! x) →
  free (N:=N) (Some x) w = Ok tt (set_mem (with_heap (delete x (heap (mem w))) (mem w)) w).
Proof. unfold free. by intros [n ->]. Qed.

Lemma hw_id w : hw w (heap (mem w)) = w.
Proof. unfold hw. rewrite with_heap_heap. by destruct w. Qed.

Lemma hw_hw w h h' : hw (hw w h) h' = hw w h'.
Proof. unfold hw. simpl. by rewrite with_heap_with_heap. Qed.

Lemma heap_hw w h : heap (mem (hw w h)) = h.
Proof. unfold hw. simpl. apply heap_with_heap. Qed.

Lemma deref_hw w h x n : h !! x = Some n → deref (Some x) (hw w h) = Ok n (hw w h).
Proof. intros. apply deref_ok. by rewrite heap_hw. Qed.

Lemma assign_hw w h x (f : N → N) :
  is_Some (h !! x) → assign (Some x) f (hw w h) = Ok tt (hw w (alter f x h)).
Proof.
  intros. rewrite assign_ok by (by rewrite heap_hw).
  rewrite heap_hw. f_equal. exact (hw_hw w h _).
Qed.

Lemma free_hw w h x :
  is_Some (h !! x) → free (N:=N) (Some x) (hw w h) = Ok tt (hw w (delete x h)).
Proof.
  intros. rewrite free_ok by (by rewrite heap_hw).
  rewrite heap_hw. f_equal. exact (hw_hw w h _).
Qed.

Lemma dll_head_node h head ls x :
  dll h head ls → head = Some x →
  ∃ n t, h !! x = Some n ∧ prev n = Some t ∧ last ls = Some t ∧ t ∈ ls ∧ x ∈ ls.
Proof.
  intros (Hnd & Hc & Hl) ->. specialize (Hl x eq_refl).
  destruct ls as [|y ls]; simpl in Hc; [done|].
  destruct Hc as [[= <-] _].
  unfold prevf in Hl. destruct (h !! x) as [n|] eqn:Hn; [|done].
  simpl in Hl. injection Hl as Hl.
  destruct (last (x :: ls)) as [t|] eqn:Ht.
  - exists n, t. split; [done|]. split; [done|]. split; [done|]. split.
    + by apply last_Some_elem_of.
    + left.
  - by apply last_None in Ht.
Qed.

Lemma DL_APPEND_hw w h head add ls :
  dll h head ls → is_Some (h !! add) → add ∉ ls →
  ∃ h', DL_APPEND head add (hw w h) = Ok (hd_error (ls ++ [add])) (hw w h')
      ∧ dll h' (hd_error (ls ++ [add])) (ls ++ [add])
      ∧ (∀ x, bodyf h' x = bodyf h x)
      ∧ (∀ x, x ≠ add → x ∉ ls → h' !! x = h !! x).
Proof.
  intros Hd Ha Hadd. destruct head as [hd|].
  - destruct (dll_head_node _ _ _ _ Hd eq_refl) as (nh & t & Hnh & Hpt & Hlast & Ht & Hhd).
    destruct Hd as (Hnd & Hc & Hl).
    assert (hd ≠ add) as Hne1 by (intros ->; done).
    assert (t ≠ add) as Hne2 by (intros ->; done).
    set (h1 := alter (with_prev (Some t)) add h).
    set (h2 := alter (with_next (Some add)) t h1).
    set (h3 := alter (with_prev (Some add)) hd h2).
    set (h4 := alter (with_next None) add h3).
    assert (is_Some (h1 !! t)) as Ht1.
    { apply lookup_alter_is_Some. by eapply chain_live. }
    assert (is_Some (h2 !! hd)) as Hhd2.
    { do 2 apply lookup_alter_is_Some. by eapply chain_live. }
    assert (is_Some (h3 !! add)) as Ha3 by (by do 3 apply lookup_alter_is_Some).
    exists h4. split; [|split; [|split]].
    + unfold DL_APPEND.
      erewrite bind_Ok by (by apply deref_hw).
      rewrite Hpt.
      erewrite bind_Ok by (by apply assign_hw).
      erewrite bind_Ok by (apply deref_hw; by rewrite lookup_alter_ne).
      rewrite Hpt.
      erewrite bind_Ok by (by apply assign_hw).
      erewrite bind_Ok by (by apply assign_hw).
      erewrite bind_Ok by (by apply assign_hw).
      unfold ret. f_equal. rewrite (chain_head _ _ _ Hc). by destruct ls.
    + assert (hd_error (ls ++ [add]) = Some hd) as ->.
      { rewrite (chain_head _ _ _ Hc). by destruct ls. }
      split; [|split].
      * apply NoDup_app. split; [done|]. split; [|apply NoDup_singleton].
        intros x Hx Hx'. apply list_elem_of_singleton in Hx'. by subst.
      * eapply chain_snoc; try done.
        -- intros x Hx Hxt. unfold h4, h3, h2, h1.
           rewrite nextf_alter_next_ne by (intros ->; done).
           rewrite nextf_alter_prev.
           rewrite nextf_alter_next_ne by done.
           by rewrite nextf_alter_prev.
        -- unfold h4, h3. rewrite nextf_alter_next_ne by done.
           rewrite nextf_alter_prev. by apply nextf_alter_next_eq.
        -- by apply nextf_alter_next_eq.
      * intros x [= <-]. rewrite last_snoc. unfold h4.
        rewrite prevf_alter_next. by apply prevf_alter_prev_eq.
    + intros x. unfold h4, h3, h2, h1.
      by rewrite bodyf_alter_next, bodyf_alter_prev, bodyf_alter_next, bodyf_alter_prev.
    + intros x Hx1 Hx2. unfold h4, h3, h2, h1.
      rewrite !lookup_alter_ne; try done; intros ->; done.
  - destruct Hd as (Hnd & Hc & Hl). destruct ls as [|y ls]; [|by destruct Hc].
    set (h1 := alter (with_prev (Some add)) add h).
    set (h2 := alter (with_next None) add h1).
    assert (is_Some (h1 !! add)) as Ha1 by (by apply lookup_alter_is_Some).
    exists h2. split; [|split; [|split]].
    + unfold DL_APPEND.
      erewrite bind_Ok by (by apply assign_hw).
      erewrite bind_Ok by (by apply assign_hw).
      done.
    + simpl. split; [apply NoDup_singleton|]. split.
      * simpl. split; [done|]. exists None. split; [|done].
        by apply nextf_alter_next_eq.
      * intros x [= <-]. simpl. unfold h2. rewrite prevf_alter_next.
        by apply prevf_alter_prev_eq.
    + intros x. unfold h2, h1. by rewrite bodyf_alter_next, bodyf_alter_prev.
    + intros x Hx1 Hx2. unfold h2, h1. by rewrite !lookup_alter_ne.
Qed.

Lemma DL_PREPEND_hw w h head add ls :
  dll h head ls → is_Some (h !! add) → add ∉ ls →
  ∃ h', DL_PREPEND head add (hw w h) = Ok (Some add) (hw w h')
      ∧ dll h' (Some add) (add :: ls)
      ∧ (∀ x, bodyf h' x = bodyf h x)
      ∧ (∀ x, x ≠ add → x ∉ ls → h' !! x = h !! x).
Proof.
  intros Hd Ha Hadd. destruct head as [hd|].
  - destruct (dll_head_node _ _ _ _ Hd eq_refl) as (nh & t & Hnh & Hpt & Hlast & Ht & Hhd).
    destruct Hd as (Hnd & Hc & Hl).
    assert (hd ≠ add) as Hne1 by (intros ->; done).
    set (h1 := alter (with_next (Some hd)) add h).
    set (h2 := alter (with_prev (Some t)) add h1).
    set (h3 := alter (with_prev (Some add)) hd h2).
    assert (is_Some (h1 !! add)) as Ha1 by (by apply lookup_alter_is_Some).
    assert (is_Some (h2 !! hd)) as Hhd2.
    { do 2 apply lookup_alter_is_Some. by eapply chain_live. }
    exists h3. split; [|split; [|split]].
    + unfold DL_PREPEND.
      erewrite bind_Ok by (by apply assign_hw).
      erewrite bind_Ok by (apply deref_hw; by rewrite lookup_alter_ne).
      rewrite Hpt.
      erewrite bind_Ok by (by apply assign_hw).
      erewrite bind_Ok by (by apply assign_hw).
      done.
    + split; [by apply NoDup_cons|]. split.
      * simpl. split; [done|]. exists (Some hd). split.
        -- unfold h3, h2. rewrite !nextf_alter_prev. by apply nextf_alter_next_eq.
        -- eapply chain_ext; [|done]. intros x Hx. unfold h3, h2, h1.
           rewrite !nextf_alter_prev. apply nextf_alter_next_ne. by intros ->.
      * intros x [= <-]. unfold h3.
        rewrite prevf_alter_prev_ne by done. unfold h2.
        rewrite prevf_alter_prev_eq by done.
        destruct ls; [done|]. by rewrite last_cons_cons, Hlast.
    + intros x. unfold h3, h2, h1.
      by rewrite !bodyf_alter_prev, bodyf_alter_next.
    + intros x Hx1 Hx2. unfold h3, h2, h1.
      rewrite !lookup_alter_ne; try done; intros ->; done.
  - destruct Hd as (Hnd & Hc & Hl). destruct ls as [|y ls]; [|by destruct Hc].
    set (h1 := alter (with_next None) add h).
    set (h2 := alter (with_prev (Some add)) add h1).
    assert (is_Some (h1 !! add)) as Ha1 by (by apply lookup_alter_is_Some).
    exists h2. split; [|split; [|split]].
    + unfold DL_PREPEND.
      erewrite bind_Ok by (by apply assign_hw).
      erewrite bind_Ok by (by apply assign_hw).
      done.
    + split; [apply NoDup_singleton|]. split.
      * simpl. split; [done|]. exists None. split; [|done].
        unfold h2. rewrite nextf_alter_prev. by apply nextf_alter_next_eq.
      * intros x [= <-]. simpl. by apply prevf_alter_prev_eq.
    + intros x. unfold h2, h1. by rewrite bodyf_alter_prev, bodyf_alter_next.
    + intros x Hx1 Hx2. unfold h2, h1. by rewrite !lookup_alter_ne.
Qed.

Lemma DL_DELETE_head_hw w h x ls :
  dll h (Some x) (x :: ls) →
  ∃ h', DL_DELETE (Some x) x (hw w h) = Ok (hd_error ls) (hw w h')
      ∧ dll h' (hd_error ls) ls
      ∧ (∀ y, bodyf h' y = bodyf h y)
      ∧ (∀ y, y ∉ ls → h' !! y = h !! y).
Proof.
  intros Hd.
  destruct (dll_head_node _ _ _ _ Hd eq_refl) as (d & t & Hdx & Hpt & Hlast & Ht & _).
  destruct Hd as (Hnd & Hc & Hl). apply NoDup_cons in Hnd as [Hx Hnd].
  simpl in Hc. destruct Hc as [_ (q & Hq & Hc)].
  assert (next d = q) as Hnq.
  { unfold nextf in Hq. rewrite Hdx in Hq. simpl in Hq. congruence. }
  destruct ls as [|y ls].
  - simpl in Hlast. injection Hlast as <-.
    exists h. split; [|split; [|split]].
    + unfold DL_DELETE. erewrite bind_Ok by (by apply deref_hw).
      rewrite Hpt. by rewrite decide_True.
    + apply dll_nil.
    + done.
    + done.
  - rewrite last_cons_cons in Hlast.
    assert (t ≠ x) as Htx.
    { intros ->. apply Hx. by apply last_Some_elem_of. }
    simpl in Hc. destruct Hc as [-> (q' & Hq' & Hc)].
    assert (is_Some (h !! y)) as Hy.
    { apply nextf_is_Some. by rewrite Hq'. }
    assert (x ≠ y) as Hxy by (intros ->; apply Hx; left).
    set (h1 := alter (with_prev (Some t)) y h).
    exists h1. split; [|split; [|split]].
    + unfold DL_DELETE. erewrite bind_Ok by (by apply deref_hw).
      rewrite Hpt. rewrite decide_False by congruence.
      rewrite decide_True by done. rewrite Hnq.
      erewrite bind_Ok by (by apply assign_hw).
      erewrite bind_Ok by (apply deref_hw; unfold h1; by rewrite lookup_alter_ne).
      by rewrite Hnq.
    + simpl. split; [done|]. split.
      * simpl. split; [done|]. exists q'. unfold h1. rewrite nextf_alter_prev.
        split; [done|]. eapply chain_ext; [|done]. intros z _.
        apply nextf_alter_prev.
      * intros z [= <-]. unfold h1. rewrite prevf_alter_prev_eq by done.
        by rewrite Hlast.
    + intros z. apply bodyf_alter_prev.
    + intros z Hz. unfold h1. apply lookup_alter_ne. intros ->. apply Hz. left.
Qed.

(** Nodes outside a list can be dropped from the heap. *)
Lemma dll_delete h head ls x : x ∉ ls → dll h head ls → dll (delete x h) head ls.
Proof.
  intros Hx Hd. eapply dll_ext; [| |exact Hd].
  - intros y Hy. unfold nextf. rewrite lookup_delete_ne; [done|]. by intros ->.
  - intros y ->. unfold prevf. rewrite lookup_delete_ne; [done|].
    intros ->. destruct Hd as (_ & Hc & _). apply chain_head in Hc.
    destruct ls; [done|]. injection Hc as ->. apply Hx. left.
Qed.

Lemma chain_NoDup_length h p ls : NoDup ls → chain h p ls → length ls ≤ size h.
Proof.
  intros Hnd Hc. rewrite <- length_map_to_list.
  rewrite <- (length_fmap fst (map_to_list h)).
  apply submseteq_length, NoDup_submseteq; [done|].
  intros x Hx. destruct (chain_live _ _ _ _ Hc Hx) as [n Hn].
  apply list_elem_of_fmap. exists (x, n). split; [done|].
  by apply elem_of_map_to_list.
Qed.

Lemma read_chain_ok fuel h p ls :
  chain h p ls → length ls ≤ fuel → read_chain fuel h p = mapM (λ x, h !! x) ls.
Proof.
  revert fuel p. induction ls as [|x ls IH]; intros fuel p; simpl.
  - intros -> _. by destruct fuel.
  - intros [-> (q & Hq & Hc)] Hlen. destruct fuel as [|fuel]; [lia|].
    simpl. unfold nextf in Hq. destruct (h !! x) as [n|]; [|done].
    simpl in Hq. injection Hq as ->. simpl.
    rewrite (IH fuel q) by (done || lia).
    by destruct (mapM (λ x0, h !! x0) ls).
Qed.

End ListsLemmas.

(** ** Lists of bindings and of interfaces in the store *)

Lemma ip_view_bodyf (h : gmap loc ipx_interface_ip_t) x :
  ip_view <$> h !! x = ip_view <$> bodyf h x.
Proof. unfold bodyf. by destruct (h !! x). Qed.

Lemma ip_views_ext (h h' : gmap loc ipx_interface_ip_t) ils al :
  (∀ y, y ∈ ils → bodyf h' y = bodyf h y) →
  Forall2 (λ x v, ip_view <$> h !! x = Some v) ils al →
  Forall2 (λ x v, ip_view <$> h' !! x = Some v) ils al.
Proof.
  intros Hb Hf. induction Hf as [|x v ils al Hx Hf IH]; constructor.
  - rewrite ip_view_bodyf, Hb, <- ip_view_bodyf; [done|left].
  - apply IH. intros y Hy. apply Hb. by right.
Qed.

Lemma ip_list_ext (h h' : gmap loc ipx_interface_ip_t) p ils al :
  (∀ y, y ∈ ils → h' !! y = h !! y) → ip_list h p ils al → ip_list h' p ils al.
Proof.
  intros He [Hd Hf]. split.
  - eapply dll_ext; [| |exact Hd].
    + intros y Hy. unfold nextf. by rewrite He.
    + intros y ->. unfold prevf. rewrite He; [done|].
      destruct Hd as (_ & Hc & _). apply chain_head in Hc.
      destruct ils; [done|]. injection Hc as ->. left.
  - eapply ip_views_ext; [|done]. intros y Hy. unfold bodyf. by rewrite He.
Qed.

Lemma ip_list_length h p ils al : ip_list h p ils al → length ils = length al.
Proof. intros [_ Hf]. by eapply Forall2_length. Qed.

Lemma ip_list_nil h : ip_list h None [] [].
Proof. split; [apply dll_nil|constructor]. Qed.

Lemma mapM_views (h : gmap loc ipx_interface_ip_t) ils al :
  Forall2 (λ x v, ip_view <$> h !! x = Some v) ils al →
  fmap (M:=list) ip_view <$> mapM (λ x, h !! x) ils = Some al.
Proof.
  induction 1 as [|x v ils al Hx Hf IH]; [done|].
  simpl. destruct (h !! x) as [a|]; [|done]. simpl in *. injection Hx as <-.
  destruct (mapM (λ x0, h !! x0) ils); [|done]. simpl in *. by injection IH as <-.
Qed.

Lemma ip_list_read s p ils al : ip_list (ips s) p ils al → read_ips s p = Some al.
Proof.
  intros [(Hnd & Hc & _) Hf]. unfold read_ips.
  rewrite (read_chain_ok _ _ _ ils); [|done|by eapply chain_NoDup_length].
  by apply mapM_views.
Qed.

Lemma bodyf_iface_fields (hi hi' : gmap loc ipx_interface_t) x i :
  bodyf hi' x = bodyf hi x → hi !! x = Some i →
  ∃ i', hi' !! x = Some i' ∧ hwaddr i' = hwaddr i ∧ ipx_net i' = ipx_net i
      ∧ ipx_node i' = ipx_node i ∧ iface_ipaddr i' = iface_ipaddr i.
Proof.
  unfold bodyf. intros Hb Hi. rewrite Hi in Hb.
  destruct (hi' !! x) as [i'|]; [|done]. exists i'.
  destruct i, i'. cbn in Hb. by simplify_eq.
Qed.

Lemma iface_at_ext hi hi' ha ha' x ils v :
  bodyf hi' x = bodyf hi x →
  (∀ y, y ∈ ils → ha' !! y = ha !! y) →
  iface_at hi ha x ils v → iface_at hi' ha' x ils v.
Proof.
  intros Hb He (i & Hi & ? & ? & ? & Hl).
  destruct (bodyf_iface_fields _ _ _ _ Hb Hi) as (i' & Hi' & ? & ? & ? & Hp).
  exists i'. split; [done|]. split; [congruence|]. split; [congruence|].
  split; [congruence|]. rewrite Hp. by eapply ip_list_ext.
Qed.

Lemma iface_at_read s x ils v i :
  ifaces s !! x = Some i → iface_at (ifaces s) (ips s) x ils v → iface_view s i = Some v.
Proof.
  intros Hi (i' & Hi' & ? & ? & ? & Hl). rewrite Hi in Hi'. injection Hi' as <-.
  unfold iface_view. rewrite (ip_list_read _ _ _ _ Hl). simpl.
  destruct v; simpl in *; congruence.
Qed.

Lemma iface_nodes_views s sh L :
  Forall2 (λ c v, iface_at (ifaces s) (ips s) c.1 c.2 v) sh L →
  ∃ nodes, Forall2 (λ x n, ifaces s !! x = Some n) sh.*1 nodes
         ∧ Forall2 (λ n v, iface_view s n = Some v) nodes L.
Proof.
  induction 1 as [|[x ils] v sh L Hx Hf (nodes & IH1 & IH2)].
  - exists []. split; constructor.
  - destruct Hx as (i & Hi & Hx). exists (i :: nodes). split.
    + by constructor.
    + constructor; [|done]. eapply iface_at_read; [done|]. by exists i.
Qed.

Lemma iface_list_read s p sh L :
  iface_list (ifaces s) (ips s) p sh L → read_ifaces s p = Some L.
Proof.
  intros ((Hnd & Hc & _) & _ & Hf). unfold read_ifaces.
  rewrite (read_chain_ok _ _ _ sh.*1); [|done|by eapply chain_NoDup_length].
  destruct (iface_nodes_views _ _ _ Hf) as (nodes & H1 & H2).
  apply mapM_Some in H1. rewrite H1. simpl. by apply mapM_Some.
Qed.

Lemma iface_list_nil hi ha : iface_list hi ha None [] [].
Proof. split; [apply dll_nil|]. split; [constructor|constructor]. Qed.

Lemma iface_list_length hi ha p sh L : iface_list hi ha p sh L → length sh = length L.
Proof. intros (_ & _ & Hf). by eapply Forall2_length. Qed.

(** ** Running the primitives on an explicit store *)

Lemma deref_iface w hi ha bf n k x i :
  hi !! x = Some i → deref (Some x) (W w hi ha bf n k) = Ok i (W w hi ha bf n k).
Proof. intros. by apply deref_ok. Qed.

Lemma deref_ip w hi ha bf n k x a :
  ha !! x = Some a → deref (Some x) (W w hi ha bf n k) = Ok a (W w hi ha bf n k).
Proof. intros. by apply deref_ok. Qed.

Lemma assign_iface w hi ha bf n k x (f : ipx_interface_t → ipx_interface_t) :
  is_Some (hi !! x) →
  assign (Some x) f (W w hi ha bf n k) = Ok tt (W w (alter f x hi) ha bf n k).
Proof. intros. by rewrite assign_ok. Qed.

Lemma assign_ip w hi ha bf n k x (f : ipx_interface_ip_t → ipx_interface_ip_t) :
  is_Some (ha !! x) →
  assign (Some x) f (W w hi ha bf n k) = Ok tt (W w hi (alter f x ha) bf n k).
Proof. intros. by rewrite assign_ok. Qed.

Lemma free_iface w hi ha bf n k x :
  is_Some (hi !! x) →
  free (N:=ipx_interface_t) (Some x) (W w hi ha bf n k) = Ok tt (W w (delete x hi) ha bf n k).
Proof. intros. by rewrite free_ok. Qed.

Lemma free_ip w hi ha bf n k x :
  is_Some (ha !! x) →
  free (N:=ipx_interface_ip_t) (Some x) (W w hi ha bf n k) = Ok tt (W w hi (delete x ha) bf n k).
Proof. intros. by rewrite free_ok. Qed.

Lemma malloc_iface w hi ha bf n k :
  alloc_ok w k = true →
  malloc junk_iface (W w hi ha bf n k)
  = Ok (Some n) (W w (<[n := junk_iface]> hi) ha bf (S n) (S k)).
Proof. intros Hk. unfold malloc. simpl. by rewrite Hk. Qed.

Lemma malloc_ip w hi ha bf n k :
  alloc_ok w k = true →
  malloc junk_ip (W w hi ha bf n k)
  = Ok (Some n) (W w hi (<[n := junk_ip]> ha) bf (S n) (S k)).
Proof. intros Hk. unfold malloc. simpl. by rewrite Hk. Qed.

Lemma DL_APPEND_ip w hi ha bf n k head add ls :
  dll ha head ls → is_Some (ha !! add) → add ∉ ls →
  ∃ h', DL_APPEND (N:=ipx_interface_ip_t) head add (W w hi ha bf n k) = Ok (hd_error (ls ++ [add])) (W w hi h' bf n k)
      ∧ dll h' (hd_error (ls ++ [add])) (ls ++ [add])
      ∧ (∀ x, bodyf h' x = bodyf ha x)
      ∧ (∀ x, x ≠ add → x ∉ ls → h' !! x = ha !! x).
Proof. intros Hd Ha Hadd. exact (DL_APPEND_hw (W w hi ha bf n k) ha head add ls Hd Ha Hadd). Qed.

Lemma DL_APPEND_iface w hi ha bf n k head add ls :
  dll hi head ls → is_Some (hi !! add) → add ∉ ls →
  ∃ h', DL_APPEND (N:=ipx_interface_t) head add (W w hi ha bf n k) = Ok (hd_error (ls ++ [add])) (W w h' ha bf n k)
      ∧ dll h' (hd_error (ls ++ [add])) (ls ++ [add])
      ∧ (∀ x, bodyf h' x = bodyf hi x)
      ∧ (∀ x, x ≠ add → x ∉ ls → h' !! x = hi !! x).
Proof. intros Hd Ha Hadd. exact (DL_APPEND_hw (W w hi ha bf n k) hi head add ls Hd Ha Hadd). Qed.

Lemma DL_PREPEND_iface w hi ha bf n k head add ls :
  dll hi head ls → is_Some (hi !! add) → add ∉ ls →
  ∃ h', DL_PREPEND (N:=ipx_interface_t) head add (W w hi ha bf n k) = Ok (Some add) (W w h' ha bf n k)
      ∧ dll h' (Some add) (add :: ls)
      ∧ (∀ x, bodyf h' x = bodyf hi x)
      ∧ (∀ x, x ≠ add → x ∉ ls → h' !! x = hi !! x).
Proof. intros Hd Ha Hadd. exact (DL_PREPEND_hw (W w hi ha bf n k) hi head add ls Hd Ha Hadd). Qed.

Lemma DL_DELETE_ip w hi ha bf n k x ls :
  dll ha (Some x) (x :: ls) →
  ∃ h', DL_DELETE (N:=ipx_interface_ip_t) (Some x) x (W w hi ha bf n k) = Ok (hd_error ls) (W w hi h' bf n k)
      ∧ dll h' (hd_error ls) ls
      ∧ (∀ y, bodyf h' y = bodyf ha y)
      ∧ (∀ y, y ∉ ls → h' !! y = ha !! y).
Proof. intros Hd. exact (DL_DELETE_head_hw (W w hi ha bf n k) ha x ls Hd). Qed.

Lemma DL_DELETE_iface w hi ha bf n k x ls :
  dll hi (Some x) (x :: ls) →
  ∃ h', DL_DELETE (N:=ipx_interface_t) (Some x) x (W w hi ha bf n k) = Ok (hd_error ls) (W w h' ha bf n k)
      ∧ dll h' (hd_error ls) ls
      ∧ (∀ y, bodyf h' y = bodyf hi y)
      ∧ (∀ y, y ∉ ls → h' !! y = hi !! y).
Proof. intros Hd. exact (DL_DELETE_head_hw (W w hi ha bf n k) hi x ls Hd). Qed.

(** ** Freeing *)

Lemma chain_next_node {N} `{DLNodeLaws N} (h : gmap loc N) x ls n :
  chain h (Some x) (x :: ls) → h !! x = Some n → next n = hd_error ls ∧ chain h (next n) ls.
Proof.
  simpl. intros [_ (q & Hq & Hc)] Hn. unfold nextf in Hq. rewrite Hn in Hq.
  simpl in Hq. injection Hq as ->. split; [|done]. by apply chain_head in Hc.
Qed.

Lemma free_ip_loop_ok ils : ∀ al fuel w hi ha bf n k x i,
  hi !! x = Some i → ip_list ha (iface_ipaddr i) ils al → length ils ≤ fuel →
  ∃ hi' ha',
    free_ip_loop fuel (Some x) (iface_ipaddr i) (W w hi ha bf n k)
    = Ok tt (W w hi' ha' bf n k)
    ∧ is_Some (hi' !! x)
    ∧ (∀ y, y ≠ x → hi' !! y = hi !! y)
    ∧ (∀ y, y ∈ ils → ha' !! y = None)
    ∧ (∀ y, y ∉ ils → ha' !! y = ha !! y).
Proof.
  induction ils as [|y ils IH]; intros al fuel w hi ha bf n k x i Hi Hl Hfuel.
  - destruct Hl as [Hd _]. apply dll_nil_inv in Hd. rewrite Hd.
    exists hi, ha. simpl. split; [by destruct fuel|]. split; [by eexists|].
    split; [done|]. split; [|done]. intros y Hy. by apply elem_of_nil in Hy.
  - pose proof Hl as [Hd Hf].
    assert (iface_ipaddr i = Some y) as Hhead.
    { destruct Hd as (_ & Hc & _). by apply chain_head in Hc. }
    rewrite Hhead in *.
    destruct fuel as [|fuel]; [simpl in Hfuel; lia|].
    assert (is_Some (ha !! y)) as [a Ha].
    { destruct Hd as (_ & Hc & _). eapply chain_live; [done|left]. }
    destruct (chain_next_node ha y ils a) as [Hnext Hc']; [by destruct Hd as (_ & ? & _)|done|].
    destruct (DL_DELETE_ip w hi ha bf n k y ils Hd) as (h1 & Hrun & Hd1 & Hb1 & Hfr1).
    assert (y ∉ ils) as Hy.
    { destruct Hd as (Hnd & _). by apply NoDup_cons in Hnd as [? _]. }
    assert (h1 !! y = ha !! y) as Hy1 by (by apply Hfr1).
    inversion Hf as [|? v ? al' Hv Hf']; subst.
    set (i1 := set_iface_ipaddr (hd_error ils) i).
    destruct (IH al' fuel w (<[x := i1]> hi) (delete y h1) bf n k x i1)
      as (hi' & ha' & Hloop & Hx' & Hfi & Hdel & Hkeep).
    { by rewrite lookup_insert_eq. }
    { split.
      - simpl. by apply dll_delete.
      - eapply ip_views_ext; [|done]. intros z Hz. unfold bodyf.
        rewrite lookup_delete_ne by (by intros ->). apply Hb1. }
    { simpl in Hfuel. lia. }
    exists hi', ha'. split; [|split; [done|split; [|split]]].
    + simpl.
      erewrite bind_Ok by (by apply deref_ip).
      erewrite bind_Ok by (by apply deref_iface).
      rewrite Hhead.
      erewrite bind_Ok by exact Hrun.
      erewrite bind_Ok by (apply assign_iface; by eexists).
      erewrite bind_Ok by (apply free_ip; by rewrite Hy1).
      change (ip_next a) with (next a). rewrite Hnext.
      replace (alter (set_iface_ipaddr (hd_error ils)) x hi) with (<[x := i1]> hi).
      * exact Hloop.
      * apply map_eq. intros z. destruct (decide (x = z)) as [->|].
        -- by rewrite lookup_insert_eq, lookup_alter_eq, Hi.
        -- by rewrite lookup_insert_ne, lookup_alter_ne.
    + intros z Hz. rewrite Hfi by done. by rewrite lookup_insert_ne.
    + intros z Hz. apply elem_of_cons in Hz as [->|Hz].
      * rewrite Hkeep by done. apply lookup_delete_eq.
      * by apply Hdel.
    + intros z Hz. apply not_elem_of_cons in Hz as [Hzy Hz].
      rewrite Hkeep by done. rewrite lookup_delete_ne by done. by apply Hfr1.
Qed.

Lemma bind_get {A B} (f : world → A) (k : A → M B) w :
  bind (get f) k w = k (f w) w.
Proof. done. Qed.

Lemma bind_ret {A B} (a : A) (k : A → M B) w : bind (ret a) k w = k a w.
Proof. done. Qed.

Lemma bind_modify {B} (f : world → world) (k : unit → M B) w :
  bind (modify f) k w = k tt (f w).
Proof. done. Qed.

Lemma bind_log {B} lvl msg (k : unit → M B) w :
  bind (log_printf lvl msg) k w = k tt (add_log (lvl, msg) w).
Proof. done. Qed.

Lemma free_ipx_interface_ok w hi ha bf n k x ils v :
  iface_at hi ha x ils v →
  ∃ ha', free_ipx_interface (Some x) (W w hi ha bf n k) = Ok tt (W w (delete x hi) ha' bf n k)
       ∧ (∀ y, y ∈ ils → ha' !! y = None)
       ∧ (∀ y, y ∉ ils → ha' !! y = ha !! y).
Proof.
  intros (i & Hi & _ & _ & _ & Hl).
  destruct (free_ip_loop_ok ils _ (size ha) w hi ha bf n k x i Hi Hl)
    as (hi' & ha' & Hloop & Hx & Hfi & Hdel & Hkeep).
  { destruct Hl as [(Hnd & Hc & _) _]. by eapply chain_NoDup_length. }
  exists ha'. split; [|done].
  unfold free_ipx_interface.
  erewrite bind_Ok by (by apply deref_iface).
  rewrite bind_get. simpl.
  erewrite bind_Ok by exact Hloop.
  rewrite free_iface by done. do 2 f_equal.
  assert (delete x hi' = delete x hi) as ->; [|done].
  apply map_eq. intros z. destruct (decide (x = z)) as [->|].
  - by rewrite !lookup_delete_eq.
  - rewrite !lookup_delete_ne by done. by apply Hfi.
Qed.

Lemma iface_ats_ext hi hi' ha ha' sh L :
  (∀ y, y ∈ sh.*1 → bodyf hi' y = bodyf hi y) →
  (∀ z, z ∈ concat sh.*2 → ha' !! z = ha !! z) →
  Forall2 (λ c v, iface_at hi ha c.1 c.2 v) sh L →
  Forall2 (λ c v, iface_at hi' ha' c.1 c.2 v) sh L.
Proof.
  intros Hb He Hf. induction Hf as [|[x ils] v sh L Hx Hf IH]; constructor.
  - simpl in *. eapply iface_at_ext; [| |done].
    + apply Hb. left.
    + intros y Hy. apply He. apply elem_of_app. by left.
  - apply IH.
    + intros y Hy. apply Hb. simpl. by right.
    + intros z Hz. apply He. simpl. apply elem_of_app. by right.
Qed.

Lemma iface_list_ext hi hi' ha ha' p sh L :
  dll hi' p sh.*1 →
  (∀ y, y ∈ sh.*1 → bodyf hi' y = bodyf hi y) →
  (∀ z, z ∈ concat sh.*2 → ha' !! z = ha !! z) →
  iface_list hi ha p sh L → iface_list hi' ha' p sh L.
Proof.
  intros Hd Hb He (_ & Hnd & Hf). split; [done|]. split; [done|].
  by eapply iface_ats_ext.
Qed.

Lemma free_list_loop_ok sh : ∀ L fuel w hi ha bf n k head,
  iface_list hi ha head sh L → length sh ≤ fuel →
  ∃ hi' ha',
    free_list_loop fuel head head (W w hi ha bf n k) = Ok None (W w hi' ha' bf n k)
    ∧ (∀ y, y ∈ sh.*1 → hi' !! y = None)
    ∧ (∀ y, y ∉ sh.*1 → hi' !! y = hi !! y)
    ∧ (∀ y, y ∈ concat sh.*2 → ha' !! y = None)
    ∧ (∀ y, y ∉ concat sh.*2 → ha' !! y = ha !! y).
Proof.
  induction sh as [|[x ils] sh IH]; intros L fuel w hi ha bf n k head Hl Hfuel.
  - destruct Hl as (Hd & _). apply dll_nil_inv in Hd. subst head.
    exists hi, ha. split; [by destruct fuel|].
    split; [intros y Hy; by apply elem_of_nil in Hy|]. split; [done|].
    split; [intros y Hy; by apply elem_of_nil in Hy|done].
  - pose proof Hl as (Hd & Hnd & Hf).
    inversion Hf as [|? v ? L' Hx Hf']; subst. simpl in Hx.
    assert (head = Some x) as ->.
    { destruct Hd as (_ & Hc & _). by apply chain_head in Hc. }
    destruct fuel as [|fuel]; [simpl in Hfuel; lia|].
    pose proof Hx as (i & Hi & _).
    destruct (chain_next_node hi x sh.*1 i) as [Hnext Hc'];
      [by destruct Hd as (_ & ? & _)|done|].
    destruct (DL_DELETE_iface w hi ha bf n k x sh.*1 Hd) as (h1 & Hrun & Hd1 & Hb1 & Hfr1).
    assert (x ∉ sh.*1) as Hxs.
    { destruct Hd as (Hn & _). by apply NoDup_cons in Hn as [? _]. }
    simpl in Hnd. apply NoDup_app in Hnd as (Hnd1 & Hdisj & Hnd2).
    destruct (free_ipx_interface_ok w h1 ha bf n k x ils v) as (ha1 & Hfree & Hdel1 & Hkeep1).
    { eapply iface_at_ext; [apply Hb1|done|done]. }
    destruct (IH L' fuel w (delete x h1) ha1 bf n k (hd_error sh.*1))
      as (hi' & ha' & Hloop & Hgone & Hstay & Hgone' & Hstay').
    { split; [by apply dll_delete|]. split; [done|].
      eapply iface_ats_ext; [| |exact Hf'].
      - intros y Hy. unfold bodyf. rewrite lookup_delete_ne by (by intros ->).
        apply Hb1.
      - intros z Hz. apply Hkeep1. intros Hz'. by eapply Hdisj. }
    { simpl in Hfuel. lia. }
    exists hi', ha'. split; [|split; [|split; [|split]]].
    + simpl. erewrite bind_Ok by (by apply deref_iface).
      erewrite bind_Ok by exact Hrun.
      erewrite bind_Ok by exact Hfree.
      change (iface_next i) with (next i). rewrite Hnext. exact Hloop.
    + intros y Hy. simpl in Hy. apply elem_of_cons in Hy as [->|Hy].
      * rewrite Hstay by done. apply lookup_delete_eq.
      * by apply Hgone.
    + intros y Hy. simpl in Hy. apply not_elem_of_cons in Hy as [Hyx Hy].
      rewrite Hstay by done. rewrite lookup_delete_ne by done. by apply Hfr1.
    + intros y Hy. simpl in Hy. apply elem_of_app in Hy as [Hy|Hy].
      * rewrite Hstay'; [by apply Hdel1|]. intros Hy'. by eapply Hdisj.
      * by apply Hgone'.
    + intros y Hy. simpl in Hy. apply not_elem_of_app in Hy as [Hy1 Hy2].
      rewrite Hstay' by done. by apply Hkeep1.
Qed.

Lemma free_ipx_interface_list_ok w hi ha bf n k head sh L :
  iface_list hi ha head sh L →
  ∃ hi' ha',
    free_ipx_interface_list head (W w hi ha bf n k) = Ok None (W w hi' ha' bf n k)
    ∧ (∀ y, y ∈ sh.*1 → hi' !! y = None)
    ∧ (∀ y, y ∉ sh.*1 → hi' !! y = hi !! y)
    ∧ (∀ y, y ∈ concat sh.*2 → ha' !! y = None)
    ∧ (∀ y, y ∉ concat sh.*2 → ha' !! y = ha !! y).
Proof.
  intros Hl. unfold free_ipx_interface_list. rewrite bind_get. simpl.
  eapply free_list_loop_ok; [done|].
  destruct Hl as ((Hnd & Hc & _) & _).
  rewrite <- (length_fmap fst sh). by eapply chain_NoDup_length.
Qed.

(** ** Copying *)

Lemma below_fresh {A} n (h : gmap loc A) : below n h → h !! n = None.
Proof.
  intros Hb. destruct (h !! n) eqn:E; [|done].
  assert (n < n) by (apply Hb; by rewrite E). lia.
Qed.

Lemma below_insert {A} n (h : gmap loc A) a : below n h → below (S n) (<[n := a]> h).
Proof.
  intros Hb y. destruct (decide (n = y)) as [->|]; [lia|].
  rewrite lookup_insert_ne by done. intros Hy. apply Hb in Hy. lia.
Qed.

Lemma below_mono {A} n n' (h : gmap loc A) : n ≤ n' → below n h → below n' h.
Proof. intros Hn Hb y Hy. apply Hb in Hy. lia. Qed.

Lemma below_bodyf {N} `{DLNodeLaws N} n (h h' : gmap loc N) :
  (∀ y, bodyf h' y = bodyf h y) → below n h → below n h'.
Proof.
  intros Hb Hbel y Hy. apply Hbel. apply bodyf_is_Some. rewrite <- Hb.
  by apply bodyf_is_Some.
Qed.

Lemma set_iface_ipaddr_id i : set_iface_ipaddr (iface_ipaddr i) i = i.
Proof. by destruct i. Qed.

Lemma alter_insert_same {A} (f : A → A) x a (h : gmap loc A) :
  h !! x = Some a → alter f x h = <[x := f a]> h.
Proof.
  intros Hx. apply map_eq. intros z. destruct (decide (x = z)) as [->|].
  - by rewrite lookup_alter_eq, lookup_insert_eq, Hx.
  - by rewrite lookup_alter_ne, lookup_insert_ne.
Qed.

Lemma copy_ip_loop_ok rest : ∀ al_rest fuel w hi ha bf n k b d di done al_done p,
  (∀ j, k ≤ j → alloc_ok w j = true) →
  below n ha → b ≤ n →
  chain ha p rest →
  Forall2 (λ x v, ip_view <$> ha !! x = Some v) rest al_rest →
  (∀ y, y ∈ rest → y < b) →
  length rest ≤ fuel →
  hi !! d = Some di →
  ip_list ha (iface_ipaddr di) done al_done →
  (∀ y, y ∈ done → b ≤ y) →
  ∃ ha' new q n' k',
    copy_ip_loop fuel (Some d) p (W w hi ha bf n k)
    = Ok (Some d) (W w (<[d := set_iface_ipaddr q di]> hi) ha' bf n' k')
    ∧ n ≤ n' ∧ k ≤ k' ∧ below n' ha'
    ∧ (∀ y, y < b → ha' !! y = ha !! y)
    ∧ ip_list ha' q (done ++ new) (al_done ++ al_rest)
    ∧ (∀ y, y ∈ new → n ≤ y).
Proof.
  induction rest as [|y rest IH];
    intros al_rest fuel w hi ha bf n k b d di done al_done p
           Hok Hbel Hbn Hc Hviews Hsrc Hfuel Hd Hdone Hnew.
  - simpl in Hc. subst p. inversion Hviews; subst.
    exists ha, [], (iface_ipaddr di), n, k.
    rewrite set_iface_ipaddr_id, insert_id by done. rewrite !app_nil_r.
    split; [by destruct fuel|]. split_and!; try done.
    intros z Hz. by apply elem_of_nil in Hz.
  - destruct fuel as [|fuel]; [simpl in Hfuel; lia|].
    pose proof Hc as Hc0. simpl in Hc. destruct Hc as [-> _].
    inversion Hviews as [|? av ? al_rest' Hv Hviews']; subst.
    destruct (ha !! y) as [v|] eqn:Hy; [|done]. simpl in Hv. injection Hv as Hv.
    destruct (chain_next_node ha y rest v Hc0 Hy) as [Hnext Hc'].
    assert (y < b) as Hyb by (apply Hsrc; left).
    assert (ha !! n = None) as Hn by (by apply below_fresh).
    set (ha2 := <[n := v]> ha).
    assert (alter (λ _, v) n (<[n := junk_ip]> ha) = ha2) as Halt.
    { erewrite alter_insert_same by apply lookup_insert_eq.
      apply insert_insert_eq. }
    assert (∀ z, z ∈ done → z ≠ n) as Hdn.
    { intros z Hz Hzn. destruct Hdone as [(_ & Hcd & _) _].
      pose proof (chain_live _ _ _ _ Hcd Hz) as Hlive. apply Hbel in Hlive. lia. }
    destruct (DL_APPEND_ip w hi ha2 bf (S n) (S k) (iface_ipaddr di) n done)
      as (ha3 & Hrun & Hd3 & Hb3 & Hfr3).
    { destruct Hdone as [Hdd _]. eapply dll_ext; [| |exact Hdd].
      - intros z Hz. unfold nextf, ha2. rewrite lookup_insert_ne; [done|].
        intros ->. by eapply Hdn.
      - intros z Hz. unfold prevf, ha2. rewrite lookup_insert_ne; [done|].
        intros ->. destruct Hdd as (_ & Hcd & _). apply chain_head in Hcd.
        rewrite Hz in Hcd. destruct done; [done|]. injection Hcd as <-.
        eapply Hdn; [left|done]. }
    { unfold ha2. by rewrite lookup_insert_eq. }
    { intros Hin. by eapply Hdn. }
    assert (∀ z, z < b → ha3 !! z = ha !! z) as Hold.
    { intros z Hz. rewrite Hfr3.
      - unfold ha2. rewrite lookup_insert_ne; [done|lia].
      - lia.
      - intros Hin. apply Hnew in Hin. lia. }
    set (q1 := hd_error (done ++ [n])).
    set (di1 := set_iface_ipaddr q1 di).
    destruct (IH al_rest' fuel w (<[d := di1]> hi) ha3 bf (S n) (S k) b d di1
                (done ++ [n]) (al_done ++ [av]) (next v))
      as (ha' & new & q & n' & k' & Hloop & Hn' & Hk' & Hbel' & Hold' & Hlist & Hfresh).
    { intros j Hj. apply Hok. lia. }
    { eapply below_bodyf; [exact Hb3|]. by apply below_insert. }
    { lia. }
    { eapply chain_ext; [|exact Hc']. intros z Hz. unfold nextf.
      rewrite Hold; [done|]. apply Hsrc. by right. }
    { clear -Hviews' Hold Hsrc.
      assert (∀ z, z ∈ rest → ha3 !! z = ha !! z) as He.
      { intros z Hz. apply Hold, Hsrc. by right. }
      clear Hold Hsrc. induction Hviews'; constructor.
      - rewrite He; [done|left].
      - apply IHHviews'. intros z Hz. apply He. by right. }
    { intros z Hz. apply Hsrc. by right. }
    { simpl in Hfuel. lia. }
    { by rewrite lookup_insert_eq. }
    { split; [done|]. apply Forall2_app.
      - destruct Hdone as [_ Hfd]. eapply ip_views_ext; [|done].
        intros z Hz. rewrite Hb3. unfold bodyf, ha2.
        rewrite lookup_insert_ne; [done|]. intros ->. by eapply Hdn.
      - constructor; [|constructor]. rewrite ip_view_bodyf, Hb3.
        unfold bodyf, ha2. rewrite lookup_insert_eq. simpl. by rewrite <- Hv. }
    { intros z Hz. apply elem_of_app in Hz as [Hz|Hz]; [by apply Hnew|].
      apply list_elem_of_singleton in Hz. lia. }
    exists ha', (n :: new), q, n', k'. split; [|split_and!].
    + cbn [copy_ip_loop].
      erewrite bind_Ok by (apply malloc_ip; apply Hok; lia).
      cbv beta iota.
      erewrite bind_Ok by (apply deref_ip; rewrite lookup_insert_ne; [done|lia]).
      erewrite bind_Ok by (apply assign_ip; by rewrite lookup_insert_eq).
      rewrite Halt.
      erewrite bind_Ok by (by apply deref_iface).
      erewrite bind_Ok by exact Hrun.
      erewrite bind_Ok by (apply assign_iface; by eexists).
      erewrite bind_Ok by (apply deref_ip; rewrite Hold; done).
      rewrite (alter_insert_same _ _ di) by done.
      fold q1 di1. rewrite Hloop. do 3 f_equal.
      apply insert_insert_eq.
    + lia.
    + lia.
    + done.
    + intros z Hz. rewrite Hold' by done. by apply Hold.
    + by rewrite <- !app_assoc in Hlist.
    + intros z Hz. apply elem_of_cons in Hz as [->|Hz]; [done|].
      apply Hfresh in Hz. lia.
Qed.

Lemma ip_list_live ha p ils al z : ip_list ha p ils al → z ∈ ils → is_Some (ha !! z).
Proof. intros [(_ & Hc & _) _] Hz. by eapply chain_live. Qed.

Lemma iface_at_live hi ha x ils v :
  iface_at hi ha x ils v → is_Some (hi !! x) ∧ ∀ z, z ∈ ils → is_Some (ha !! z).
Proof.
  intros (i & Hi & _ & _ & _ & Hl). split; [by eexists|].
  intros z Hz. by eapply ip_list_live.
Qed.

Lemma copy_ipx_interface_ok w hi ha bf n k x ils v :
  (∀ j, k ≤ j → alloc_ok w j = true) →
  below n hi → below n ha →
  iface_at hi ha x ils v →
  ∃ ha' ils' q n' k',
    copy_ipx_interface (Some x) (W w hi ha bf n k)
    = Ok (Some n)
        (W w (<[n := mk_iface (hardware_address v) (network_number v)
                        (node_number v) q None None]> hi) ha' bf n' k')
    ∧ n < n' ∧ k < k' ∧ below n' ha'
    ∧ (∀ y, y < n → ha' !! y = ha !! y)
    ∧ ip_list ha' q ils' (addresses v)
    ∧ (∀ y, y ∈ ils' → n < y).
Proof.
  intros Hok Hbi Hba (i & Hi & Hhw & Hnet & Hnode & Hl).
  assert (x < n) as Hxn by (apply Hbi; by eexists).
  set (d0 := mk_iface (hwaddr i) (ipx_net i) (ipx_node i) None None None).
  pose proof Hl as [(Hnd & Hc & _) Hviews].
  destruct (copy_ip_loop_ok ils (addresses v) (size ha) w (<[n := d0]> hi) ha bf
              (S n) (S k) n n d0 [] [] (iface_ipaddr i))
    as (ha' & new & q & n' & k' & Hloop & Hn' & Hk' & Hbel' & Hold & Hlist & Hfresh).
  - intros j Hj. apply Hok. lia.
  - eapply below_mono; [|done]. lia.
  - lia.
  - done.
  - done.
  - intros y Hy. apply Hba. by eapply chain_live.
  - by eapply chain_NoDup_length.
  - by rewrite lookup_insert_eq.
  - apply ip_list_nil.
  - intros y Hy. by apply elem_of_nil in Hy.
  - exists ha', new, q, n', k'. split; [|split_and!; try done; try lia].
    + unfold copy_ipx_interface.
      erewrite bind_Ok by (apply malloc_iface; apply Hok; lia).
      cbv beta iota.
      erewrite bind_Ok by (apply deref_iface; rewrite lookup_insert_ne; [done|lia]).
      erewrite bind_Ok by (apply assign_iface; by rewrite lookup_insert_eq).
      erewrite bind_Ok by (apply assign_iface; by rewrite lookup_alter_eq, lookup_insert_eq).
      erewrite bind_Ok by
        (apply assign_iface; by rewrite !lookup_alter_eq, lookup_insert_eq).
      erewrite bind_Ok by
        (apply assign_iface; by rewrite !lookup_alter_eq, lookup_insert_eq).
      assert (alter (set_iface_next None) n
                (alter (set_iface_prev None) n
                   (alter (set_iface_ipaddr None) n
                      (alter (λ _, i) n (<[n := junk_iface]> hi))))
              = <[n := d0]> hi) as ->.
      { apply map_eq. intros z. destruct (decide (n = z)) as [->|].
        - by rewrite !lookup_alter_eq, !lookup_insert_eq.
        - by rewrite !lookup_alter_ne, !lookup_insert_ne. }
      erewrite bind_Ok by (apply deref_iface; rewrite lookup_insert_ne; [done|lia]).
      rewrite bind_get. cbn [compose mem set_mem ips].
      rewrite Hloop. do 3 f_equal. rewrite insert_insert_eq. f_equal.
      unfold d0, set_iface_ipaddr. simpl. congruence.
Qed.

Lemma sh_above_nil b : sh_above b [].
Proof. split; intros y Hy; by apply elem_of_nil in Hy. Qed.

Lemma sh_below_nil b : sh_below b [].
Proof. split; intros y Hy; by apply elem_of_nil in Hy. Qed.

Lemma sh_above_mono b b' sh : b ≤ b' → sh_above b' sh → sh_above b sh.
Proof.
  intros Hb [H1 H2]. split; intros y Hy; [apply H1 in Hy|apply H2 in Hy]; lia.
Qed.

Lemma sh_above_app b sh1 sh2 : sh_above b sh1 → sh_above b sh2 → sh_above b (sh1 ++ sh2).
Proof.
  intros [H1 H2] [H3 H4]. split; intros y.
  - rewrite fmap_app, elem_of_app. intros [?|?]; auto.
  - rewrite fmap_app, concat_app, elem_of_app. intros [?|?]; auto.
Qed.

Lemma sh_above_one b x ils :
  b ≤ x → (∀ z, z ∈ ils → b ≤ z) → sh_above b [(x, ils)].
Proof.
  intros Hx Hils. split; intros y; simpl.
  - intros Hy. apply list_elem_of_singleton in Hy. by subst.
  - rewrite app_nil_r. apply Hils.
Qed.

Lemma iface_list_live hi ha p sh L :
  iface_list hi ha p sh L →
  (∀ y, y ∈ sh.*1 → is_Some (hi !! y)) ∧ (∀ z, z ∈ concat sh.*2 → is_Some (ha !! z)).
Proof.
  intros (_ & _ & Hf). induction Hf as [|[x ils] v sh L Hx Hf [IH1 IH2]].
  - split; intros y Hy; by apply elem_of_nil in Hy.
  - destruct (iface_at_live _ _ _ _ _ Hx) as [Hl1 Hl2]. simpl in *. split.
    + intros y Hy. apply elem_of_cons in Hy as [->|Hy]; auto.
    + intros z Hz. apply elem_of_app in Hz as [Hz|Hz]; auto.
Qed.

Lemma iface_list_below hi ha p sh L n :
  below n hi → below n ha → iface_list hi ha p sh L → sh_below n sh.
Proof.
  intros Hbi Hba Hl. destruct (iface_list_live _ _ _ _ _ Hl) as [H1 H2].
  split; intros y Hy; [apply Hbi|apply Hba]; auto.
Qed.

Lemma copy_list_loop_ok rest : ∀ L_rest fuel w hi ha bf n k b donesh L_done s dest,
  (∀ j, k ≤ j → alloc_ok w j = true) →
  below n hi → below n ha → b ≤ n →
  chain hi s rest.*1 →
  Forall2 (λ c v, iface_at hi ha c.1 c.2 v) rest L_rest →
  sh_below b rest →
  length rest ≤ fuel →
  iface_list hi ha dest donesh L_done →
  sh_above b donesh →
  ∃ hi' ha' newsh q n' k',
    copy_list_loop fuel dest s (W w hi ha bf n k) = Ok q (W w hi' ha' bf n' k')
    ∧ n ≤ n' ∧ k ≤ k' ∧ below n' hi' ∧ below n' ha'
    ∧ (∀ y, y < b → hi' !! y = hi !! y)
    ∧ (∀ y, y < b → ha' !! y = ha !! y)
    ∧ iface_list hi' ha' q (donesh ++ newsh) (L_done ++ L_rest)
    ∧ sh_above n newsh.
Proof.
  induction rest as [|[x ils] rest IH];
    intros L_rest fuel w hi ha bf n k b donesh L_done s dest
           Hok Hbi Hba Hbn Hc Hats Hsrc Hfuel Hdone Hab.
  - simpl in Hc. subst s. inversion Hats; subst.
    exists hi, ha, [], dest, n, k. rewrite !app_nil_r.
    split; [by destruct fuel|]. split_and!; try done. apply sh_above_nil.
  - destruct fuel as [|fuel]; [simpl in Hfuel; lia|].
    pose proof Hc as Hc0. simpl in Hc. destruct Hc as [-> _].
    inversion Hats as [|? v ? L_rest' Hx Hats']; subst. simpl in Hx.
    pose proof Hx as (i & Hi & _).
    destruct (chain_next_node hi x rest.*1 i Hc0 Hi) as [Hnext Hc'].
    destruct Hsrc as [Hsrc1 Hsrc2].
    assert (x < b) as Hxb by (apply Hsrc1; left).
    destruct (copy_ipx_interface_ok w hi ha bf n k x ils v Hok Hbi Hba Hx)
      as (ha1 & ils' & q0 & n1 & k1 & Hcopy & Hn1 & Hk1 & Hba1 & Hold1 & Hl1 & Hfresh1).
    set (d := mk_iface (hardware_address v) (network_number v) (node_number v) q0 None None) in *.
    set (hi1 := <[n := d]> hi) in *.
    destruct (iface_list_live _ _ _ _ _ Hdone) as [Hlive1 Hlive2].
    assert (∀ y, y ∈ donesh.*1 → y ≠ n) as Hdn.
    { intros y Hy Hyn. apply Hlive1, Hbi in Hy. lia. }
    destruct Hdone as (Hdd & Hndd & Hfd).
    destruct (DL_APPEND_iface w hi1 ha1 bf n1 k1 dest n donesh.*1)
      as (hi2 & Hrun & Hd2 & Hb2 & Hfr2).
    { eapply dll_ext; [| |exact Hdd].
      - intros z Hz. unfold nextf, hi1. rewrite lookup_insert_ne; [done|].
        intros ->. by eapply Hdn.
      - intros z Hz. unfold prevf, hi1. rewrite lookup_insert_ne; [done|].
        intros ->. destruct Hdd as (_ & Hcd & _). apply chain_head in Hcd.
        rewrite Hz in Hcd. destruct donesh; [done|]. injection Hcd as Heq.
        eapply Hdn; [left|]. done. }
    { unfold hi1. by rewrite lookup_insert_eq. }
    { intros Hin. by eapply Hdn. }
    destruct Hab as [Hab1 Hab2].
    assert (∀ z, z < b → hi2 !! z = hi !! z) as Hold.
    { intros z Hz. rewrite Hfr2.
      - unfold hi1. rewrite lookup_insert_ne; [done|lia].
      - lia.
      - intros Hin. apply Hab1 in Hin. lia. }
    assert (∀ z, bodyf hi2 z = bodyf hi1 z) as Hb2' by done.
    destruct (IH L_rest' fuel w hi2 ha1 bf n1 k1 b (donesh ++ [(n, ils')])
                (L_done ++ [v]) (next i) (hd_error (donesh.*1 ++ [n])))
      as (hi' & ha' & newsh & q & n' & k' & Hloop & Hn' & Hk' & Hbi' & Hba' &
          Holdi & Holda & Hlist & Habove).
    { intros j Hj. apply Hok. lia. }
    { eapply below_bodyf; [exact Hb2|]. unfold hi1.
      eapply below_mono; [|by apply below_insert]. lia. }
    { done. }
    { lia. }
    { eapply chain_ext; [|exact Hc']. intros z Hz. unfold nextf.
      rewrite Hold; [done|]. apply Hsrc1. by right. }
    { eapply iface_ats_ext; [| |exact Hats'].
      - intros z Hz. unfold bodyf. rewrite Hold; [done|]. apply Hsrc1. by right.
      - intros z Hz. apply Hold1. assert (z < b); [|lia].
        apply Hsrc2. simpl. apply elem_of_app. by right. }
    { split; intros z Hz; [apply Hsrc1|apply Hsrc2]; simpl.
      - by right.
      - apply elem_of_app. by right. }
    { simpl in Hfuel. lia. }
    { split; [by rewrite fmap_app|]. split.
      - rewrite fmap_app, concat_app. simpl. rewrite app_nil_r.
        apply NoDup_app. split; [done|]. split.
        + intros z Hz Hz'. apply Hlive2, Hba in Hz. apply Hfresh1 in Hz'. lia.
        + by destruct Hl1 as [(? & _) _].
      - apply Forall2_app.
        + eapply iface_ats_ext; [| |exact Hfd].
          * intros z Hz. rewrite Hb2. unfold bodyf, hi1.
            rewrite lookup_insert_ne; [done|]. intros ->. by eapply Hdn.
          * intros z Hz. apply Hold1. by apply Hba, Hlive2.
        + constructor; [|constructor]. simpl.
          eapply iface_at_ext; [apply Hb2|done|].
          exists d. unfold hi1. rewrite lookup_insert_eq. by split_and!. }
    { apply sh_above_app; [done|]. apply sh_above_one; [lia|].
      intros z Hz. apply Hfresh1 in Hz. lia. }
    exists hi', ha', ((n, ils') :: newsh), q, n', k'. split; [|split_and!].
    + cbn [copy_list_loop].
      erewrite bind_Ok by exact Hcopy. cbv beta iota.
      erewrite bind_Ok by exact Hrun.
      erewrite bind_Ok by (apply deref_iface; rewrite Hold; done).
      exact Hloop.
    + lia.
    + lia.
    + done.
    + done.
    + intros z Hz. rewrite Holdi by done. by apply Hold.
    + intros z Hz. rewrite Holda by done. apply Hold1. lia.
    + by rewrite <- !app_assoc in Hlist.
    + destruct Habove as [Ha1 Ha2]. split; intros z Hz; simpl in Hz.
      * apply elem_of_cons in Hz as [->|Hz]; [done|]. apply Ha1 in Hz. lia.
      * apply elem_of_app in Hz as [Hz|Hz].
        -- apply Hfresh1 in Hz. lia.
        -- apply Ha2 in Hz. lia.
Qed.

Lemma copy_ipx_interface_list_ok w hi ha bf n k src sh L :
  (∀ j, k ≤ j → alloc_ok w j = true) →
  below n hi → below n ha →
  iface_list hi ha src sh L →
  ∃ hi' ha' sh' q n' k',
    copy_ipx_interface_list src (W w hi ha bf n k) = Ok q (W w hi' ha' bf n' k')
    ∧ n ≤ n' ∧ k ≤ k' ∧ below n' hi' ∧ below n' ha'
    ∧ (∀ y, y < n → hi' !! y = hi !! y)
    ∧ (∀ y, y < n → ha' !! y = ha !! y)
    ∧ iface_list hi' ha' q sh' L
    ∧ sh_above n sh'.
Proof.
  intros Hok Hbi Hba Hl.
  pose proof Hl as ((Hnd & Hc & _) & _ & Hats).
  unfold copy_ipx_interface_list. rewrite bind_get. cbn [compose mem set_mem ifaces].
  destruct (copy_list_loop_ok sh L (size hi) w hi ha bf n k n [] [] src None)
    as (hi' & ha' & sh' & q & n' & k' & Hloop & ?); try done.
  - by eapply iface_list_below.
  - rewrite <- (length_fmap fst sh). by eapply chain_NoDup_length.
  - apply iface_list_nil.
  - apply sh_above_nil.
  - exists hi', ha', sh', q, n', k'. done.
Qed.

(** ** The interface list that a build denotes *)

Lemma bindings_of_cons e es :
  bindings_of (e :: es)
  = if decide (IpAddress e = 0%Z) then bindings_of es else binding_of e :: bindings_of es.
Proof.
  unfold bindings_of. rewrite filter_cons.
  destruct (decide (IpAddress e = 0%Z)) as [He|He].
  - by rewrite decide_False by (intros Hn; by apply Hn).
  - by rewrite decide_True.
Qed.

Lemma alloc_range_tail (ok : nat → bool) k m :
  (∀ j, k ≤ j < k + S m → ok j = true) → ∀ j, S k ≤ j < S k + m → ok j = true.
Proof. intros Hok j Hj. apply Hok. lia. Qed.

Lemma load_ip_loop_ok es : ∀ w hi ha bf n k b x i done al_done nics,
  (∀ j, k ≤ j < k + length (bindings_of es) → alloc_ok w j = true) →
  below n ha → b ≤ n →
  hi !! x = Some i →
  ip_list ha (iface_ipaddr i) done al_done →
  (∀ z, z ∈ done → b ≤ z) →
  ∃ ha' new q,
    load_ip_loop (Some x) nics es (W w hi ha bf n k)
    = Ok nics (W w (<[x := set_iface_ipaddr q i]> hi) ha' bf
                 (n + length (bindings_of es)) (k + length (bindings_of es)))
    ∧ below (n + length (bindings_of es)) ha'
    ∧ (∀ y, y < b → ha' !! y = ha !! y)
    ∧ ip_list ha' q (done ++ new) (al_done ++ bindings_of es)
    ∧ (∀ z, z ∈ new → n ≤ z)
    ∧ (∀ z, n ≤ z → is_Some (ha' !! z) → z ∈ new).
Proof.
  induction es as [|e es IH];
    intros w hi ha bf n k b x i done al_done nics Hok Hbel Hbn Hi Hdone Hab.
  - exists ha, [], (iface_ipaddr i).
    rewrite set_iface_ipaddr_id, insert_id by done.
    change (bindings_of []) with (@nil InterfaceAddress). simpl.
    rewrite !Nat.add_0_r, !app_nil_r. split_and!; try done.
    + intros z Hz. by apply elem_of_nil in Hz.
    + intros z Hz Hlive. apply Hbel in Hlive. lia.
  - cbn [load_ip_loop]. rewrite bindings_of_cons in *.
    destruct (decide (IpAddress e = 0%Z)) as [He|He]; [by apply IH|].
    simpl in Hok. simpl length.
    assert (ha !! n = None) as Hn by (by apply below_fresh).
    set (v := mk_ip (IpAddress e) (IpMask e)
                (Z.lor (IpAddress e) (not32 (IpMask e))) None None).
    set (ha2 := <[n := v]> ha).
    assert (alter (set_bcast (Z.lor (IpAddress e) (not32 (IpMask e)))) n
              (alter (set_netmask (IpMask e)) n
                 (alter (set_ipaddr (IpAddress e)) n (<[n := junk_ip]> ha))) = ha2) as Halt.
    { apply map_eq. intros z. unfold ha2. destruct (decide (n = z)) as [->|].
      - by rewrite !lookup_alter_eq, !lookup_insert_eq.
      - by rewrite !lookup_alter_ne, !lookup_insert_ne. }
    assert (∀ z, z ∈ done → z ≠ n) as Hdn.
    { intros z Hz Hzn. pose proof (ip_list_live _ _ _ _ _ Hdone Hz) as Hlive.
      apply Hbel in Hlive. lia. }
    destruct (DL_APPEND_ip w hi ha2 bf (S n) (S k) (iface_ipaddr i) n done)
      as (ha3 & Hrun & Hd3 & Hb3 & Hfr3).
    { destruct Hdone as [Hdd _]. eapply dll_ext; [| |exact Hdd].
      - intros z Hz. unfold nextf, ha2. rewrite lookup_insert_ne; [done|].
        intros ->. by eapply Hdn.
      - intros z Hz. unfold prevf, ha2. rewrite lookup_insert_ne; [done|].
        intros ->. destruct Hdd as (_ & Hcd & _). apply chain_head in Hcd.
        rewrite Hz in Hcd. destruct done; [done|]. injection Hcd as Heq.
        eapply Hdn; [left|done]. }
    { unfold ha2. by rewrite lookup_insert_eq. }
    { intros Hin. by eapply Hdn. }
    set (q1 := hd_error (done ++ [n])) in *.
    set (i1 := set_iface_ipaddr q1 i).
    destruct (IH w (<[x := i1]> hi) ha3 bf (S n) (S k) b x i1
                (done ++ [n]) (al_done ++ [binding_of e]) nics)
      as (ha' & new & q & Hloop & Hbel' & Hold' & Hlist & Hfresh & Hexact).
    { by apply alloc_range_tail. }
    { eapply below_bodyf; [exact Hb3|]. by apply below_insert. }
    { lia. }
    { by rewrite lookup_insert_eq. }
    { split; [done|]. apply Forall2_app.
      - destruct Hdone as [_ Hfd]. eapply ip_views_ext; [|done].
        intros z Hz. rewrite Hb3. unfold bodyf, ha2.
        rewrite lookup_insert_ne; [done|]. intros ->. by eapply Hdn.
      - constructor; [|constructor]. rewrite ip_view_bodyf, Hb3.
        unfold bodyf, ha2. by rewrite lookup_insert_eq. }
    { intros z Hz. apply elem_of_app in Hz as [Hz|Hz]; [by apply Hab|].
      apply list_elem_of_singleton in Hz. lia. }
    exists ha', (n :: new), q.
    replace (n + S (length (bindings_of es))) with (S n + length (bindings_of es)) by lia.
    replace (k + S (length (bindings_of es))) with (S k + length (bindings_of es)) by lia.
    split; [|split_and!].
    + erewrite bind_Ok by (apply malloc_ip; apply Hok; lia).
      cbv beta iota.
      erewrite bind_Ok by (apply assign_ip; by rewrite lookup_insert_eq).
      erewrite bind_Ok by (apply assign_ip; by rewrite lookup_alter_eq, lookup_insert_eq).
      erewrite bind_Ok by (apply assign_ip; by rewrite !lookup_alter_eq, lookup_insert_eq).
      rewrite Halt.
      erewrite bind_Ok by (by apply deref_iface).
      erewrite bind_Ok by exact Hrun.
      erewrite bind_Ok by (apply assign_iface; by eexists).
      rewrite (alter_insert_same _ _ i) by done.
      fold i1. rewrite Hloop. do 3 f_equal.
      apply insert_insert_eq.
    + done.
    + intros z Hz. rewrite Hold' by done. rewrite Hfr3.
      * unfold ha2. rewrite lookup_insert_ne; [done|lia].
      * lia.
      * intros Hin. apply Hab in Hin. lia.
    + by rewrite <- !app_assoc in Hlist.
    + intros z Hz. apply elem_of_cons in Hz as [->|Hz]; [done|].
      apply Hfresh in Hz. lia.
    + intros z Hz Hlive. destruct (decide (z = n)) as [->|Hzn]; [left|].
      right. apply Hexact; [lia|done].
Qed.

Lemma loop_post_weaken w lg hi ha hi1 ha1 bf n n1 b o r :
  n ≤ n1 →
  (∀ y, y < b → hi1 !! y = hi !! y) →
  (∀ y, y < b → ha1 !! y = ha !! y) →
  loop_post (set_log lg w) hi1 ha1 bf n1 b o r →
  loop_post w hi ha bf n b o r.
Proof.
  intros Hn Hi Ha. destruct o as [L' k'|k'| |]; simpl; [| |done|done].
  - intros (lg' & hi' & ha' & sh' & q & n' & -> & ? & ? & ? & Hfi & Hfa & ? & ?).
    exists lg', hi', ha', sh', q, n'. split_and!; try done; try lia.
    + intros y Hy. rewrite Hfi by done. by apply Hi.
    + intros y Hy. rewrite Hfa by done. by apply Ha.
  - intros (lg' & hi' & ha' & n' & -> & ? & ? & ? & Hfi & Hfa & ? & ?).
    exists lg', hi', ha', n'. split_and!; try done; try lia.
    + intros y Hy. rewrite Hfi by done. by apply Hi.
    + intros y Hy. rewrite Hfa by done. by apply Ha.
Qed.

Lemma forallb_seq_range (ok : nat → bool) k m :
  forallb ok (seq k m) = true → ∀ j, k ≤ j < k + m → ok j = true.
Proof.
  intros Hf j Hj. rewrite forallb_forall in Hf. apply Hf. apply in_seq. lia.
Qed.

Lemma ip_list_head_view ha q new first al :
  ip_list ha q new (first :: al) →
  ∃ f a, q = Some f ∧ ha !! f = Some a ∧ ip_view a = first.
Proof.
  intros [(_ & Hc & _) Hf]. inversion Hf as [|f ? new' ? Hv _]; subst.
  simpl in Hc. destruct Hc as [-> _].
  destruct (ha !! f) as [a|] eqn:Ha; [|done]. simpl in Hv. exists f, a.
  split; [done|]. split; [done|]. congruence.
Qed.

Lemma ip_list_empty_inv ha q new : ip_list ha q new [] → q = None ∧ new = [].
Proof.
  intros [Hd Hf]. inversion Hf; subst. split; [|done]. by apply dll_nil_inv in Hd.
Qed.

Lemma load_ipx_loop_step primary ad Next w hi ha bf n k b nics sh L :
  enabled (get_iface_config w (addr48_in (Address ad))) = true →
  (∀ j, k ≤ j < S k + length (adapter_bindings ad) → alloc_ok w j = true) →
  below n hi → below n ha → b ≤ n →
  iface_list hi ha nics sh L → sh_above b sh →
  (∀ y, b ≤ y → is_Some (hi !! y) → y ∈ sh.*1) →
  (∀ z, b ≤ z → is_Some (ha !! z) → z ∈ concat sh.*2) →
  ∃ lg hi' ha' nics' sh',
    load_ipx_loop primary nics (ad :: Next) (W w hi ha bf n k)
    = load_ipx_loop primary nics' Next
        (W (set_log lg w) hi' ha' bf (S n + length (adapter_bindings ad))
           (S k + length (adapter_bindings ad)))
    ∧ below (S n + length (adapter_bindings ad)) hi'
    ∧ below (S n + length (adapter_bindings ad)) ha'
    ∧ (∀ y, y < b → hi' !! y = hi !! y)
    ∧ (∀ y, y < b → ha' !! y = ha !! y)
    ∧ iface_list hi' ha' nics' sh' (place primary L (interface_of (get_iface_config w) ad))
    ∧ sh_above b sh'
    ∧ (∀ y, b ≤ y → is_Some (hi' !! y) → y ∈ sh'.*1)
    ∧ (∀ z, b ≤ z → is_Some (ha' !! z) → z ∈ concat sh'.*2).
Proof.
  intros Hen Hok Hbi Hba Hbn Hl Hab Hexi Hexa.
  set (hw := addr48_in (Address ad)) in *.
  set (c := get_iface_config w hw) in *.
  set (al := adapter_bindings ad) in *.
  set (v := interface_of (get_iface_config w) ad).
  assert (hi !! n = None) as Hn by (by apply below_fresh).
  (* the bindings *)
  destruct (load_ip_loop_ok (IpAddressList ad :: IpAddressNext ad) w
              (<[n := junk_iface]> hi) ha bf (S n) (S k) (S n) n junk_iface [] [] nics)
    as (ha' & new & q & Hloop & Hba' & Holda & Hlist & Hfresh & Hexact).
  { intros j Hj. apply Hok. fold (adapter_bindings ad) in Hj. fold al in Hj. lia. }
  { eapply below_mono; [|done]. lia. }
  { done. }
  { by rewrite lookup_insert_eq. }
  { apply ip_list_nil. }
  { intros z Hz. by apply elem_of_nil in Hz. }
  fold (adapter_bindings ad) in Hloop, Hba', Hlist. fold al in Hloop, Hba', Hlist.
  simpl app in Hlist.
  (* the interface node once its fields are set *)
  set (d0 := mk_iface hw (netnum c) (nodenum c) q None None).
  set (d := mk_iface hw (netnum c) (node_number v) q None None).
  assert (∃ lg,
    (if decide (ipx_node d0 = addr48_in hamachi_bug ∧ iface_ipaddr d0 ≠ None)
     then
       log_printf LOG_WARNING
         "Invalid Hamachi interface detected, correcting node number" ;;;
       let! first := deref (N:=ipx_interface_ip_t) (iface_ipaddr d0) in
       let hamachi_bug := addr32_out hamachi_bug 2 (ipaddr first) in
       assign (Some n) (set_ipx_node (addr48_in hamachi_bug))
     else ret tt)
      (W w (<[n := d0]> hi) ha' bf (S n + length al) (S k + length al))
    = Ok tt (W (set_log lg w) (<[n := d]> hi) ha' bf (S n + length al) (S k + length al)))
    as [lg Hfix].
  { unfold d, v, interface_of. fold hw c al. cbn [node_number].
    destruct al as [|first al'] eqn:Hal.
    - apply ip_list_empty_inv in Hlist as [-> ->].
      rewrite decide_False by (simpl; tauto). by exists (log w).
    - destruct (ip_list_head_view _ _ _ _ _ Hlist) as (f & a & -> & Hf & Hview).
      destruct (decide (nodenum c = addr48_in hamachi_bug)) as [Hnode|Hnode].
      + rewrite decide_True by (simpl; split; [done|congruence]).
        exists (log w ++ [(LOG_WARNING,
          "Invalid Hamachi interface detected, correcting node number"%string)]).
        rewrite bind_log. cbn [iface_ipaddr d0].
        change (add_log ?e (W w ?a ?b ?c ?d ?e')) with (W (add_log e w) a b c d e').
        erewrite bind_Ok by (by apply deref_ip).
        rewrite assign_iface by (by rewrite lookup_insert_eq).
        rewrite (alter_insert_same _ _ d0) by apply lookup_insert_eq.
        rewrite insert_insert_eq. subst first. reflexivity.
      + rewrite decide_False by (simpl; tauto). by exists (log w). }
  (* linking the node into the list *)
  destruct (iface_list_live _ _ _ _ _ Hl) as [Hlive1 Hlive2].
  assert (∀ y, y ∈ sh.*1 → y ≠ n) as Hsn.
  { intros y Hy Hyn. apply Hlive1, Hbi in Hy. lia. }
  pose proof Hl as (Hdd & Hndd & Hfd).
  assert (dll (<[n := d]> hi) nics sh.*1) as Hdd'.
  { eapply dll_ext; [| |exact Hdd].
    - intros z Hz. unfold nextf. rewrite lookup_insert_ne; [done|].
      intros ->. by eapply Hsn.
    - intros z Hz. unfold prevf. rewrite lookup_insert_ne; [done|].
      intros ->. destruct Hdd as (_ & Hcd & _). apply chain_head in Hcd.
      rewrite Hz in Hcd. destruct sh; [done|]. injection Hcd as Heq.
      eapply Hsn; [left|]. done. }
  assert (n ∉ sh.*1) as Hnsh by (intros Hin; by eapply Hsn).
  assert (is_Some (<[n := d]> hi !! n)) as Hdn by (by rewrite lookup_insert_eq).
  assert (∃ hi' nics' sh',
    (if decide (hwaddr d = primary)
     then DL_PREPEND (N:=ipx_interface_t) nics n
     else DL_APPEND (N:=ipx_interface_t) nics n)
      (W (set_log lg w) (<[n := d]> hi) ha' bf (S n + length al) (S k + length al))
    = Ok nics' (W (set_log lg w) hi' ha' bf (S n + length al) (S k + length al))
    ∧ dll hi' nics' sh'.*1
    ∧ (∀ x, bodyf hi' x = bodyf (<[n := d]> hi) x)
    ∧ (∀ x, x ≠ n → x ∉ sh.*1 → hi' !! x = <[n := d]> hi !! x)
    ∧ sh' ≡ₚ (n, new) :: sh
    ∧ Forall2 (λ c v, iface_at (<[n := d]> hi) ha' c.1 c.2 v) sh' (place primary L v))
    as (hi' & nics' & sh' & Hins & Hd' & Hb' & Hfr' & Hperm & Hats).
  { assert (iface_at (<[n := d]> hi) ha' n new v) as Hnew.
    { exists d. rewrite lookup_insert_eq. by split_and!. }
    assert (Forall2 (λ c v, iface_at (<[n := d]> hi) ha' c.1 c.2 v) sh L) as Hold.
    { eapply iface_ats_ext; [| |exact Hfd].
      - intros y Hy. unfold bodyf. rewrite lookup_insert_ne; [done|].
        intros ->. by eapply Hsn.
      - intros z Hz. apply Holda. apply Hlive2, Hba in Hz. lia. }
    unfold place. change (hardware_address v) with hw. change (hwaddr d) with hw.
    destruct (decide (hw = primary)).
    - destruct (DL_PREPEND_iface (set_log lg w) (<[n := d]> hi) ha' bf
                  (S n + length al) (S k + length al) nics n sh.*1)
        as (hi' & Hrun & ? & ? & ?); try done.
      exists hi', (Some n), ((n, new) :: sh). split_and!; try done.
      by constructor.
    - destruct (DL_APPEND_iface (set_log lg w) (<[n := d]> hi) ha' bf
                  (S n + length al) (S k + length al) nics n sh.*1)
        as (hi' & Hrun & ? & ? & ?); try done.
      exists hi', (hd_error (sh.*1 ++ [n])), (sh ++ [(n, new)]). split_and!; try done.
      + by rewrite fmap_app.
      + symmetry. apply Permutation_cons_append.
      + apply Forall2_app; [done|]. by constructor. }
  exists lg, hi', ha', nics', sh'. split; [|split_and!].
  - cbn [load_ipx_loop]. rewrite bind_get.
    change (get_iface_config (W w hi ha bf n k) (addr48_in (Address ad))) with c.
    rewrite Hen. cbn [negb].
    erewrite bind_Ok by (apply malloc_iface; apply Hok; lia).
    cbv beta iota.
    erewrite bind_Ok by (apply assign_iface; by rewrite lookup_insert_eq).
    rewrite (alter_insert_same _ _ junk_iface) by apply lookup_insert_eq.
    rewrite insert_insert_eq.
    erewrite bind_Ok by exact Hloop.
    rewrite insert_insert_eq.
    erewrite bind_Ok by (apply assign_iface; by rewrite lookup_insert_eq).
    erewrite bind_Ok by (apply assign_iface; by rewrite lookup_alter_eq, lookup_insert_eq).
    erewrite bind_Ok by (apply assign_iface; by rewrite !lookup_alter_eq, lookup_insert_eq).
    match goal with
    | |- context [W w ?h ha' _ _ _] => assert (h = <[n := d0]> hi) as ->
    end.
    { apply map_eq. intros z. destruct (decide (n = z)) as [->|].
      - by rewrite !lookup_alter_eq, !lookup_insert_eq.
      - by rewrite !lookup_alter_ne, !lookup_insert_ne. }
    erewrite bind_Ok by (apply deref_iface; apply lookup_insert_eq).
    erewrite bind_Ok by exact Hfix.
    erewrite bind_Ok by (apply deref_iface; apply lookup_insert_eq).
    erewrite bind_Ok by exact Hins.
    reflexivity.
  - eapply below_bodyf; [exact Hb'|]. eapply below_mono; [|by apply below_insert]. lia.
  - done.
  - intros y Hy. rewrite Hfr'.
    + rewrite lookup_insert_ne; [done|lia].
    + lia.
    + intros Hin. destruct Hab as [Hab1 _]. apply Hab1 in Hin. lia.
  - intros y Hy. apply Holda. lia.
  - split; [done|]. split.
    + assert (concat sh'.*2 ≡ₚ new ++ concat sh.*2) as ->.
      { rewrite Hperm. done. }
      apply NoDup_app. split; [by destruct Hlist as [(? & _) _]|]. split; [|done].
      intros z Hz Hz'. apply Hfresh in Hz. apply Hlive2, Hba in Hz'. lia.
    + eapply iface_ats_ext; [| |exact Hats]; [|done].
      intros y Hy. apply Hb'.
  - destruct Hab as [Hab1 Hab2]. split.
    + intros y Hy. rewrite Hperm in Hy. simpl in Hy.
      apply elem_of_cons in Hy as [->|Hy]; [lia|by apply Hab1].
    + intros z Hz. rewrite Hperm in Hz. simpl in Hz.
      apply elem_of_app in Hz as [Hz|Hz]; [|by apply Hab2].
      apply Hfresh in Hz. lia.
  - intros y Hy Hlive. rewrite Hperm. simpl.
    apply bodyf_is_Some in Hlive. rewrite Hb' in Hlive. apply bodyf_is_Some in Hlive.
    destruct (decide (y = n)) as [->|Hyn]; [left|]. right.
    rewrite lookup_insert_ne in Hlive by done. by apply Hexi.
  - intros z Hz Hlive. rewrite Hperm. simpl. apply elem_of_app.
    destruct (decide (S n ≤ z)) as [Hle|Hle].
    + left. by apply Hexact.
    + right. apply Hexa; [done|]. rewrite <- Holda; [done|lia].
Qed.

Lemma malloc_iface_fail w hi ha bf n k :
  alloc_ok w k = false →
  malloc junk_iface (W w hi ha bf n k) = Ok None (W w hi ha bf n (S k)).
Proof. intros Hk. unfold malloc. simpl. by rewrite Hk. Qed.

Lemma load_ipx_loop_ok primary m : ∀ l, length l ≤ m → ∀ w hi ha bf n k b nics sh L,
  below n hi → below n ha → b ≤ n →
  iface_list hi ha nics sh L → sh_above b sh →
  (∀ y, b ≤ y → is_Some (hi !! y) → y ∈ sh.*1) →
  (∀ z, b ≤ z → is_Some (ha !! z) → z ∈ concat sh.*2) →
  loop_post w hi ha bf n b
    (build (alloc_ok w) (get_iface_config w) primary k L l)
    (load_ipx_loop primary nics l (W w hi ha bf n k)).
Proof.
  assert (∀ w hi ha bf n k b nics sh L,
    below n hi → below n ha → iface_list hi ha nics sh L → sh_above b sh →
    loop_post w hi ha bf n b (Built L k) (Ok (inr nics) (W w hi ha bf n k))) as Hnil.
  { intros w hi ha bf n k b nics sh L ? ? ? ?.
    exists (log w), hi, ha, sh, nics, n. by split_and!. }
  induction m as [|m IH]; intros l Hlen w hi ha bf n k b nics sh L
                                 Hbi Hba Hbn Hl Hab Hexi Hexa.
  { destruct l; [|simpl in Hlen; lia]. by eapply Hnil. }
  destruct l as [|ad Next]; [by eapply Hnil|].
  simpl in Hlen. cbn [build].
  destruct (enabled (get_iface_config w (addr48_in (Address ad)))) eqn:Hen.
  - destruct (alloc_ok w k) eqn:Hk.
    + destruct (forallb (alloc_ok w) (seq (S k) (length (adapter_bindings ad)))) eqn:Hks;
        [|done].
      destruct (load_ipx_loop_step primary ad Next w hi ha bf n k b nics sh L)
        as (lg & hi' & ha' & nics' & sh' & Hstep & Hbi' & Hba' & Hfi & Hfa & Hl' &
            Hab' & Hexi' & Hexa'); try done.
      { intros j Hj. destruct (decide (j = k)) as [->|]; [done|].
        eapply forallb_seq_range; [exact Hks|]. lia. }
      rewrite Hstep. eapply (loop_post_weaken w lg); [| | |].
      4: { exact (IH Next ltac:(lia) (set_log lg w) hi' ha' bf _ _ b nics' sh' _
                    Hbi' Hba' ltac:(lia) Hl' Hab' Hexi' Hexa'). }
      * lia.
      * done.
      * done.
    + (* the interface cannot be allocated *)
      destruct (free_ipx_interface_list_ok
                  (add_log (LOG_ERROR, "Couldn't allocate ipx_interface!"%string) w)
                  hi ha bf n (S k) nics sh L Hl)
        as (hi' & ha' & Hfree & Hgone & Hstay & Hgone' & Hstay').
      destruct (iface_list_live _ _ _ _ _ Hl) as [Hlive1 Hlive2].
      destruct Hab as [Hab1 Hab2].
      exists (log w ++ [(LOG_ERROR, "Couldn't allocate ipx_interface!"%string)]),
        hi', ha', n. split_and!.
      * cbn [load_ipx_loop]. rewrite bind_get.
        change (get_iface_config (W w hi ha bf n k)) with (get_iface_config w).
        rewrite Hen. cbn [negb].
        erewrite bind_Ok by (by apply malloc_iface_fail).
        cbv beta iota. rewrite bind_log.
        change (add_log ?e (W w ?a ?b ?c ?d ?e')) with (W (add_log e w) a b c d e').
        erewrite bind_Ok by exact Hfree. reflexivity.
      * done.
      * intros y Hy. apply Hbi. destruct (decide (y ∈ sh.*1)) as [Hin|Hin].
        -- by apply Hlive1.
        -- by rewrite <- Hstay.
      * intros y Hy. apply Hba. destruct (decide (y ∈ concat sh.*2)) as [Hin|Hin].
        -- by apply Hlive2.
        -- by rewrite <- Hstay'.
      * intros y Hy. apply Hstay. intros Hin. apply Hab1 in Hin. lia.
      * intros y Hy. apply Hstay'. intros Hin. apply Hab2 in Hin. lia.
      * intros y Hy. destruct (decide (y ∈ sh.*1)) as [Hin|Hin]; [by apply Hgone|].
        rewrite Hstay by done. destruct (hi !! y) eqn:E; [|done].
        exfalso. apply Hin, Hexi; [done|]. by rewrite E.
      * intros y Hy. destruct (decide (y ∈ concat sh.*2)) as [Hin|Hin]; [by apply Hgone'|].
        rewrite Hstay' by done. destruct (ha !! y) eqn:E; [|done].
        exfalso. apply Hin, Hexa; [done|]. by rewrite E.
  - (* a disabled adapter: the pointer is advanced twice *)
    destruct Next as [|ad' Next'].
    + simpl. rewrite bind_get.
      change (get_iface_config (W w hi ha bf n k)) with (get_iface_config w).
      by rewrite Hen.
    + assert (load_ipx_loop primary nics (ad :: ad' :: Next') (W w hi ha bf n k)
              = load_ipx_loop primary nics Next' (W w hi ha bf n k)) as ->.
      { cbn [load_ipx_loop]. rewrite bind_get.
        change (get_iface_config (W w hi ha bf n k)) with (get_iface_config w).
        by rewrite Hen. }
      eapply (IH Next'); try done. simpl in Hlen. lia.
Qed.

(** ** Fetching the adapters *)

Lemma realloc_again w hi ha bf n k x size :
  alloc_ok w k = true → x ∈ bf →
  realloc (Some x) size (W w hi ha bf n k) = Ok (Some x) (W w hi ha bf n (S k)).
Proof. intros Hk Hx. unfold realloc. simpl. rewrite Hk. by rewrite decide_True. Qed.

Lemma realloc_first w hi ha bf n k size :
  alloc_ok w k = true →
  realloc None size (W w hi ha bf n k) = Ok (Some n) (W w hi ha ({[n]} ∪ bf) (S n) (S k)).
Proof. intros Hk. unfold realloc. simpl. by rewrite Hk. Qed.

Lemma realloc_fail w hi ha bf n k p size :
  alloc_ok w k = false →
  realloc p size (W w hi ha bf n k) = Ok None (W w hi ha bf n (S k)).
Proof. intros Hk. unfold realloc. simpl. by rewrite Hk. Qed.

Lemma GetAdaptersInfo_next w hi ha bf n k r sc :
  os_script w = r :: sc →
  GetAdaptersInfo (W w hi ha bf n k) = Ok r (W (set_os_script sc w) hi ha bf n k).
Proof. intros Hs. unfold GetAdaptersInfo. simpl. by rewrite Hs. Qed.

Lemma GetAdaptersInfo_hang w hi ha bf n k :
  os_script w = [] → GetAdaptersInfo (W w hi ha bf n k) = Fault Hang.
Proof. intros Hs. unfold GetAdaptersInfo. simpl. by rewrite Hs. Qed.

Lemma bind_Fault {A B} (c : M A) (k : A → M B) w f :
  c w = Fault f → bind c k w = Fault f.
Proof. unfold bind. by intros ->. Qed.

Lemma load_sys_loop_ok sc : ∀ fuel w hi ha bf n k x size,
  os_script w = sc → length sc < fuel → x ∈ bf →
  sys_loop_post w hi ha bf n x (sys (alloc_ok w) k sc)
    (load_sys_loop fuel (Some x) size (W w hi ha bf n k)).
Proof.
  induction sc as [|r sc IH]; intros fuel w hi ha bf n k x size Hsc Hfuel Hx;
    (destruct fuel as [|fuel]; [simpl in Hfuel; lia|]); cbn [sys load_sys_loop].
  - destruct (alloc_ok w k) eqn:Hk.
    + erewrite bind_Ok by (by apply realloc_again). cbv beta iota.
      by erewrite bind_Fault by (by apply GetAdaptersInfo_hang).
    + erewrite bind_Ok by (by apply realloc_fail). cbv beta iota.
      rewrite bind_log.
      exists (log w ++ [(LOG_ERROR, "Couldn't allocate IP_ADAPTER_INFO structures!"%string)]),
        ERROR_BUFFER_OVERFLOW.
      split; [done|]. unfold ret. f_equal. destruct w; simpl in *. by subst.
  - destruct (alloc_ok w k) eqn:Hk.
    + erewrite bind_Ok by (by apply realloc_again). cbv beta iota.
      erewrite bind_Ok by (by apply GetAdaptersInfo_next).
      destruct r as [a rest| |needed|code]; cbv beta iota.
      * done.
      * rewrite bind_log.
        by exists (log w ++ [(LOG_WARNING, "No network interfaces detected!"%string)]),
          ERROR_NO_DATA.
      * apply (IH fuel (set_os_script sc w)); [done|simpl in Hfuel; lia|done].
      * rewrite bind_log.
        by exists (log w ++ [(LOG_ERROR, "Error fetching network interfaces: %s"%string)]),
          (ERROR_OTHER code).
    + erewrite bind_Ok by (by apply realloc_fail). cbv beta iota.
      rewrite bind_log.
      exists (log w ++ [(LOG_ERROR, "Couldn't allocate IP_ADAPTER_INFO structures!"%string)]),
        ERROR_BUFFER_OVERFLOW.
      split; [done|]. unfold ret. f_equal. destruct w; simpl in *. by subst.
Qed.

Lemma free_buf_ok w hi ha bf n k x :
  x ∈ bf →
  free_buf (Some x) (W w hi ha bf n k) = Ok tt (W w hi ha (bf ∖ {[x]}) n k).
Proof. intros Hx. unfold free_buf. simpl. by rewrite decide_True. Qed.

Lemma load_sys_interfaces_ok w hi ha bf n k :
  (∀ x, x ∈ bf → x < n) →
  sys_post w hi ha bf n (sys (alloc_ok w) k (os_script w))
    (load_sys_interfaces (W w hi ha bf n k)).
Proof.
  intros Hbf.
  assert (n ∉ bf) as Hn by (intros Hin; apply Hbf in Hin; lia).
  assert (({[n]} ∪ bf) ∖ {[n]} = bf) as Hminus by set_solver.
  unfold load_sys_interfaces. rewrite bind_get.
  change (os_script (W w hi ha bf n k)) with (os_script w).
  destruct (os_script w) as [|r sc] eqn:Hsc; cbn [sys length].
  - destruct (alloc_ok w k) eqn:Hk.
    + erewrite bind_Fault; [done|]. cbn [load_sys_loop].
      erewrite bind_Ok by (by apply realloc_first). cbv beta iota.
      by erewrite bind_Fault by (by apply GetAdaptersInfo_hang).
    + erewrite bind_Ok.
      2: { cbn [load_sys_loop]. erewrite bind_Ok by (by apply realloc_fail). cbv beta iota.
           rewrite bind_log. reflexivity. }
      cbv beta iota.
      exists (log w ++ [(LOG_ERROR, "Couldn't allocate IP_ADAPTER_INFO structures!"%string)]), n.
      split; [done|]. unfold free_buf, bind, ret. f_equal.
      destruct w; simpl in *. by subst.
  - destruct (alloc_ok w k) eqn:Hk.
    + destruct r as [a rest| |needed|code].
      * erewrite bind_Ok.
        2: { cbn [load_sys_loop]. erewrite bind_Ok by (by apply realloc_first). cbv beta iota.
             erewrite bind_Ok by (by apply GetAdaptersInfo_next). reflexivity. }
        done.
      * erewrite bind_Ok.
        2: { cbn [load_sys_loop]. erewrite bind_Ok by (by apply realloc_first). cbv beta iota.
             erewrite bind_Ok by (by apply GetAdaptersInfo_next).
             cbv beta iota. rewrite bind_log. reflexivity. }
        cbv beta iota.
        exists (log w ++ [(LOG_WARNING, "No network interfaces detected!"%string)]), (S n).
        split; [lia|].
        change (add_log ?e (W ?w0 ?a ?b ?c ?d ?e')) with (W (add_log e w0) a b c d e').
        erewrite bind_Ok by (apply free_buf_ok; set_solver).
        rewrite Hminus. reflexivity.
      * pose proof (load_sys_loop_ok sc (S (length sc)) (set_os_script sc w) hi ha
                      ({[n]} ∪ bf) (S n) (S k) n needed eq_refl) as Hloop.
        specialize (Hloop ltac:(lia) ltac:(set_solver)).
        change (alloc_ok (set_os_script sc w)) with (alloc_ok w) in Hloop.
        assert (load_sys_loop (S (S (length sc))) None (sizeof_IP_ADAPTER_INFO * 8)
                  (W w hi ha bf n k)
                = load_sys_loop (S (length sc)) (Some n) needed
                    (W (set_os_script sc w) hi ha ({[n]} ∪ bf) (S n) (S k))) as Hfirst.
        { cbn [load_sys_loop].
          erewrite bind_Ok by (by apply realloc_first). cbv beta iota.
          erewrite bind_Ok by (by apply GetAdaptersInfo_next). reflexivity. }
        destruct (sys (alloc_ok w) (S k) sc) as [l k' sc'|k' sc'|]; simpl in Hloop.
        -- erewrite bind_Ok by (rewrite Hfirst; exact Hloop). done.
        -- destruct Hloop as (lg & err & Herr & Hloop).
           erewrite bind_Ok by (rewrite Hfirst; exact Hloop).
           exists lg, (S n). split; [lia|].
           assert (∀ (A : Type) (a b : M A),
             match err with ERROR_SUCCESS => a | _ => b end = b) as Hmatch.
           { intros. by destruct err. }
           cbv beta iota. rewrite Hmatch.
           erewrite bind_Ok by (apply free_buf_ok; set_solver).
           rewrite Hminus. reflexivity.
        -- erewrite bind_Fault; [done|]. rewrite Hfirst. exact Hloop.
      * erewrite bind_Ok.
        2: { cbn [load_sys_loop]. erewrite bind_Ok by (by apply realloc_first). cbv beta iota.
             erewrite bind_Ok by (by apply GetAdaptersInfo_next).
             cbv beta iota. rewrite bind_log. reflexivity. }
        cbv beta iota.
        exists (log w ++ [(LOG_ERROR, "Error fetching network interfaces: %s"%string)]), (S n).
        split; [lia|].
        change (add_log ?e (W ?w0 ?a ?b ?c ?d ?e')) with (W (add_log e w0) a b c d e').
        erewrite bind_Ok by (apply free_buf_ok; set_solver).
        rewrite Hminus. reflexivity.
    + erewrite bind_Ok.
      2: { cbn [load_sys_loop]. erewrite bind_Ok by (by apply realloc_fail). cbv beta iota.
           rewrite bind_log. reflexivity. }
      cbv beta iota.
      exists (log w ++ [(LOG_ERROR, "Couldn't allocate IP_ADAPTER_INFO structures!"%string)]), n.
      split; [done|]. unfold free_buf, bind, ret. f_equal.
      destruct w; simpl in *. by subst.
Qed.

(** ** The build as a whole *)

Lemma load_ipx_interfaces_ok w hi ha bf n k :
  below n hi → below n ha → (∀ x, x ∈ bf → x < n) →
  load_post w hi ha bf n k (load_ipx_interfaces (W w hi ha bf n k)).
Proof.
  intros Hbi Hba Hbf. unfold load_post, load_ipx_interfaces.
  rewrite bind_modify.
  change (count_build (W w hi ha bf n k)) with (W (count_build w) hi ha bf n k).
  pose proof (load_sys_interfaces_ok (count_build w) hi ha bf n k Hbf) as Hsys.
  change (alloc_ok (count_build w)) with (alloc_ok w) in Hsys.
  change (os_script (count_build w)) with (os_script w) in Hsys.
  destruct (sys (alloc_ok w) k (os_script w)) as [l k1 sc'|k1 sc'|]; simpl in Hsys.
  - erewrite bind_Ok by exact Hsys. rewrite bind_get.
    set (w1 := set_os_script sc' (count_build w)).
    change (get_primary_iface (W w1 hi ha ({[n]} ∪ bf) (S n) k1))
      with (get_primary_iface w).
    pose proof (load_ipx_loop_ok (get_primary_iface w) (length l) l (le_n _)
                  w1 hi ha ({[n]} ∪ bf) (S n) k1 (S n) None [] []) as Hloop.
    change (alloc_ok w1) with (alloc_ok w) in Hloop.
    change (get_iface_config w1) with (get_iface_config w) in Hloop.
    specialize (Hloop ltac:(eapply below_mono; [|exact Hbi]; lia)
                      ltac:(eapply below_mono; [|exact Hba]; lia)
                      (le_n _) (iface_list_nil _ _) (sh_above_nil _)).
    assert (∀ y, S n ≤ y → is_Some (hi !! y) → y ∈ ([] : list (loc * list loc)).*1) as Hexi.
    { intros y Hy Hlive. apply Hbi in Hlive. lia. }
    assert (∀ z, S n ≤ z → is_Some (ha !! z) → z ∈ concat ([] : list (loc * list loc)).*2) as Hexa.
    { intros z Hz Hlive. apply Hba in Hlive. lia. }
    specialize (Hloop Hexi Hexa).
    destruct (build (alloc_ok w) (get_iface_config w) (get_primary_iface w) k1 [] l)
      as [L k'|k'| |]; simpl in Hloop.
    + destruct Hloop as (lg & hi' & ha' & sh' & q & n' & Hrun & ? & ? & ? & Hfi & Hfa & ? & ?).
      exists lg, hi', ha', sh', q, n'. split_and!; try done; try lia.
      * erewrite bind_Ok by exact Hrun. cbv beta iota. simpl fmap.
        erewrite bind_Ok by (apply free_buf_ok; set_solver).
        assert (({[n]} ∪ bf) ∖ {[n]} = bf) as ->; [|done].
        assert (n ∉ bf) by (intros Hin; apply Hbf in Hin; lia). set_solver.
      * intros y Hy. apply Hfi. lia.
      * intros y Hy. apply Hfa. lia.
    + destruct Hloop as (lg & hi' & ha' & n' & Hrun & ? & ? & ? & Hfi & Hfa & Hri & Hra).
      exists lg, hi', ha', n'. split_and!; try done; try lia.
      * by erewrite bind_Ok by exact Hrun.
      * intros y Hy. apply Hfi. lia.
      * intros y Hy. apply Hfa. lia.
    + by erewrite bind_Fault by exact Hloop.
    + done.
  - destruct Hsys as (lg & n' & Hn' & Hsys).
    exists lg, n'. split; [done|].
    erewrite bind_Ok by exact Hsys. rewrite bind_get. reflexivity.
  - by erewrite bind_Fault by exact Hsys.
Qed.

(** ** The cache *)

Lemma stale_dec w : Decision (stale w).
Proof. unfold stale. apply _. Qed.

Lemma cache_inv_snapshot w :
  cache_inv w → ∃ L, snapshot w = Some L.
Proof.
  intros (_ & sh & L & Hl). exists L. unfold snapshot. by eapply iface_list_read.
Qed.

Lemma renew_fresh w :
  ¬ stale w → renew_interface_cache w = Ok tt (tick w).
Proof.
  intros Hfresh. unfold renew_interface_cache, time. unfold bind at 1.
  rewrite bind_get. simpl. by rewrite decide_False.
Qed.

Lemma renew_stale_run w hi ha bf n k :
  mem w = mk_store hi ha bf n k →
  cache_inv w → stale w →
  ∃ hi1 ha1,
    below n hi1 ∧ below n ha1
    ∧ renew_interface_cache w
      = match load_ipx_interfaces (W (set_interface_cache None (tick w)) hi1 ha1 bf n k) with
        | Ok nics w2 =>
            Ok tt (set_interface_cache_ctime (clock w2 (time_calls w2))
                     (tick (set_interface_cache nics w2)))
        | Fault f => Fault f
        end.
Proof.
  intros Hmem ((Hbi & Hba & Hbf) & sh & L & Hl) Hstale.
  rewrite Hmem in *. simpl in *.
  destruct (free_ipx_interface_list_ok (tick w) hi ha bf n k (interface_cache w) sh L Hl)
    as (hi1 & ha1 & Hfree & Hgone & Hstay & Hgone' & Hstay').
  destruct (iface_list_live _ _ _ _ _ Hl) as [Hlive1 Hlive2].
  exists hi1, ha1. split_and!.
  - intros y Hy. apply Hbi. destruct (decide (y ∈ sh.*1)) as [Hin|Hin].
    + by apply Hlive1.
    + by rewrite <- Hstay.
  - intros y Hy. apply Hba. destruct (decide (y ∈ concat sh.*2)) as [Hin|Hin].
    + by apply Hlive2.
    + by rewrite <- Hstay'.
  - unfold renew_interface_cache, time. unfold bind at 1.
    rewrite bind_get. simpl interface_cache_ctime.
    rewrite decide_True by exact Hstale.
    rewrite bind_get. simpl interface_cache.
    assert (tick w = W (tick w) hi ha bf n k) as Hw.
    { destruct w; simpl in *. by subst. }
    rewrite Hw at 1.
    erewrite bind_Ok by exact Hfree.
    rewrite bind_modify.
    change (set_interface_cache None (W (tick w) hi1 ha1 bf n k))
      with (W (set_interface_cache None (tick w)) hi1 ha1 bf n k).
    unfold bind at 1.
    destruct (load_ipx_interfaces _) as [nics w2|f]; [|done].
    rewrite bind_modify. unfold bind, time, modify. reflexivity.
Qed.

Lemma snapshot_of_list w sh L :
  iface_list (ifaces (mem w)) (ips (mem w)) (interface_cache w) sh L →
  snapshot w = Some L.
Proof. intros Hl. unfold snapshot. by eapply iface_list_read. Qed.

Lemma build_allocs ok cfg primary m : ∀ l, length l ≤ m → ∀ k L,
  match build ok cfg primary k L l with
  | Built _ k' => k ≤ k'
  | OutOfMemory k' => k ≤ k'
  | _ => True
  end.
Proof.
  induction m as [|m IH]; intros l Hlen k L.
  { destruct l; [simpl; lia|simpl in Hlen; lia]. }
  destruct l as [|ad Next]; [simpl; lia|]. simpl in Hlen. cbn [build].
  destruct (enabled _).
  - destruct (ok k); [|lia]. destruct (forallb _ _); [|done].
    specialize (IH Next ltac:(lia) (S k + length (adapter_bindings ad))
                  (place primary L (interface_of cfg ad))).
    destruct (build _ _ _ _ _ Next); try done; lia.
  - destruct Next as [|ad' Next']; [done|]. simpl in Hlen.
    apply IH. lia.
Qed.

Lemma sys_allocs ok sc : ∀ k,
  match sys ok k sc with
  | SysAdapters _ k' _ => k < k'
  | SysNone k' _ => k < k'
  | SysHang => True
  end.
Proof.
  induction sc as [|r sc IH]; intros k; simpl.
  - destruct (ok k); [done|lia].
  - destruct (ok k); [|lia]. destruct r; try lia.
    specialize (IH (S k)). destruct (sys ok (S k) sc); try done; lia.
Qed.

Lemma renew_stale_ok w L :
  cache_inv w → stale w → rebuild_spec w = Some L →
  ∃ w', renew_interface_cache w = Ok tt w'
      ∧ cache_inv w'
      ∧ snapshot w' = Some L
      ∧ same_env w w'
      ∧ interface_cache_ctime w' = clock w (S (time_calls w))
      ∧ time_calls w' = S (S (time_calls w))
      ∧ builds w' = S (builds w)
      ∧ allocs (mem w) ≤ allocs (mem w')
      ∧ next_loc (mem w) ≤ next_loc (mem w')
      ∧ (L = [] → interface_cache w' = None)
      ∧ os_script w' = script_after w.
Proof.
  intros Hinv Hstale Hspec.
  pose proof Hinv as ((_ & _ & Hbf) & _).
  destruct (mem w) as [hi ha bf n k] eqn:Hmem. simpl in Hbf.
  destruct (renew_stale_run w hi ha bf n k Hmem Hinv Hstale)
    as (hi1 & ha1 & Hbi1 & Hba1 & Hrun).
  pose proof (load_ipx_interfaces_ok (set_interface_cache None (tick w))
                hi1 ha1 bf n k Hbi1 Hba1 Hbf) as Hload.
  unfold load_post in Hload. unfold rebuild_spec in Hspec. unfold script_after.
  rewrite Hmem in Hspec. rewrite Hmem. simpl in Hload, Hspec. simpl allocs.
  pose proof (sys_allocs (alloc_ok w) (os_script w) k) as Hk1.
  destruct (sys (alloc_ok w) k (os_script w)) as [l k1 sc'|k1 sc'|]; [| |done].
  - pose proof (build_allocs (alloc_ok w) (get_iface_config w) (get_primary_iface w)
                  (length l) l (le_n _) k1 []) as Hk'.
    destruct (build (alloc_ok w) (get_iface_config w) (get_primary_iface w) k1 [] l)
      as [L' k'|k'| |]; [| |done|done].
    + injection Hspec as ->.
      destruct Hload as (lg' & hi' & ha' & sh & q & n' & Hload & ? & ? & ? & _ & _ & Hl & _).
      rewrite Hload in Hrun. eexists. split; [exact Hrun|].
      split_and!; try done; simpl; try lia.
      * split; [split_and!; try done|by exists sh, L].
        simpl. intros x Hx. apply Hbf in Hx. lia.
      * by eapply snapshot_of_list.
      * intros ->. destruct Hl as (Hd & _ & Hf). apply Forall2_nil_inv_r in Hf.
        subst sh. by apply dll_nil_inv in Hd.
    + injection Hspec as <-.
      destruct Hload as (lg' & hi' & ha' & n' & Hload & ? & ? & ? & _).
      rewrite Hload in Hrun. eexists. split; [exact Hrun|].
      split_and!; try done; simpl; try lia.
      * split; [split_and!; try done|exists [], []; apply iface_list_nil].
        simpl. intros x Hx. apply elem_of_union in Hx as [Hx|Hx].
        -- apply elem_of_singleton in Hx. lia.
        -- apply Hbf in Hx. lia.
      * eapply snapshot_of_list. apply iface_list_nil.
  - injection Hspec as <-.
    destruct Hload as (lg' & n' & ? & Hload).
    rewrite Hload in Hrun. eexists. split; [exact Hrun|].
    split_and!; try done; simpl; try lia.
    + split; [split_and!|exists [], []; apply iface_list_nil]; simpl.
      * eapply below_mono; [|done]. done.
      * eapply below_mono; [|done]. done.
      * intros x Hx. apply Hbf in Hx. lia.
    + eapply snapshot_of_list. apply iface_list_nil.
Qed.

Lemma with_mem w hi ha bf n k :
  mem w = mk_store hi ha bf n k → w = W w hi ha bf n k.
Proof. destruct w; simpl. by intros ->. Qed.

Lemma same_env_refl w : same_env w w.
Proof. by split_and!. Qed.

Lemma same_env_trans w1 w2 w3 : same_env w1 w2 → same_env w2 w3 → same_env w1 w3.
Proof.
  intros (? & ? & ? & ? & ?) (? & ? & ? & ? & ?). split_and!; congruence.
Qed.

Lemma all_ok_mono w w' :
  same_env w w' → allocs (mem w) ≤ allocs (mem w') → all_ok w → all_ok w'.
Proof.
  intros (Hok & _) Hk Hall j Hj. rewrite Hok. apply Hall. lia.
Qed.

Lemma cache_inv_tick w : cache_inv w → cache_inv (tick w).
Proof. done. Qed.

Lemma renew_ok w L :
  cache_inv w → list_spec w = Some L →
  ∃ w', renew_interface_cache w = Ok tt w'
      ∧ cache_inv w'
      ∧ snapshot w' = Some L
      ∧ same_env w w'
      ∧ allocs (mem w) ≤ allocs (mem w')
      ∧ next_loc (mem w) ≤ next_loc (mem w')
      ∧ (¬ stale w → w' = tick w)
      ∧ (stale w → builds w' = S (builds w)
                  ∧ interface_cache_ctime w' = clock w (S (time_calls w))
                  ∧ time_calls w' = S (S (time_calls w))
                  ∧ (L = [] → interface_cache w' = None)
                  ∧ os_script w' = script_after w).
Proof.
  intros Hinv Hspec. unfold list_spec in Hspec.
  destruct (decide (stale w)) as [Hs|Hs].
  - destruct (renew_stale_ok w L Hinv Hs Hspec)
      as (w' & ? & ? & ? & ? & ? & ? & ? & ? & ? & ?).
    exists w'. split_and!; try done.
  - exists (tick w). split_and!; try done.
    by apply renew_fresh.
Qed.

Lemma get_ipx_interfaces_ok w L :
  cache_inv w → all_ok w → list_spec w = Some L →
  ∃ w1 q w' shc sh,
    renew_interface_cache w = Ok tt w1
    ∧ get_ipx_interfaces w = Ok q w'
    ∧ w' = set_mem (mem w') w1
    ∧ store_ok (mem w')
    ∧ allocs (mem w1) ≤ allocs (mem w')
    ∧ next_loc (mem w1) ≤ next_loc (mem w')
    ∧ bufs (mem w') = bufs (mem w1)
    ∧ iface_list (ifaces (mem w')) (ips (mem w')) (interface_cache w1) shc L
    ∧ sh_below (next_loc (mem w1)) shc
    ∧ iface_list (ifaces (mem w')) (ips (mem w')) q sh L
    ∧ sh_above (next_loc (mem w1)) sh.
Proof.
  intros Hinv Hall Hspec.
  destruct (renew_ok w L Hinv Hspec) as (w1 & Hrenew & Hinv1 & Hsnap1 & Henv & Hk & _).
  pose proof (all_ok_mono _ _ Henv Hk Hall) as Hall1. unfold all_ok in Hall1.
  destruct Hinv1 as ((Hbi & Hba & Hbf) & shc & L1 & Hlc).
  assert (L1 = L) as ->.
  { erewrite snapshot_of_list in Hsnap1 by done. congruence. }
  destruct (mem w1) as [hi ha bf n k] eqn:Hmem. simpl in *.
  destruct (copy_ipx_interface_list_ok w1 hi ha bf n k (interface_cache w1) shc L
              Hall1 Hbi Hba Hlc)
    as (hi' & ha' & sh & q & n' & k' & Hcopy & ? & ? & ? & ? & Hfi & Hfa & Hl & Hab).
  exists w1, q, (W w1 hi' ha' bf n' k'), shc, sh.
  pose proof (iface_list_below _ _ _ _ _ _ Hbi Hba Hlc) as Hbelow.
  rewrite ?Hmem. cbn [mem set_mem ifaces ips bufs next_loc allocs].
  split_and!; try done.
  - unfold get_ipx_interfaces, EnterCriticalSection, LeaveCriticalSection.
    rewrite bind_ret. erewrite bind_Ok by exact Hrenew. rewrite bind_get.
    rewrite (with_mem w1 _ _ _ _ _ Hmem) at 2.
    erewrite bind_Ok by exact Hcopy. reflexivity.
  - split_and!; try done. simpl. intros x Hx. apply Hbf in Hx. lia.
  - destruct Hbelow as [Hb1 Hb2]. pose proof Hlc as (Hd & Hnd & Hf).
    eapply iface_list_ext; [| | |exact Hlc].
    + eapply dll_ext; [| |exact Hd].
      * intros y Hy. unfold nextf. by rewrite Hfi by (by apply Hb1).
      * intros y Hy. unfold prevf. rewrite Hfi; [done|]. apply Hb1.
        destruct Hd as (_ & Hc & _). apply chain_head in Hc. rewrite Hy in Hc.
        destruct shc.*1; [done|]. injection Hc as ->. left.
    + intros y Hy. unfold bodyf. by rewrite Hfi by (by apply Hb1).
    + intros z Hz. apply Hfa. by apply Hb2.
Qed.

(** ** Looking an interface up *)

Lemma by_index_loop_ok rest : ∀ L fuel w hi ha bf n k index i0 p,
  (∀ j, k ≤ j → alloc_ok w j = true) →
  below n hi → below n ha →
  chain hi p rest.*1 →
  Forall2 (λ c v, iface_at hi ha c.1 c.2 v) rest L →
  length rest ≤ fuel →
  match nth_from index i0 L with
  | Some v => copy_post w hi ha bf n k v (by_index_loop fuel index i0 p (W w hi ha bf n k))
  | None => by_index_loop fuel index i0 p (W w hi ha bf n k) = Ok None (W w hi ha bf n k)
  end.
Proof.
  induction rest as [|[x ils] rest IH];
    intros L fuel w hi ha bf n k index i0 p Hok Hbi Hba Hc Hats Hfuel.
  - simpl in Hc. subst p. inversion Hats; subst. simpl. by destruct fuel.
  - destruct fuel as [|fuel]; [simpl in Hfuel; lia|].
    pose proof Hc as Hc0. simpl in Hc. destruct Hc as [-> _].
    inversion Hats as [|? v ? L' Hx Hats']; subst. simpl in Hx.
    pose proof Hx as (i & Hi & _).
    destruct (chain_next_node hi x rest.*1 i Hc0 Hi) as [Hnext Hc'].
    cbn [nth_from by_index_loop]. destruct (decide (i0 = index)) as [->|Hne].
    + by eapply copy_ipx_interface_ok.
    + erewrite bind_Ok by (by apply deref_iface).
      apply IH; try done. simpl in Hfuel. lia.
Qed.

Lemma by_addr_loop_ok rest : ∀ L fuel w hi ha bf n k net node p,
  (∀ j, k ≤ j → alloc_ok w j = true) →
  below n hi → below n ha →
  chain hi p rest.*1 →
  Forall2 (λ c v, iface_at hi ha c.1 c.2 v) rest L →
  length rest ≤ fuel →
  match find_addr net node L with
  | Some v => copy_post w hi ha bf n k v (by_addr_loop fuel net node p (W w hi ha bf n k))
  | None => by_addr_loop fuel net node p (W w hi ha bf n k) = Ok None (W w hi ha bf n k)
  end.
Proof.
  induction rest as [|[x ils] rest IH];
    intros L fuel w hi ha bf n k net node p Hok Hbi Hba Hc Hats Hfuel.
  - simpl in Hc. subst p. inversion Hats; subst. simpl. by destruct fuel.
  - destruct fuel as [|fuel]; [simpl in Hfuel; lia|].
    pose proof Hc as Hc0. simpl in Hc. destruct Hc as [-> _].
    inversion Hats as [|? v ? L' Hx Hats']; subst. simpl in Hx.
    pose proof Hx as (i & Hi & Hhw & Hnet & Hnode & _).
    destruct (chain_next_node hi x rest.*1 i Hc0 Hi) as [Hnext Hc'].
    cbn [find_addr by_addr_loop].
    erewrite bind_Ok by (by apply deref_iface).
    rewrite Hnet, Hnode.
    destruct (decide (network_number v = net ∧ node_number v = node)) as [Hm|Hm].
    + by eapply copy_ipx_interface_ok.
    + erewrite bind_Ok by (by apply deref_iface).
      apply IH; try done. simpl in Hfuel. lia.
Qed.

Lemma single_post_intro w1 hi ha bf n k shc L ov r :
  mem w1 = mk_store hi ha bf n k →
  store_ok (mem w1) →
  iface_list hi ha (interface_cache w1) shc L →
  match ov with
  | Some v => copy_post w1 hi ha bf n k v r
  | None => r = Ok None (W w1 hi ha bf n k)
  end →
  single_post w1 L ov r.
Proof.
  intros Hmem (Hbi & Hba & Hbf) Hlc Hr. rewrite Hmem in *. simpl in *.
  destruct ov as [v|]; simpl.
  - destruct Hr as (ha' & ils' & q & n' & k' & -> & ? & ? & ? & Hfa & Hl & Hfresh).
    pose proof (iface_list_below _ _ _ _ _ _ Hbi Hba Hlc) as [Hb1 Hb2].
    eexists _, q, ils', shc. rewrite Hmem. simpl.
    split; [reflexivity|]. split_and!; try done; simpl; try lia.
    + split_and!; simpl; try done.
      * eapply below_mono; [|by apply below_insert]. lia.
      * intros x Hx. apply Hbf in Hx. lia.
    + pose proof Hlc as (Hd & Hnd & Hf).
      assert (∀ y, y ∈ shc.*1 → <[n := mk_iface (hardware_address v) (network_number v)
                (node_number v) q None None]> hi !! y = hi !! y) as Hsame.
      { intros y Hy. rewrite lookup_insert_ne; [done|]. apply Hb1 in Hy. lia. }
      eapply iface_list_ext; [| | |exact Hlc].
      * eapply dll_ext; [| |exact Hd].
        -- intros y Hy. unfold nextf. by rewrite Hsame.
        -- intros y Hy. unfold prevf. rewrite Hsame; [done|].
           destruct Hd as (_ & Hc & _). apply chain_head in Hc. rewrite Hy in Hc.
           destruct shc.*1; [done|]. injection Hc as ->. left.
      * intros y Hy. unfold bodyf. by rewrite Hsame.
      * intros z Hz. apply Hfa. by apply Hb2.
  - rewrite Hr. f_equal. symmetry. by apply with_mem.
Qed.

Lemma ipx_interface_by_index_ok w L index :
  cache_inv w → all_ok w → list_spec w = Some L →
  ∃ w1, renew_interface_cache w = Ok tt w1
      ∧ single_post w1 L (nth_from index 0 L) (ipx_interface_by_index index w).
Proof.
  intros Hinv Hall Hspec.
  destruct (renew_ok w L Hinv Hspec) as (w1 & Hrenew & Hinv1 & Hsnap1 & Henv & Hk & _).
  pose proof (all_ok_mono _ _ Henv Hk Hall) as Hall1. unfold all_ok in Hall1.
  exists w1. split; [done|].
  pose proof Hinv1 as ((Hbi & Hba & Hbf) & shc & L1 & Hlc).
  assert (L1 = L) as ->.
  { erewrite snapshot_of_list in Hsnap1 by done. congruence. }
  destruct (mem w1) as [hi ha bf n k] eqn:Hmem. simpl in *.
  assert (ipx_interface_by_index index w
          = by_index_loop (size hi) index 0 (interface_cache w1) (W w1 hi ha bf n k)) as ->.
  { unfold ipx_interface_by_index, EnterCriticalSection, LeaveCriticalSection.
    rewrite bind_ret. erewrite bind_Ok by exact Hrenew. rewrite !bind_get.
    unfold compose. rewrite Hmem. simpl ifaces.
    rewrite (with_mem w1 _ _ _ _ _ Hmem) at 2. unfold bind.
    by destruct (by_index_loop _ _ _ _ _). }
  eapply single_post_intro; [done|by rewrite Hmem|done|].
  pose proof Hlc as ((Hnd & Hc & _) & _ & Hats).
  apply (by_index_loop_ok shc); try done.
  rewrite <- (length_fmap fst shc). by eapply chain_NoDup_length.
Qed.

Lemma ipx_interface_by_addr_ok w L net node :
  cache_inv w → all_ok w → list_spec w = Some L →
  ∃ w1, renew_interface_cache w = Ok tt w1
      ∧ single_post w1 L (find_addr net node L) (ipx_interface_by_addr net node w).
Proof.
  intros Hinv Hall Hspec.
  destruct (renew_ok w L Hinv Hspec) as (w1 & Hrenew & Hinv1 & Hsnap1 & Henv & Hk & _).
  pose proof (all_ok_mono _ _ Henv Hk Hall) as Hall1. unfold all_ok in Hall1.
  exists w1. split; [done|].
  pose proof Hinv1 as ((Hbi & Hba & Hbf) & shc & L1 & Hlc).
  assert (L1 = L) as ->.
  { erewrite snapshot_of_list in Hsnap1 by done. congruence. }
  destruct (mem w1) as [hi ha bf n k] eqn:Hmem. simpl in *.
  assert (ipx_interface_by_addr net node w
          = by_addr_loop (size hi) net node (interface_cache w1) (W w1 hi ha bf n k)) as ->.
  { unfold ipx_interface_by_addr, EnterCriticalSection, LeaveCriticalSection.
    rewrite bind_ret. erewrite bind_Ok by exact Hrenew. rewrite !bind_get.
    unfold compose. rewrite Hmem. simpl ifaces.
    rewrite (with_mem w1 _ _ _ _ _ Hmem) at 2. unfold bind.
    by destruct (by_addr_loop _ _ _ _ _). }
  eapply single_post_intro; [done|by rewrite Hmem|done|].
  pose proof Hlc as ((Hnd & Hc & _) & _ & Hats).
  apply (by_addr_loop_ok shc); try done.
  rewrite <- (length_fmap fst shc). by eapply chain_NoDup_length.
Qed.

(** ** The adapters that the loop looks at *)

Lemma forallb_seq_true (ok : nat → bool) k m :
  (∀ j, k ≤ j → ok j = true) → forallb ok (seq k m) = true.
Proof.
  intros Hok. apply forallb_forall. intros j Hj. apply in_seq in Hj. apply Hok. lia.
Qed.

Lemma build_all_ok ok cfg primary m : ∀ l, length l ≤ m → ∀ k L,
  (∀ j, k ≤ j → ok j = true) →
  match visited cfg l with
  | Some V =>
      ∃ k', build ok cfg primary k L l
            = Built (foldl (place primary) L (interface_of cfg <$> V)) k'
  | None => build ok cfg primary k L l = NullDeref
  end.
Proof.
  induction m as [|m IH]; intros l Hlen k L Hok.
  { destruct l; [by exists k|simpl in Hlen; lia]. }
  destruct l as [|ad Next]; [by exists k|]. simpl in Hlen. cbn [build visited].
  destruct (enabled _).
  - rewrite Hok by lia. rewrite forallb_seq_true by (intros; apply Hok; lia).
    specialize (IH Next ltac:(lia) (S k + length (adapter_bindings ad))
                  (place primary L (interface_of cfg ad))
                  ltac:(intros; apply Hok; lia)).
    by destruct (visited cfg Next).
  - destruct Next as [|ad' Next']; [done|]. simpl in Hlen.
    apply IH; [lia|done].
Qed.

(** ** The order of the list *)

Lemma foldl_place primary vs : ∀ L,
  foldl (place primary) L vs
  = reverse (filter (λ v, hardware_address v = primary) vs)
    ++ L ++ filter (λ v, hardware_address v ≠ primary) vs.
Proof.
  induction vs as [|v vs IH]; intros L; simpl.
  - by rewrite app_nil_r.
  - rewrite IH. unfold place. rewrite !filter_cons.
    destruct (decide (hardware_address v = primary)) as [Hv|Hv].
    + rewrite decide_False by (intros Hn; by apply Hn).
      rewrite reverse_cons. by rewrite <- !app_assoc.
    + rewrite decide_True by done. by rewrite <- !app_assoc.
Qed.

Lemma foldl_place_perm primary vs L : foldl (place primary) L vs ≡ₚ L ++ vs.
Proof.
  revert L. induction vs as [|v vs IH]; intros L; simpl.
  - by rewrite app_nil_r.
  - rewrite IH. unfold place. destruct (decide _).
    + simpl. by rewrite Permutation_middle.
    + by rewrite <- app_assoc.
Qed.

(** ** The Hamachi node number *)

Lemma addr48_in_hamachi_bug : addr48_in hamachi_bug = 0x7A7900000000%Z.
Proof. reflexivity. Qed.

Lemma hamachi_node_number ip :
  addr48_in (addr32_out hamachi_bug 2 ip) = (0x7A7900000000 + ip mod 2 ^ 32)%Z.
Proof.
  unfold addr32_out, addr32_bytes, addr48_in, hamachi_bug. simpl.
  Z.div_mod_to_equations. lia.
Qed.

(** ** The records of a list *)

Section CellsLemmas.
Context {N : Type} `{DLNodeLaws N}.

Lemma chain_locs_ok fuel (h : gmap loc N) p ls :
  chain h p ls → length ls ≤ fuel → chain_locs fuel h p = ls.
Proof.
  revert fuel p. induction ls as [|x ls IH]; intros fuel p; simpl.
  - intros -> _. by destruct fuel.
  - intros [-> (q & Hq & Hc)] Hlen. destruct fuel as [|fuel]; [lia|].
    simpl. unfold nextf in Hq. destruct (h !! x) as [n|]; [|done].
    simpl in Hq. injection Hq as ->. f_equal. apply IH; [done|lia].
Qed.

Lemma chain_locs_None fuel (h : gmap loc N) : chain_locs fuel h None = [].
Proof. by destruct fuel. Qed.

Lemma chain_locs_live fuel (h : gmap loc N) p x :
  x ∈ chain_locs fuel h p → is_Some (h !! x).
Proof.
  revert p. induction fuel as [|fuel IH]; intros p Hx.
  - destruct p; simpl in Hx; by apply elem_of_nil in Hx.
  - destruct p as [y|]; simpl in Hx; [|by apply elem_of_nil in Hx].
    destruct (h !! y) as [n|] eqn:E; [|by apply elem_of_nil in Hx].
    apply elem_of_cons in Hx as [->|Hx]; [by eexists|]. by eapply IH.
Qed.

End CellsLemmas.

Lemma ip_cells_at s sh L :
  Forall2 (λ c v, iface_at (ifaces s) (ips s) c.1 c.2 v) sh L →
  concat ((λ x, match ifaces s !! x with
                | Some i => chain_locs (size (ips s)) (ips s) (iface_ipaddr i)
                | None => []
                end) <$> sh.*1) = concat sh.*2.
Proof.
  induction 1 as [|[x ils] v sh L Hx _ IH]; [done|].
  rewrite !fmap_cons, !concat_cons, IH. simpl in Hx. simpl.
  destruct Hx as (i & -> & _ & _ & _ & (Hnd & Hc & _) & _).
  f_equal. apply chain_locs_ok; [done|]. by eapply chain_NoDup_length.
Qed.

Lemma cells_of_list s q sh L :
  NoDup sh.*1 → chain (ifaces s) q sh.*1 →
  Forall2 (λ c v, iface_at (ifaces s) (ips s) c.1 c.2 v) sh L →
  iface_cells s q = sh.*1 ∧ ip_cells s q = concat sh.*2.
Proof.
  intros Hnd Hc Hats.
  assert (iface_cells s q = sh.*1) as Hcells.
  { apply chain_locs_ok; [done|]. by eapply chain_NoDup_length. }
  split; [done|]. unfold ip_cells. rewrite Hcells. by eapply ip_cells_at.
Qed.

Lemma cells_of_iface_list s q sh L :
  iface_list (ifaces s) (ips s) q sh L →
  iface_cells s q = sh.*1 ∧ ip_cells s q = concat sh.*2.
Proof. intros ((Hnd & Hc & _) & _ & Hats). by eapply cells_of_list. Qed.

Lemma ip_cells_live s q z : z ∈ ip_cells s q → is_Some (ips s !! z).
Proof.
  unfold ip_cells. intros Hz. apply list_elem_of_In, in_concat in Hz as (l & Hl & Hz).
  apply list_elem_of_In in Hl, Hz. apply list_elem_of_fmap in Hl as (x & -> & _).
  destruct (ifaces s !! x); [|by apply elem_of_nil in Hz].
  by eapply chain_locs_live.
Qed.

(** ** A host to run the functions on *)

Example get_three :
  run_list get_ipx_interfaces
    (boot 2 granted clock_100_200 [ReplyAdapters lan [tunnel; bare]])
  = Ok (Some [i_tunnel; i_lan; i_bare])
       (exec get_ipx_interfaces (boot 2 granted clock_100_200 [ReplyAdapters lan [tunnel; bare]])).
Proof. vm_compute. reflexivity. Qed.

(** C2 fails on the code: the loop does not process every adapter, for
    the adapter that follows a disabled one is skipped with it.  From
    [off; lan; bare], where only [off] is disabled, the list built is
    [i_bare] and the enabled adapter [lan] has no interface; from
    [lan; bare] both interfaces are built. *)
Theorem disabled_adapter_hides_its_successor :
  result (run_list load_ipx_interfaces
            (boot 2 granted clock_100_200 [ReplyAdapters off [lan; bare]]))
  = Some (Some [i_bare])
  ∧ result (run_list load_ipx_interfaces
              (boot 2 granted clock_100_200 [ReplyAdapters lan [bare]]))
    = Some (Some [i_lan; i_bare]).
Proof. split; vm_compute; reflexivity. Qed.

(** C10 fails on the code: when a disabled adapter is the last element,
    the loop steps to its successor, which is NULL, and then reads the
    successor of NULL.  From [lan; off] the run ends in a null-pointer
    fault. *)
Theorem disabled_last_adapter_faults :
  load_ipx_interfaces (boot 2 granted clock_100_200 [ReplyAdapters lan [off]])
  = Fault NullPointer.
Proof. vm_compute. reflexivity. Qed.

(** The defect behind the two evaluations above, in general: behind a
    disabled adapter the loop goes on with the successor of its successor. *)
Lemma load_ipx_loop_disabled primary nics ad ad' Next w :
  enabled (get_iface_config w (addr48_in (Address ad))) = false →
  load_ipx_loop primary nics (ad :: ad' :: Next) w = load_ipx_loop primary nics Next w.
Proof. intros Hen. cbn [load_ipx_loop]. rewrite bind_get. by rewrite Hen. Qed.

Lemma load_ipx_loop_disabled_last primary nics ad w :
  enabled (get_iface_config w (addr48_in (Address ad))) = false →
  load_ipx_loop primary nics [ad] w = Fault NullPointer.
Proof. intros Hen. cbn [load_ipx_loop]. rewrite bind_get. by rewrite Hen. Qed.

(** *** Refreshing when the enumeration fails *)

(** C1, as stated, fails: the refresh that fails replaces the snapshot by
    the empty list and moves the timestamp; the caller gets the empty list. *)
Lemma failed_refresh_keeps_nothing :
  snapshot filled_then_failing = Some [i_tunnel; i_lan; i_bare]
  ∧ interface_cache_ctime filled_then_failing = 100%Z
  ∧ os_script filled_then_failing = [ReplyFailure 31]
  ∧ result (run_list get_ipx_interfaces filled_then_failing) = Some (Some [])
  ∧ snapshot (exec get_ipx_interfaces filled_then_failing) = Some []
  ∧ interface_cache_ctime (exec get_ipx_interfaces filled_then_failing) = 200%Z.
Proof. vm_compute. repeat split; reflexivity. Qed.

Lemma copy_nothing w : copy_ipx_interface_list None w = Ok None w.
Proof.
  unfold copy_ipx_interface_list. rewrite bind_get.
  by destruct (size _).
Qed.

Lemma get_empty_fresh w :
  interface_cache w = None → ¬ stale w →
  get_ipx_interfaces w = Ok None (tick w).
Proof.
  intros Hc Hf. unfold get_ipx_interfaces, EnterCriticalSection, LeaveCriticalSection.
  rewrite bind_ret. erewrite bind_Ok by (by apply renew_fresh).
  rewrite bind_get. simpl interface_cache. rewrite Hc.
  erewrite bind_Ok by apply copy_nothing. done.
Qed.

(** A stale cache is renewed: the records of the list it held are freed,
    then the list is built anew from what is left. *)
Lemma renew_stale_cells w hi ha bf n k :
  mem w = mk_store hi ha bf n k →
  cache_inv w → stale w →
  ∃ hi1 ha1,
    (∀ y, hi1 !! y = if decide (y ∈ iface_cells (mem w) (interface_cache w)) then None
                     else hi !! y)
    ∧ (∀ z, ha1 !! z = if decide (z ∈ ip_cells (mem w) (interface_cache w)) then None
                       else ha !! z)
    ∧ below n hi1 ∧ below n ha1
    ∧ renew_interface_cache w
      = match load_ipx_interfaces (W (set_interface_cache None (tick w)) hi1 ha1 bf n k) with
        | Ok nics w2 =>
            Ok tt (set_interface_cache_ctime (clock w2 (time_calls w2))
                     (tick (set_interface_cache nics w2)))
        | Fault f => Fault f
        end.
Proof.
  intros Hmem ((Hbi & Hba & Hbf) & sh & L & Hl) Hstale.
  destruct (cells_of_iface_list _ _ _ _ Hl) as [Hc1 Hc2].
  rewrite Hmem in *. simpl in *.
  destruct (free_ipx_interface_list_ok (tick w) hi ha bf n k (interface_cache w) sh L Hl)
    as (hi1 & ha1 & Hfree & Hgone & Hstay & Hgone' & Hstay').
  destruct (iface_list_live _ _ _ _ _ Hl) as [Hlive1 Hlive2].
  exists hi1, ha1. split_and!.
  - intros y. rewrite Hc1. destruct (decide _); [by apply Hgone|by apply Hstay].
  - intros z. rewrite Hc2. destruct (decide _); [by apply Hgone'|by apply Hstay'].
  - intros y Hy. apply Hbi. destruct (decide (y ∈ sh.*1)) as [Hin|Hin].
    + by apply Hlive1.
    + by rewrite <- Hstay.
  - intros y Hy. apply Hba. destruct (decide (y ∈ concat sh.*2)) as [Hin|Hin].
    + by apply Hlive2.
    + by rewrite <- Hstay'.
  - unfold renew_interface_cache, time. unfold bind at 1.
    rewrite bind_get. simpl interface_cache_ctime.
    rewrite decide_True by exact Hstale.
    rewrite bind_get. simpl interface_cache.
    assert (tick w = W (tick w) hi ha bf n k) as Hw.
    { destruct w; simpl in *. by subst. }
    rewrite Hw at 1.
    erewrite bind_Ok by exact Hfree.
    rewrite bind_modify.
    change (set_interface_cache None (W (tick w) hi1 ha1 bf n k))
      with (W (set_interface_cache None (tick w)) hi1 ha1 bf n k).
    unfold bind at 1.
    destruct (load_ipx_interfaces _) as [nics w2|f]; [|done].
    rewrite bind_modify. unfold bind, time, modify. reflexivity.
Qed.

(** C1, amended: on a refresh where the enumeration of the adapters
    reports an error, the records of the previous snapshot have been
    freed (and nothing else has), the cache is left holding the empty
    list, stamped with the time of the refresh; the caller gets the empty
    list, and so does a later caller within the time to live, without
    another enumeration. *)
Theorem failed_refresh_empties_cache w code sc' :
  cache_inv w → stale w →
  alloc_ok w (allocs (mem w)) = true →
  os_script w = ReplyFailure code :: sc' →
  ∃ w', get_ipx_interfaces w = Ok None w'
      ∧ snapshot w' = Some []
      ∧ interface_cache_ctime w' = clock w (S (time_calls w))
      ∧ os_script w' = sc'
      ∧ (∀ y, ifaces (mem w') !! y
              = if decide (y ∈ iface_cells (mem w) (interface_cache w)) then None
                else ifaces (mem w) !! y)
      ∧ (∀ z, ips (mem w') !! z
              = if decide (z ∈ ip_cells (mem w) (interface_cache w)) then None
                else ips (mem w) !! z)
      ∧ bufs (mem w') = bufs (mem w)
      ∧ (¬ stale w' →
         get_ipx_interfaces w' = Ok None (tick w') ∧ os_script (tick w') = sc').
Proof.
  intros Hinv Hstale Hok Hsc.
  pose proof Hinv as ((_ & _ & Hbf) & _).
  destruct (mem w) as [hi ha bf n k] eqn:Hmem. simpl in Hbf, Hok.
  destruct (renew_stale_cells w hi ha bf n k Hmem Hinv Hstale)
    as (hi1 & ha1 & Hcells & Hcells' & Hbi1 & Hba1 & Hrun).
  rewrite Hmem in Hcells, Hcells'.
  pose proof (load_ipx_interfaces_ok (set_interface_cache None (tick w))
                hi1 ha1 bf n k Hbi1 Hba1 Hbf) as Hload.
  unfold load_post in Hload.
  change (alloc_ok (set_interface_cache None (tick w))) with (alloc_ok w) in Hload.
  change (os_script (set_interface_cache None (tick w))) with (os_script w) in Hload.
  rewrite Hsc in Hload. cbn [sys] in Hload. rewrite Hok in Hload.
  destruct Hload as (lg & n' & Hn' & Hload).
  rewrite Hload in Hrun.
  eexists. split_and!.
  - unfold get_ipx_interfaces, EnterCriticalSection, LeaveCriticalSection.
    rewrite bind_ret. erewrite bind_Ok by exact Hrun.
    rewrite bind_get. simpl interface_cache.
    erewrite bind_Ok by apply copy_nothing. reflexivity.
  - eapply snapshot_of_list. apply iface_list_nil.
  - reflexivity.
  - reflexivity.
  - exact Hcells.
  - exact Hcells'.
  - reflexivity.
  - intros Hfresh. split; [by apply get_empty_fresh|done].
Qed.

Lemma cache_inv_boot primary ok clk script : cache_inv (boot primary ok clk script).
Proof.
  split.
  - split_and!; simpl.
    + intros y Hy. rewrite lookup_empty in Hy. by destruct Hy.
    + intros y Hy. rewrite lookup_empty in Hy. by destruct Hy.
    + intros x Hx. by apply not_elem_of_empty in Hx.
  - exists [], []. apply iface_list_nil.
Qed.

(** What a call of [get_ipx_interfaces] comes to. *)
Lemma get_ipx_interfaces_spec w L :
  cache_inv w → all_ok w → list_spec w = Some L →
  ∃ q w',
    get_ipx_interfaces w = Ok q w'
    ∧ read_ifaces (mem w') q = Some L
    ∧ snapshot w' = Some L
    ∧ cache_inv w' ∧ all_ok w' ∧ same_env w w'
    ∧ (stale w → builds w' = S (builds w) ∧ os_script w' = script_after w)
    ∧ (¬ stale w →
       builds w' = builds w ∧ os_script w' = os_script w
       ∧ interface_cache_ctime w' = interface_cache_ctime w).
Proof.
  intros Hinv Hall Hspec.
  destruct (get_ipx_interfaces_ok w L Hinv Hall Hspec)
    as (w1 & q & w' & shc & sh & Hrenew & Hget & Hw' & Hstore & Hk' & Hn' & Hbufs &
        Hlc & Hbelow & Hl & Habove).
  destruct (renew_ok w L Hinv Hspec)
    as (w1' & Hrenew' & Hinv1 & Hsnap1 & Henv & Hk & Hn & Hfresh & Hstale).
  rewrite Hrenew in Hrenew'. injection Hrenew' as <-.
  assert (interface_cache w' = interface_cache w1) as Hc by (by rewrite Hw').
  exists q, w'. split_and!; try done.
  - by eapply iface_list_read.
  - eapply snapshot_of_list. rewrite Hc. done.
  - split; [done|]. exists shc, L. by rewrite Hc.
  - eapply all_ok_mono; [| |exact Hall].
    + rewrite Hw'. exact Henv.
    + lia.
  - rewrite Hw'. exact Henv.
  - intros Hs. destruct (Hstale Hs) as (Hb & _ & _ & _ & Hscr).
    rewrite Hw'. simpl. by split.
  - intros Hs. rewrite Hw'. simpl. rewrite (Hfresh Hs). done.
Qed.

Lemma exec_Ok {A} (c : M A) w a w' : c w = Ok a w' → exec c w = w'.
Proof. unfold exec. by intros ->. Qed.

Lemma cache_inv_exec_get w L :
  cache_inv w → all_ok w → list_spec w = Some L →
  cache_inv (exec get_ipx_interfaces w) ∧ all_ok (exec get_ipx_interfaces w).
Proof.
  intros Hinv Hall Hspec.
  destruct (get_ipx_interfaces_spec w L Hinv Hall Hspec)
    as (q & w' & Hget & _ & _ & ? & ? & _).
  by rewrite (exec_Ok _ _ _ _ Hget).
Qed.

Lemma all_ok_granted primary clk script n m s :
  all_ok (mk_world s granted clk n script true config primary [] m None 0).
Proof. by intros j Hj. Qed.

Lemma cache_inv_filled_then_failing : cache_inv filled_then_failing.
Proof.
  eapply (cache_inv_exec_get _ [i_tunnel; i_lan; i_bare]).
  - apply cache_inv_boot.
  - by intros j Hj.
  - vm_compute. reflexivity.
Qed.

Lemma filled_then_failing_cells :
  interface_cache filled_then_failing = Some 3
  ∧ iface_cells (mem filled_then_failing) (Some 3) = [3; 1; 5]
  ∧ ip_cells (mem filled_then_failing) (Some 3) = [4; 2].
Proof. vm_compute. repeat split; reflexivity. Qed.

Lemma failed_refresh_empties_cache_witness :
  ∃ w', get_ipx_interfaces filled_then_failing = Ok None w'
      ∧ snapshot w' = Some []
      ∧ interface_cache_ctime w' = 200%Z
      ∧ os_script w' = []
      ∧ ifaces (mem w') !! 3 = None
      ∧ ips (mem w') !! 4 = None.
Proof.
  destruct filled_then_failing_cells as (Hc & Hi & Ha).
  destruct (failed_refresh_empties_cache filled_then_failing 31 [])
    as (w' & H1 & H2 & H3 & H4 & H5 & H6 & _).
  - apply cache_inv_filled_then_failing.
  - vm_compute. reflexivity.
  - vm_compute. reflexivity.
  - vm_compute. reflexivity.
  - exists w'. split; [exact H1|]. split; [exact H2|]. split; [exact H3|].
    split; [exact H4|]. split.
    + rewrite H5, Hc, Hi. apply decide_True. left.
    + rewrite H6, Hc, Ha. apply decide_True. left.
Defined.

(** *** Freshness *)

Lemma stale_age w : stale w ↔ (age w > 5)%Z.
Proof. done. Qed.

(** The clock and the time stamp across a call of [get_ipx_interfaces]:
    the clock is read once when the cache is not stale, and a second time,
    for the stamp, when it is. *)
Lemma get_ipx_interfaces_times w L q w' :
  cache_inv w → all_ok w → list_spec w = Some L →
  get_ipx_interfaces w = Ok q w' →
  clock w' = clock w
  ∧ (stale w → interface_cache_ctime w' = clock w (S (time_calls w))
               ∧ time_calls w' = S (S (time_calls w)))
  ∧ (¬ stale w → interface_cache_ctime w' = interface_cache_ctime w
                 ∧ time_calls w' = S (time_calls w)).
Proof.
  intros Hinv Hall Hspec Hget.
  destruct (get_ipx_interfaces_ok w L Hinv Hall Hspec)
    as (w1 & q0 & w0 & shc & sh & Hrenew & Hget0 & Hw' & _).
  rewrite Hget in Hget0. injection Hget0 as <- <-.
  destruct (renew_ok w L Hinv Hspec)
    as (w1' & Hrenew' & _ & _ & (_ & Hclock & _) & _ & _ & Hfresh & Hstale).
  rewrite Hrenew in Hrenew'. injection Hrenew' as <-.
  rewrite Hw'. simpl. split; [done|]. split.
  - intros Hs. by destruct (Hstale Hs) as (_ & ? & ? & _).
  - intros Hs. by rewrite (Hfresh Hs).
Qed.

(** C8: the cache is rebuilt by a call exactly when its age exceeds 5, and
    then once; the rebuild stamps the cache with the reading of the clock
    that follows it, and a call that does not rebuild leaves the stamp as
    it was, so that the age at the next call is the time gone by since the
    last rebuild.  A call made while the age is at most 5 returns the data
    of the call before it, and the adapters are not enumerated again. *)
Theorem cache_freshness w L :
  cache_inv w → all_ok w → list_spec w = Some L →
  ∃ q1 w1,
    get_ipx_interfaces w = Ok q1 w1
    ∧ read_ifaces (mem w1) q1 = Some L
    ∧ clock w1 = clock w
    ∧ ((age w > 5)%Z →
       builds w1 = S (builds w)
       ∧ interface_cache_ctime w1 = clock w (S (time_calls w))
       ∧ age w1 = (clock w (S (S (time_calls w))) - clock w (S (time_calls w)))%Z)
    ∧ ((age w ≤ 5)%Z →
       builds w1 = builds w ∧ os_script w1 = os_script w
       ∧ interface_cache_ctime w1 = interface_cache_ctime w
       ∧ age w1 = (clock w (S (time_calls w)) - interface_cache_ctime w)%Z)
    ∧ ((age w1 ≤ 5)%Z →
       ∃ q2 w2,
         get_ipx_interfaces w1 = Ok q2 w2
         ∧ read_ifaces (mem w2) q2 = Some L
         ∧ builds w2 = builds w1
         ∧ os_script w2 = os_script w1
         ∧ interface_cache_ctime w2 = interface_cache_ctime w1).
Proof.
  intros Hinv Hall Hspec.
  destruct (get_ipx_interfaces_spec w L Hinv Hall Hspec)
    as (q1 & w1 & Hget & Hread & Hsnap & Hinv1 & Hall1 & _ & Hstale & Hfresh).
  destruct (get_ipx_interfaces_times w L q1 w1 Hinv Hall Hspec Hget)
    as (Hclock & Hts & Htf).
  exists q1, w1. split_and!; try done.
  - intros Hage. assert (stale w) as Hs by (by apply stale_age).
    destruct (Hstale Hs) as [Hb _]. destruct (Hts Hs) as [Hct Htc].
    split_and!; try done. unfold age. by rewrite Hclock, Hct, Htc.
  - intros Hage. assert (¬ stale w) as Hs by (unfold stale, INTERFACE_CACHE_TTL, age in *; lia).
    destruct (Hfresh Hs) as (? & ? & _). destruct (Htf Hs) as [Hct Htc].
    split_and!; try done. unfold age. by rewrite Hclock, Hct, Htc.
  - intros Hage.
    assert (¬ stale w1) as Hs by (unfold stale, INTERFACE_CACHE_TTL, age in *; lia).
    assert (list_spec w1 = Some L) as Hspec1.
    { unfold list_spec. by rewrite decide_False. }
    destruct (get_ipx_interfaces_spec w1 L Hinv1 Hall1 Hspec1)
      as (q2 & w2 & Hget2 & Hread2 & _ & _ & _ & _ & _ & Hfresh2).
    exists q2, w2. destruct (Hfresh2 Hs) as (? & ? & ?). by split_and!.
Qed.

Lemma cache_freshness_witness :
  cache_inv (boot 2 granted clock_from_100 [ReplyAdapters lan [tunnel; bare]])
  ∧ all_ok (boot 2 granted clock_from_100 [ReplyAdapters lan [tunnel; bare]])
  ∧ list_spec (boot 2 granted clock_from_100 [ReplyAdapters lan [tunnel; bare]])
    = Some [i_tunnel; i_lan; i_bare]
  ∧ ∃ q1 w1,
      get_ipx_interfaces (boot 2 granted clock_from_100 [ReplyAdapters lan [tunnel; bare]])
      = Ok q1 w1
      ∧ read_ifaces (mem w1) q1 = Some [i_tunnel; i_lan; i_bare]
      ∧ builds w1 = 1
      ∧ interface_cache_ctime w1 = 101%Z
      ∧ age w1 = 1%Z
      ∧ ∃ q2 w2,
          get_ipx_interfaces w1 = Ok q2 w2
          ∧ read_ifaces (mem w2) q2 = Some [i_tunnel; i_lan; i_bare]
          ∧ builds w2 = 1
          ∧ os_script w2 = [].
Proof.
  split; [apply cache_inv_boot|]. split; [by intros j Hj|].
  split; [vm_compute; reflexivity|].
  destruct (cache_freshness
              (boot 2 granted clock_from_100 [ReplyAdapters lan [tunnel; bare]])
              [i_tunnel; i_lan; i_bare])
    as (q1 & w1 & Hget & Hread & _ & Hstale & _ & Hnext).
  - apply cache_inv_boot.
  - by intros j Hj.
  - vm_compute. reflexivity.
  - exists q1, w1. split; [exact Hget|]. split; [exact Hread|].
    assert (w1 = exec get_ipx_interfaces
                   (boot 2 granted clock_from_100 [ReplyAdapters lan [tunnel; bare]])) as Hw1.
    { symmetry. by eapply exec_Ok. }
    destruct Hstale as (Hb & Hct & Hage); [vm_compute; reflexivity|].
    split; [exact Hb|]. split; [exact Hct|]. split; [exact Hage|].
    destruct Hnext as (q2 & w2 & Hget2 & Hread2 & Hb2 & Hs2 & _).
    { rewrite Hage. vm_compute. by intros. }
    exists q2, w2. split; [exact Hget2|]. split; [exact Hread2|].
    rewrite Hb2, Hs2, Hw1. split; vm_compute; reflexivity.
Defined.

(** *** Allocation failure during a build *)

Lemma load_run w :
  store_ok (mem w) →
  load_post w (ifaces (mem w)) (ips (mem w)) (bufs (mem w)) (next_loc (mem w))
    (allocs (mem w)) (load_ipx_interfaces w).
Proof.
  intros (Hbi & Hba & Hbf).
  destruct (mem w) as [hi ha bf n k] eqn:Hmem. simpl in *.
  rewrite (with_mem w _ _ _ _ _ Hmem) at 2.
  by apply load_ipx_interfaces_ok.
Qed.

(** C3, as stated, fails: NULL is returned when the allocation of an
    interface is refused, and NULL is what a build that finds no adapter
    returns; the caller cannot tell the two apart. *)
Lemma out_of_memory_looks_like_no_adapter :
  refused_at 3 3 = false
  ∧ result (load_ipx_interfaces
              (boot 2 (refused_at 3) clock_100_200 [ReplyAdapters lan [tunnel; bare]]))
    = Some None
  ∧ result (load_ipx_interfaces (boot 2 granted clock_100_200 [ReplyNoData]))
    = Some None.
Proof. vm_compute. repeat split; reflexivity. Qed.

(** When it is the allocation of a binding that is refused, the loop goes
    on with the interface that it has just freed. *)
Example refused_binding_faults :
  load_ipx_interfaces
    (boot 2 (refused_at 2) clock_100_200 [ReplyAdapters lan [tunnel; bare]])
  = Fault InvalidPointer.
Proof. vm_compute. reflexivity. Qed.

(** The early return does not free the buffer of adapters. *)
Example refused_interface_leaks_buffer :
  bufs (mem (exec load_ipx_interfaces
               (boot 2 (refused_at 3) clock_100_200 [ReplyAdapters lan [tunnel; bare]])))
  = {[0]}
  ∧ bufs (mem (exec load_ipx_interfaces
                 (boot 2 granted clock_100_200 [ReplyAdapters lan [tunnel; bare]])))
    = ∅.
Proof. split; apply set_eq; intros x; vm_compute; tauto. Qed.

(** C3, amended: if the allocation of an interface is refused during a
    build (the allocations before it having been granted), the build stops
    there, the interfaces built so far are released with their bindings,
    and NULL is returned, which is also the value of an empty list. *)
Theorem refused_interface_aborts_build w a rest sc' k' :
  store_ok (mem w) →
  os_script w = ReplyAdapters a rest :: sc' →
  alloc_ok w (allocs (mem w)) = true →
  build (alloc_ok w) (get_iface_config w) (get_primary_iface w)
    (S (allocs (mem w))) [] (a :: rest) = OutOfMemory k' →
  ∃ w', load_ipx_interfaces w = Ok None w'
      ∧ ifaces (mem w') = ifaces (mem w)
      ∧ ips (mem w') = ips (mem w)
      ∧ read_ifaces (mem w') None = Some [].
Proof.
  intros Hstore Hsc Hok Hbuild. pose proof (load_run w Hstore) as Hrun.
  destruct Hstore as (Hbi & Hba & _).
  unfold load_post in Hrun. rewrite Hsc in Hrun. simpl in Hrun.
  rewrite Hok, Hbuild in Hrun.
  destruct Hrun as (lg & hi' & ha' & n' & Hrun & _ & _ & _ & Hfi & Hfa & Hri & Hra).
  eexists. split; [exact Hrun|]. simpl. split_and!.
  - apply map_eq. intros y. destruct (decide (y ≤ next_loc (mem w))) as [Hy|Hy].
    + by apply Hfi.
    + rewrite Hri by lia. symmetry. destruct (ifaces (mem w) !! y) eqn:E; [|done].
      assert (y < next_loc (mem w)); [|lia]. apply Hbi. by rewrite E.
  - apply map_eq. intros y. destruct (decide (y ≤ next_loc (mem w))) as [Hy|Hy].
    + by apply Hfa.
    + rewrite Hra by lia. symmetry. destruct (ips (mem w) !! y) eqn:E; [|done].
      assert (y < next_loc (mem w)); [|lia]. apply Hba. by rewrite E.
  - unfold read_ifaces. simpl. by destruct (size _).
Qed.

Lemma store_ok_boot primary ok clk script : store_ok (mem (boot primary ok clk script)).
Proof. by destruct (cache_inv_boot primary ok clk script). Qed.

Lemma refused_interface_aborts_build_witness :
  ∃ w', load_ipx_interfaces
          (boot 2 (refused_at 3) clock_100_200 [ReplyAdapters lan [tunnel; bare]])
        = Ok None w'
      ∧ ifaces (mem w') = ∅
      ∧ ips (mem w') = ∅.
Proof.
  destruct (refused_interface_aborts_build
              (boot 2 (refused_at 3) clock_100_200 [ReplyAdapters lan [tunnel; bare]])
              lan [tunnel; bare] [] 4)
    as (w' & H1 & H2 & H3 & _).
  - apply store_ok_boot.
  - reflexivity.
  - reflexivity.
  - vm_compute. reflexivity.
  - exists w'. split; [exact H1|]. split; [exact H2|exact H3].
Defined.

(** *** What NULL stands for *)

(** C4, as stated, fails: the builder returns NULL both when there is no
    adapter and when the enumeration fails, and [ipx_interface_by_addr]
    returns NULL both when no interface has the address and when the
    interface that has it cannot be copied for want of memory. *)
Lemma null_conflates_absence_and_failure :
  result (load_ipx_interfaces (boot 2 granted clock_100_200 [ReplyNoData]))
  = result (load_ipx_interfaces (boot 2 granted clock_100_200 [ReplyFailure 31]))
  ∧ snapshot (filled 11) = Some [i_tunnel; i_lan; i_bare]
  ∧ find_addr 0x99 0x99 [i_tunnel; i_lan; i_bare] = None
  ∧ find_addr 0x11 0xAA [i_tunnel; i_lan; i_bare] = Some i_lan
  ∧ result (ipx_interface_by_addr 0x99 0x99 (filled 11)) = Some None
  ∧ result (ipx_interface_by_addr 0x11 0xAA (filled 11)) = Some None.
Proof. vm_compute. repeat split; reflexivity. Qed.

Lemma load_none w k' sc' :
  store_ok (mem w) →
  sys (alloc_ok w) (allocs (mem w)) (os_script w) = SysNone k' sc' →
  ∃ w', load_ipx_interfaces w = Ok None w' ∧ os_script w' = sc'
      ∧ ifaces (mem w') = ifaces (mem w) ∧ ips (mem w') = ips (mem w).
Proof.
  intros Hstore Hsys. pose proof (load_run w Hstore) as Hrun.
  unfold load_post in Hrun. rewrite Hsys in Hrun.
  destruct Hrun as (lg & n' & _ & Hrun). eexists. by split; [exact Hrun|].
Qed.

Lemma read_iface_copy w1 L v r w' :
  single_post w1 L (Some v) (Ok r w') → read_iface (mem w') r = Some v.
Proof.
  intros (w2 & q & ils & shc & Heq & _ & _ & _ & _ & _ & Hi & _ & Hl & _).
  injection Heq as -> ->. unfold read_iface. simpl.
  rewrite Hi, lookup_insert_eq. simpl. unfold iface_view. simpl.
  erewrite ip_list_read by exact Hl. simpl. by destruct v.
Qed.

(** C4, amended: when the operating system reports no adapters the builder
    returns NULL, which is the empty list, and it returns the same NULL
    when the enumeration fails; [ipx_interface_by_addr] returns a copy of
    the first interface of the cache with the network and node numbers
    asked for, and NULL when there is none (allocations being granted). *)
Theorem null_is_the_empty_answer w L net node :
  cache_inv w → all_ok w → list_spec w = Some L →
  (∀ sc', os_script w = ReplyNoData :: sc'
          ∨ (∃ code, os_script w = ReplyFailure code :: sc') →
     ∃ w', load_ipx_interfaces w = Ok None w'
         ∧ read_ifaces (mem w') None = Some []
         ∧ os_script w' = sc')
  ∧ ∃ r w', ipx_interface_by_addr net node w = Ok r w'
          ∧ read_iface (mem w') r = find_addr net node L
          ∧ (r = None ↔ find_addr net node L = None).
Proof.
  intros Hinv Hall Hspec. split.
  - intros sc' Hsc.
    destruct (load_none w (S (allocs (mem w))) sc') as (w' & Hrun & Hsc' & _).
    + by destruct Hinv.
    + destruct Hsc as [->|[code ->]]; simpl; by rewrite (Hall (allocs (mem w))) by lia.
    + exists w'. split_and!; [done| |done].
      unfold read_ifaces. simpl. by destruct (size _).
  - destruct (ipx_interface_by_addr_ok w L net node Hinv Hall Hspec) as (w1 & _ & Hpost).
    destruct (find_addr net node L) as [v|] eqn:Hfind.
    + pose proof Hpost as (w' & q & ils & shc & Heq & _).
      rewrite Heq in Hpost. eexists _, w'. split; [exact Heq|]. split.
      * by eapply read_iface_copy.
      * by split.
    + simpl in Hpost. exists None, w1. by split_and!.
Qed.

Lemma null_is_the_empty_answer_witness :
  (∃ w', load_ipx_interfaces (boot 2 granted clock_100_200 [ReplyNoData]) = Ok None w'
       ∧ os_script w' = [])
  ∧ ∃ r w', ipx_interface_by_addr 0x11 0xAA (boot 2 granted clock_100_200 [ReplyNoData])
            = Ok r w'
          ∧ r = None.
Proof.
  destruct (null_is_the_empty_answer (boot 2 granted clock_100_200 [ReplyNoData])
              [] 0x11 0xAA) as [Hload (r & w' & Hrun & _ & Hnone)].
  - apply cache_inv_boot.
  - intros j _. reflexivity.
  - vm_compute. reflexivity.
  - split.
    + destruct (Hload []) as (w1 & H1 & _ & H2); [by left|]. by exists w1.
    + exists r, w'. split; [exact Hrun|]. by apply Hnone.
Defined.

(** *** The list that a build returns *)

Lemma filter_primary cfg primary (V : list IP_ADAPTER_INFO) :
  filter (λ v, hardware_address v = primary) (interface_of cfg <$> V)
  = interface_of cfg <$> filter (λ ad, addr48_in (Address ad) = primary) V.
Proof.
  induction V as [|ad V IH]; [done|]. rewrite fmap_cons, !filter_cons. simpl.
  destruct (decide _); by rewrite IH.
Qed.

Lemma filter_others cfg primary (V : list IP_ADAPTER_INFO) :
  filter (λ v, hardware_address v ≠ primary) (interface_of cfg <$> V)
  = interface_of cfg <$> filter (λ ad, addr48_in (Address ad) ≠ primary) V.
Proof.
  induction V as [|ad V IH]; [done|]. rewrite fmap_cons, !filter_cons. simpl.
  destruct (decide _); by rewrite IH.
Qed.

Lemma foldl_place_arrange cfg primary V :
  foldl (place primary) [] (interface_of cfg <$> V) = interface_of cfg <$> arrange primary V.
Proof.
  rewrite foldl_place. simpl. unfold arrange. rewrite fmap_app, fmap_reverse.
  by rewrite filter_primary, filter_others.
Qed.

Lemma arrange_perm primary V : arrange primary V ≡ₚ V.
Proof.
  unfold arrange. rewrite reverse_Permutation.
  induction V as [|ad V IH]; [done|]. rewrite !filter_cons.
  destruct (decide (addr48_in (Address ad) = primary)) as [Hp|Hp].
  - rewrite decide_False by (intros Hn; by apply Hn). simpl. by rewrite IH.
  - rewrite decide_True by done. rewrite <- Permutation_middle. by rewrite IH.
Qed.

Lemma load_visited w a rest sc' V :
  store_ok (mem w) → all_ok w →
  os_script w = ReplyAdapters a rest :: sc' →
  visited (get_iface_config w) (a :: rest) = Some V →
  ∃ q w', load_ipx_interfaces w = Ok q w'
        ∧ read_ifaces (mem w') q
          = Some (interface_of (get_iface_config w) <$> arrange (get_primary_iface w) V)
        ∧ os_script w' = sc'.
Proof.
  intros Hstore Hall Hsc Hvis. pose proof (load_run w Hstore) as Hrun.
  unfold load_post in Hrun. rewrite Hsc in Hrun. simpl in Hrun.
  rewrite (Hall (allocs (mem w))) in Hrun by lia.
  pose proof (build_all_ok (alloc_ok w) (get_iface_config w) (get_primary_iface w)
                (length (a :: rest)) (a :: rest) ltac:(lia) (S (allocs (mem w))) []
                ltac:(intros; apply Hall; lia)) as Hbuild.
  rewrite Hvis in Hbuild. destruct Hbuild as [k' Hbuild]. rewrite Hbuild in Hrun.
  destruct Hrun as (lg & hi' & ha' & sh & q & n' & Hrun & _ & _ & _ & _ & _ & Hl & _).
  eexists q, _. split; [exact Hrun|]. split; [|done].
  rewrite <- foldl_place_arrange. by eapply iface_list_read.
Qed.

(** *** The Hamachi correction *)

(** C5: every adapter that the build reaches gets an interface, and the
    node number of the interface is this: when the configured node number
    is 7A:79:00:00:00:00 and the adapter has an entry with an address, the
    two high bytes are 7A:79 and the four low bytes are the address of
    the first such entry; an interface without an address, or with
    another configured node number, keeps the configured node number. *)
Theorem hamachi_node_is_corrected w a rest sc' V :
  store_ok (mem w) → all_ok w →
  os_script w = ReplyAdapters a rest :: sc' →
  visited (get_iface_config w) (a :: rest) = Some V →
  ∃ q w' L Vs, load_ipx_interfaces w = Ok q w'
    ∧ read_ifaces (mem w') q = Some L
    ∧ Vs ≡ₚ V
    ∧ Forall2 (λ ad v,
        hardware_address v = addr48_in (Address ad)
        ∧ let configured := nodenum (get_iface_config w (addr48_in (Address ad))) in
          match filter (λ e, IpAddress e ≠ 0%Z) (IpAddressList ad :: IpAddressNext ad) with
          | first :: _ =>
              if decide (configured = 0x7A7900000000)%Z
              then node_number v = (0x7A79 * 2 ^ 32 + IpAddress first mod 2 ^ 32)%Z
              else node_number v = configured
          | [] => node_number v = configured
          end)
        Vs L
    ∧ ∀ v, v ∈ L →
        let configured := nodenum (get_iface_config w (hardware_address v)) in
        match addresses v with
        | first :: _ =>
            if decide (configured = 0x7A7900000000)%Z
            then node_number v = (0x7A79 * 2 ^ 32 + address first mod 2 ^ 32)%Z
            else node_number v = configured
        | [] => node_number v = configured
        end.
Proof.
  intros Hstore Hall Hsc Hvis.
  destruct (load_visited w a rest sc' V Hstore Hall Hsc Hvis) as (q & w' & Hrun & Hread & _).
  eexists q, w', _, (arrange (get_primary_iface w) V).
  split; [exact Hrun|]. split; [exact Hread|]. split; [apply arrange_perm|]. split.
  - apply Forall2_fmap_r, Forall_Forall2_diag, Forall_forall. intros ad _.
    split; [done|]. unfold interface_of, adapter_bindings, bindings_of. cbn [node_number].
    destruct (filter _ _) as [|first ?]; [done|]. simpl.
    rewrite addr48_in_hamachi_bug. destruct (decide _); [|done].
    rewrite hamachi_node_number. lia.
  - intros v Hv. apply list_elem_of_fmap in Hv as (ad & -> & _).
    unfold interface_of. simpl. destruct (adapter_bindings ad) as [|first ?]; [done|].
    rewrite addr48_in_hamachi_bug. destruct (decide _); [|done].
    rewrite hamachi_node_number. lia.
Qed.

Lemma hamachi_node_is_corrected_witness :
  ∃ q w' L,
    load_ipx_interfaces (boot 2 granted clock_100_200 [ReplyAdapters lan [tunnel; bare]])
    = Ok q w'
    ∧ read_ifaces (mem w') q = Some L
    ∧ ∃ v, v ∈ L ∧ hardware_address v = 2%Z ∧ node_number v = 0x7A790A000005%Z.
Proof.
  destruct (hamachi_node_is_corrected
              (boot 2 granted clock_100_200 [ReplyAdapters lan [tunnel; bare]])
              lan [tunnel; bare] [] [lan; tunnel; bare])
    as (q & w' & L & Vs & Hrun & Hread & Hperm & Hnode & _).
  - apply store_ok_boot.
  - intros j _. reflexivity.
  - reflexivity.
  - reflexivity.
  - exists q, w', L. split; [exact Hrun|]. split; [exact Hread|].
    assert (tunnel ∈ Vs) as Hin.
    { rewrite Hperm. right. left. }
    apply list_elem_of_lookup in Hin as [i Hi].
    destruct (Forall2_lookup_l _ _ _ _ _ Hnode Hi) as (v & Hv & Hhw & Hn).
    exists v. split; [by eapply list_elem_of_lookup_2|]. split; [exact Hhw|exact Hn].
Defined.

(** *** The place of the primary interface *)

(** C6, as stated, fails: an adapter with the primary hardware address
    that the configuration disables has no interface, so that another one
    is first; and of two adapters with the primary hardware address the
    interface of the first one is second. *)
Lemma primary_adapter_not_at_index_0 :
  addr48_in (Address off) = 3%Z
  ∧ result (run_list load_ipx_interfaces
              (boot 3 granted clock_100_200 [ReplyAdapters lan [off; bare]]))
    = Some (Some [i_lan])
  ∧ addr48_in (Address lan) = 1%Z
  ∧ result (run_list load_ipx_interfaces
              (boot 1 granted clock_100_200 [ReplyAdapters lan [bare; twin]]))
    = Some (Some [i_twin; i_lan; i_bare]).
Proof. vm_compute. repeat split; reflexivity. Qed.

Lemma filter_none {A} (P : A → Prop) `{∀ x, Decision (P x)} (l : list A) :
  Forall (λ x, ¬ P x) l → filter P l = [].
Proof.
  induction 1 as [|x l Hx _ IH]; [done|]. by rewrite filter_cons_False.
Qed.

Lemma filter_all {A} (P : A → Prop) `{∀ x, Decision (P x)} (l : list A) :
  Forall P l → filter P l = l.
Proof.
  induction 1 as [|x l Hx _ IH]; [done|]. rewrite filter_cons_True by done. by rewrite IH.
Qed.

Lemma arrange_others primary V :
  filter (λ ad, addr48_in (Address ad) ≠ primary) (arrange primary V)
  = filter (λ ad, addr48_in (Address ad) ≠ primary) V.
Proof.
  unfold arrange. rewrite filter_app, filter_none, filter_all; [done| |].
  - apply Forall_forall. intros x Hx. by apply list_elem_of_filter in Hx as [? _].
  - apply Forall_forall. intros x Hx. rewrite elem_of_reverse in Hx.
    apply list_elem_of_filter in Hx as [Hp _]. intros Hn. by apply Hn.
Qed.

Lemma arrange_head primary V ad :
  ad ∈ V → addr48_in (Address ad) = primary →
  ∃ x l, arrange primary V = x :: l ∧ addr48_in (Address x) = primary.
Proof.
  intros Hin Hp. unfold arrange.
  destruct (reverse (filter _ V)) as [|x l] eqn:E.
  - assert (ad ∈ reverse (filter (λ ad, addr48_in (Address ad) = primary) V)) as Hc.
    { rewrite elem_of_reverse. by apply list_elem_of_filter. }
    rewrite E in Hc. by apply elem_of_nil in Hc.
  - exists x, (l ++ filter (λ ad, addr48_in (Address ad) ≠ primary) V). split; [done|].
    assert (x ∈ reverse (filter (λ ad, addr48_in (Address ad) = primary) V)) as Hx.
    { rewrite E. left. }
    rewrite elem_of_reverse in Hx. by apply list_elem_of_filter in Hx as [? _].
Qed.

(** C6, amended: the fresh list holds the interfaces of the adapters that
    the loop builds; if one of them has the primary hardware address, the
    first interface of the list has it (the one of the last such adapter),
    and the interfaces with another hardware address are in the order of
    their adapters. *)
Theorem primary_interface_leads w a rest sc' V :
  store_ok (mem w) → all_ok w →
  os_script w = ReplyAdapters a rest :: sc' →
  visited (get_iface_config w) (a :: rest) = Some V →
  ∃ q w' L, load_ipx_interfaces w = Ok q w'
    ∧ read_ifaces (mem w') q = Some L
    ∧ L = interface_of (get_iface_config w) <$>
            (reverse (filter (λ ad, addr48_in (Address ad) = get_primary_iface w) V)
             ++ filter (λ ad, addr48_in (Address ad) ≠ get_primary_iface w) V)
    ∧ (∀ ad, ad ∈ V → addr48_in (Address ad) = get_primary_iface w →
         ∃ v0 L', L = v0 :: L' ∧ hardware_address v0 = get_primary_iface w)
    ∧ filter (λ v, hardware_address v ≠ get_primary_iface w) L
      = interface_of (get_iface_config w) <$>
          filter (λ ad, addr48_in (Address ad) ≠ get_primary_iface w) V.
Proof.
  intros Hstore Hall Hsc Hvis.
  destruct (load_visited w a rest sc' V Hstore Hall Hsc Hvis) as (q & w' & Hrun & Hread & _).
  eexists q, w', _. split; [exact Hrun|]. split; [exact Hread|]. split_and!.
  - done.
  - intros ad Hin Hp.
    destruct (arrange_head _ V ad Hin Hp) as (x & l & -> & Hx).
    by eexists _, _.
  - by rewrite filter_others, arrange_others.
Qed.

Lemma primary_interface_leads_witness :
  ∃ q w' L,
    load_ipx_interfaces (boot 2 granted clock_100_200 [ReplyAdapters lan [tunnel; bare]])
    = Ok q w'
    ∧ read_ifaces (mem w') q = Some L
    ∧ L = [i_tunnel; i_lan; i_bare].
Proof.
  destruct (primary_interface_leads
              (boot 2 granted clock_100_200 [ReplyAdapters lan [tunnel; bare]])
              lan [tunnel; bare] [] [lan; tunnel; bare])
    as (q & w' & L & Hrun & Hread & HL & _).
  - apply store_ok_boot.
  - intros j _. reflexivity.
  - reflexivity.
  - reflexivity.
  - exists q, w', L. split; [exact Hrun|]. split; [exact Hread|]. exact HL.
Defined.

(** *** The bindings of an interface *)

(** C7: the fresh list has one interface for each adapter that the loop
    builds; its bindings are those of the address entries of the adapter
    whose address is not 0.0.0.0, in the order of the entries, each with
    the broadcast address [address | ~netmask]; an adapter all of whose
    entries are dropped has an interface without bindings. *)
Theorem bindings_follow_address_entries w a rest sc' V :
  store_ok (mem w) → all_ok w →
  os_script w = ReplyAdapters a rest :: sc' →
  visited (get_iface_config w) (a :: rest) = Some V →
  ∃ q w' L Vs, load_ipx_interfaces w = Ok q w'
    ∧ read_ifaces (mem w') q = Some L
    ∧ Vs ≡ₚ V
    ∧ Forall2 (λ ad v,
        hardware_address v = addr48_in (Address ad)
        ∧ addresses v
          = (λ e, mk_address (IpAddress e) (IpMask e)
                    (Z.lor (IpAddress e) (not32 (IpMask e))))
            <$> filter (λ e, IpAddress e ≠ 0%Z) (IpAddressList ad :: IpAddressNext ad))
        Vs L.
Proof.
  intros Hstore Hall Hsc Hvis.
  destruct (load_visited w a rest sc' V Hstore Hall Hsc Hvis) as (q & w' & Hrun & Hread & _).
  eexists q, w', _, (arrange (get_primary_iface w) V).
  split; [exact Hrun|]. split; [exact Hread|]. split; [apply arrange_perm|].
  apply Forall2_fmap_r, Forall_Forall2_diag, Forall_forall. by intros ad _.
Qed.

Lemma bindings_follow_address_entries_witness :
  ∃ q w' L Vs,
    load_ipx_interfaces (boot 2 granted clock_100_200 [ReplyAdapters lan [tunnel; bare]])
    = Ok q w'
    ∧ read_ifaces (mem w') q = Some L
    ∧ Vs ≡ₚ [lan; tunnel; bare]
    ∧ Forall2 (λ ad v,
        hardware_address v = addr48_in (Address ad)
        ∧ addresses v
          = (λ e, mk_address (IpAddress e) (IpMask e)
                    (Z.lor (IpAddress e) (not32 (IpMask e))))
            <$> filter (λ e, IpAddress e ≠ 0%Z) (IpAddressList ad :: IpAddressNext ad))
        Vs L.
Proof.
  apply (bindings_follow_address_entries
           (boot 2 granted clock_100_200 [ReplyAdapters lan [tunnel; bare]])
           lan [tunnel; bare] [] [lan; tunnel; bare]).
  - apply store_ok_boot.
  - intros j _. reflexivity.
  - reflexivity.
  - reflexivity.
Defined.

(** The example of the broadcast address, and an adapter without a bound
    address. *)
Example bindings_of_lan_and_bare :
  adapter_bindings lan = [mk_address 0xC0A8010A 0xFFFFFF00 0xC0A801FF]
  ∧ adapter_bindings tunnel = [mk_address 0x0A000005 0xFF000000 0x0AFFFFFF]
  ∧ adapter_bindings bare = []
  ∧ result (run_list load_ipx_interfaces
              (boot 2 granted clock_100_200 [ReplyAdapters bare []]))
    = Some (Some [i_bare]).
Proof. vm_compute. repeat split; reflexivity. Qed.

(** ** What a caller holds *)

Lemma list_spec_set_mem w s :
  allocs s = allocs (mem w) →
  read_ifaces s (interface_cache w) = snapshot w →
  list_spec (set_mem s w) = list_spec w.
Proof.
  intros Hk Hsnap. unfold list_spec.
  destruct (decide (stale (set_mem s w))) as [H1|H1], (decide (stale w)) as [H2|H2];
    try done.
  unfold rebuild_spec. simpl. by rewrite Hk.
Qed.

Lemma answers_ok w L : cache_inv w → all_ok w → list_spec w = Some L → answers w L.
Proof.
  intros Hinv Hall Hspec. split_and!.
  - destruct (get_ipx_interfaces_spec w L Hinv Hall Hspec) as (q & w' & ? & ? & _).
    by exists q, w'.
  - intros index.
    destruct (ipx_interface_by_index_ok w L index Hinv Hall Hspec) as (w1 & _ & Hpost).
    destruct (nth_from index 0 L) as [v|] eqn:Hsel.
    + pose proof Hpost as (w' & q & ils & shc & Heq & _).
      rewrite Heq in Hpost. eexists _, w'. split; [exact Heq|]. by eapply read_iface_copy.
    + simpl in Hpost. by exists None, w1.
  - intros net node.
    destruct (ipx_interface_by_addr_ok w L net node Hinv Hall Hspec) as (w1 & _ & Hpost).
    destruct (find_addr net node L) as [v|] eqn:Hsel.
    + pose proof Hpost as (w' & q & ils & shc & Heq & _).
      rewrite Heq in Hpost. eexists _, w'. split; [exact Heq|]. by eapply read_iface_copy.
    + simpl in Hpost. by exists None, w1.
Qed.

(** The cache does not feel what is done to records above its own. *)
Lemma isolation w' q w2 shc L m :
  store_ok (mem w') → all_ok w' →
  iface_list (ifaces (mem w')) (ips (mem w')) (interface_cache w') shc L →
  sh_below m shc →
  (∀ x, x ∈ iface_cells (mem w') q → m ≤ x) →
  (∀ x, x ∈ ip_cells (mem w') q → m ≤ x) →
  tampered w' q w2 →
  cache_inv w2 ∧ all_ok w2 ∧ list_spec w2 = list_spec w'.
Proof.
  intros (Hbi & Hba & Hbf) Hall Hlc [Hb1 Hb2] Hq1 Hq2 (Hw2 & Hn & Hk & Hbufs & Hfi & Hfa).
  assert (interface_cache w2 = interface_cache w') as Hcache by (by rewrite Hw2).
  assert (∀ y, y ∈ shc.*1 → ifaces (mem w2) !! y = ifaces (mem w') !! y) as Hsame.
  { intros y Hy. apply Hfi. intros Hin. apply Hq1 in Hin. apply Hb1 in Hy. lia. }
  assert (∀ z, z ∈ concat shc.*2 → ips (mem w2) !! z = ips (mem w') !! z) as Hsame'.
  { intros z Hz. apply Hfa. intros Hin. apply Hq2 in Hin. apply Hb2 in Hz. lia. }
  assert (iface_list (ifaces (mem w2)) (ips (mem w2)) (interface_cache w2) shc L) as Hlc2.
  { rewrite Hcache. pose proof Hlc as (Hd & Hnd & Hf).
    eapply iface_list_ext; [| | |exact Hlc].
    - eapply dll_ext; [| |exact Hd].
      + intros y Hy. unfold nextf. by rewrite Hsame.
      + intros y Hy. unfold prevf. rewrite Hsame; [done|].
        destruct Hd as (_ & Hc & _). apply chain_head in Hc. rewrite Hy in Hc.
        destruct shc.*1; [done|]. injection Hc as ->. left.
    - intros y Hy. unfold bodyf. by rewrite Hsame.
    - done. }
  split_and!.
  - split.
    + split_and!.
      * intros y Hy. rewrite Hn.
        destruct (decide (y ∈ iface_cells (mem w') q)) as [Hin|Hin].
        -- apply Hbi. by eapply chain_locs_live.
        -- apply Hbi. by rewrite <- Hfi.
      * intros z Hz. rewrite Hn.
        destruct (decide (z ∈ ip_cells (mem w') q)) as [Hin|Hin].
        -- apply Hba. by eapply ip_cells_live.
        -- apply Hba. by rewrite <- Hfa.
      * intros x Hx. rewrite Hn. apply Hbf. by rewrite <- Hbufs.
    + by exists shc, L.
  - intros j Hj. rewrite Hw2. simpl. apply Hall. lia.
  - rewrite Hw2. apply list_spec_set_mem; [done|].
    rewrite <- Hcache. erewrite iface_list_read by exact Hlc2.
    symmetry. by eapply snapshot_of_list.
Qed.

Lemma independent_intro w w' q shc L m :
  next_loc (mem w) ≤ m →
  store_ok (mem w') → all_ok w' →
  iface_list (ifaces (mem w')) (ips (mem w')) (interface_cache w') shc L →
  sh_below m shc →
  (∀ x, x ∈ iface_cells (mem w') q → m ≤ x) →
  (∀ x, x ∈ ip_cells (mem w') q → m ≤ x) →
  independent w w' q.
Proof.
  intros Hm Hstore Hall Hlc Hbelow Hq1 Hq2.
  destruct (cells_of_iface_list _ _ _ _ Hlc) as [Hc1 Hc2].
  pose proof Hbelow as [Hb1 Hb2]. split_and!.
  - intros x Hx. apply Hq1 in Hx. split; [lia|]. rewrite Hc1. intros Hin.
    apply Hb1 in Hin. lia.
  - intros x Hx. apply Hq2 in Hx. split; [lia|]. rewrite Hc2. intros Hin.
    apply Hb2 in Hin. lia.
  - intros w2 L2 Htamper Hspec.
    destruct (isolation w' q w2 shc L m Hstore Hall Hlc Hbelow Hq1 Hq2 Htamper)
      as (Hinv2 & Hall2 & Hspec2).
    split.
    + apply answers_ok; [|done|done]. split; [done|]. by exists shc, L.
    + apply answers_ok; [done|done|congruence].
Qed.

Lemma single_independent w w1 L ov r w' :
  cache_inv w1 → all_ok w1 → snapshot w1 = Some L →
  next_loc (mem w) ≤ next_loc (mem w1) →
  single_post w1 L ov (Ok r w') →
  snapshot w' = Some L ∧ independent w w' r.
Proof.
  intros Hinv1 Hall1 Hsnap1 Hn Hpost. destruct ov as [v|]; simpl in Hpost.
  - destruct Hpost as (w2 & q & ils & shc & Heq & Hw' & Hstore & _ & Hk & _ & Hi & _ & Hl
                         & Hfresh & Hlc & Hbelow).
    injection Heq as -> <-.
    assert (interface_cache w' = interface_cache w1) as Hc by (by rewrite Hw').
    rewrite <- Hc in Hlc. split; [by eapply snapshot_of_list|].
    destruct (cells_of_list (mem w') (Some (next_loc (mem w1)))
                [(next_loc (mem w1), ils)] [v]) as [Hc1 Hc2].
    { apply NoDup_singleton. }
    { simpl. split; [done|]. exists None. split; [|done].
      unfold nextf. by rewrite Hi, lookup_insert_eq. }
    { constructor; [|constructor]. simpl. eexists. rewrite Hi, lookup_insert_eq.
      by split_and!. }
    simpl in Hc1, Hc2. rewrite app_nil_r in Hc2.
    eapply (independent_intro _ _ _ shc L (next_loc (mem w1))); try done.
    + intros j Hj. rewrite Hw'. simpl. apply Hall1. lia.
    + intros x Hx. rewrite Hc1 in Hx. apply list_elem_of_singleton in Hx. lia.
    + intros x Hx. rewrite Hc2 in Hx. apply Hfresh in Hx. lia.
  - injection Hpost as -> ->. split; [done|].
    pose proof Hinv1 as (Hstore & shc & L1 & Hlc).
    assert (L1 = L) as ->.
    { erewrite snapshot_of_list in Hsnap1 by done. congruence. }
    pose proof Hstore as (Hbi & Hba & _).
    eapply (independent_intro _ _ _ shc L (next_loc (mem w1))); try done.
    + by eapply iface_list_below.
    + intros x Hx. unfold iface_cells in Hx. rewrite chain_locs_None in Hx.
      by apply elem_of_nil in Hx.
    + intros x Hx. unfold ip_cells, iface_cells in Hx. rewrite chain_locs_None in Hx.
      by apply elem_of_nil in Hx.
Qed.

(** C9: what a query hands out is a copy of what the cache holds, with
    the same fields and the same bindings in the same order; its records
    were allocated by the call and none of them belongs to the cache, so
    that writing to them or freeing them changes no later answer. *)
Theorem copies_are_independent w L index net node :
  cache_inv w → all_ok w → list_spec w = Some L →
  (∃ q w', get_ipx_interfaces w = Ok q w'
         ∧ read_ifaces (mem w') q = Some L
         ∧ snapshot w' = Some L
         ∧ independent w w' q)
  ∧ (∃ r w', ipx_interface_by_index index w = Ok r w'
           ∧ read_iface (mem w') r = nth_from index 0 L
           ∧ snapshot w' = Some L
           ∧ independent w w' r)
  ∧ (∃ r w', ipx_interface_by_addr net node w = Ok r w'
           ∧ read_iface (mem w') r = find_addr net node L
           ∧ snapshot w' = Some L
           ∧ independent w w' r).
Proof.
  intros Hinv Hall Hspec.
  destruct (renew_ok w L Hinv Hspec) as (w1 & Hrenew & Hinv1 & Hsnap1 & Henv & Hk & Hn & _).
  pose proof (all_ok_mono _ _ Henv Hk Hall) as Hall1.
  destruct (answers_ok w L Hinv Hall Hspec) as (_ & Hidx & Haddr).
  split_and!.
  - destruct (get_ipx_interfaces_ok w L Hinv Hall Hspec)
      as (w1' & q & w' & shc & sh & Hrenew' & Hget & Hw' & Hstore & Hk' & Hn' & Hbufs &
          Hlc & Hbelow & Hl & Habove).
    rewrite Hrenew in Hrenew'. injection Hrenew' as <-.
    assert (interface_cache w' = interface_cache w1) as Hc by (by rewrite Hw').
    rewrite <- Hc in Hlc.
    destruct (cells_of_iface_list _ _ _ _ Hl) as [Hc1 Hc2]. destruct Habove as [Ha1 Ha2].
    exists q, w'. split_and!; try done.
    + by eapply iface_list_read.
    + by eapply snapshot_of_list.
    + eapply (independent_intro _ _ _ shc L (next_loc (mem w1))); try done.
      * intros j Hj. rewrite Hw'. simpl. apply Hall1. lia.
      * intros x Hx. rewrite Hc1 in Hx. by apply Ha1.
      * intros x Hx. rewrite Hc2 in Hx. by apply Ha2.
  - destruct (ipx_interface_by_index_ok w L index Hinv Hall Hspec) as (w1' & Hrenew' & Hpost).
    rewrite Hrenew in Hrenew'. injection Hrenew' as <-.
    destruct (Hidx index) as (r & w' & Hrun & Hread). rewrite Hrun in Hpost.
    destruct (single_independent w w1 L _ r w' Hinv1 Hall1 Hsnap1 Hn Hpost) as [? ?].
    by exists r, w'.
  - destruct (ipx_interface_by_addr_ok w L net node Hinv Hall Hspec)
      as (w1' & Hrenew' & Hpost).
    rewrite Hrenew in Hrenew'. injection Hrenew' as <-.
    destruct (Haddr net node) as (r & w' & Hrun & Hread). rewrite Hrun in Hpost.
    destruct (single_independent w w1 L _ r w' Hinv1 Hall1 Hsnap1 Hn Hpost) as [? ?].
    by exists r, w'.
Qed.

Lemma copies_are_independent_witness :
  (∃ q w', get_ipx_interfaces
             (boot 2 granted clock_from_100 [ReplyAdapters lan [tunnel; bare]]) = Ok q w'
         ∧ read_ifaces (mem w') q = Some [i_tunnel; i_lan; i_bare]
         ∧ snapshot w' = Some [i_tunnel; i_lan; i_bare]
         ∧ independent (boot 2 granted clock_from_100 [ReplyAdapters lan [tunnel; bare]]) w' q)
  ∧ (∃ r w', ipx_interface_by_index 0
               (boot 2 granted clock_from_100 [ReplyAdapters lan [tunnel; bare]]) = Ok r w'
           ∧ read_iface (mem w') r = Some i_tunnel
           ∧ snapshot w' = Some [i_tunnel; i_lan; i_bare]
           ∧ independent (boot 2 granted clock_from_100 [ReplyAdapters lan [tunnel; bare]]) w' r)
  ∧ (∃ r w', ipx_interface_by_addr 0x11 0xAA
               (boot 2 granted clock_from_100 [ReplyAdapters lan [tunnel; bare]]) = Ok r w'
           ∧ read_iface (mem w') r = Some i_lan
           ∧ snapshot w' = Some [i_tunnel; i_lan; i_bare]
           ∧ independent (boot 2 granted clock_from_100 [ReplyAdapters lan [tunnel; bare]]) w' r).
Proof.
  apply (copies_are_independent
           (boot 2 granted clock_from_100 [ReplyAdapters lan [tunnel; bare]])
           [i_tunnel; i_lan; i_bare] 0 0x11 0xAA).
  - apply cache_inv_boot.
  - intros j _. reflexivity.
  - vm_compute. reflexivity.
Defined.

Example freeing_or_writing_the_copy :
  let w := boot 2 granted clock_from_100 [ReplyAdapters lan [tunnel; bare]] in
  let list_then_free :=
    let! q := get_ipx_interfaces in
    let! _ := free_ipx_interface_list q in
    get_ipx_interfaces in
  let index_then_write :=
    let! r := ipx_interface_by_index 0 in
    let! _ := assign r scribble in
    get_ipx_interfaces in
  result (run_list list_then_free w) = Some (Some [i_tunnel; i_lan; i_bare])
  ∧ result (run_list index_then_write w) = Some (Some [i_tunnel; i_lan; i_bare]).
Proof. vm_compute. split; reflexivity. Qed.

(** ** Further properties of [load_sys_interfaces] *)

Lemma load_sys_run w :
  store_ok (mem w) →
  sys_post w (ifaces (mem w)) (ips (mem w)) (bufs (mem w)) (next_loc (mem w))
    (sys (alloc_ok w) (allocs (mem w)) (os_script w)) (load_sys_interfaces w).
Proof.
  intros (_ & _ & Hbf).
  destruct (mem w) as [hi ha bf n k] eqn:Hmem. simpl in *.
  rewrite (with_mem w _ _ _ _ _ Hmem) at 4.
  by apply load_sys_interfaces_ok.
Qed.

Lemma sys_overflows ok needs : ∀ k sc,
  (∀ j, k ≤ j < k + length needs → ok j = true) →
  sys ok k ((ReplyOverflow <$> needs) ++ sc) = sys ok (k + length needs) sc.
Proof.
  induction needs as [|x needs IH]; intros k sc Hok; simpl.
  - by rewrite Nat.add_0_r.
  - rewrite Hok by (simpl; lia). rewrite IH.
    + f_equal. lia.
    + intros j Hj. apply Hok. simpl. lia.
Qed.

(** Whatever [load_sys_interfaces] returns, it leaves the interface and
    binding records alone; when it returns NULL no buffer is left behind,
    and when it returns adapters they sit in one new buffer. *)
Theorem load_sys_interfaces_owns_one_buffer w r w' :
  store_ok (mem w) →
  load_sys_interfaces w = Ok r w' →
  ifaces (mem w') = ifaces (mem w)
  ∧ ips (mem w') = ips (mem w)
  ∧ allocs (mem w) < allocs (mem w')
  ∧ (match r with
     | None => bufs (mem w') = bufs (mem w)
     | Some (b, l) =>
         (b ∉ bufs (mem w)) ∧ bufs (mem w') = {[b]} ∪ bufs (mem w) ∧ l ≠ []
     end).
Proof.
  intros Hstore Hrun. pose proof (load_sys_run w Hstore) as Hpost.
  pose proof (sys_allocs (alloc_ok w) (os_script w) (allocs (mem w))) as Hk.
  destruct Hstore as (_ & _ & Hbf).
  assert (next_loc (mem w) ∉ bufs (mem w)) as Hfresh.
  { intros Hin. apply Hbf in Hin. lia. }
  assert (∀ sc k l k' sc', sys (alloc_ok w) k sc = SysAdapters l k' sc' → l ≠ []) as Hne.
  { induction sc as [|a sc IH]; intros k l k' sc'; simpl.
    - by destruct (alloc_ok w k).
    - destruct (alloc_ok w k); [|done]. destruct a; try done.
      + intros [= <- _ _]. done.
      + apply IH. }
  destruct (sys (alloc_ok w) (allocs (mem w)) (os_script w)) as [l k' sc'|k' sc'|] eqn:Hsys;
    simpl in Hpost.
  - rewrite Hrun in Hpost. injection Hpost as -> ->. simpl.
    split_and!; try done. by eapply Hne.
  - destruct Hpost as (lg & n' & _ & Hpost). rewrite Hrun in Hpost.
    injection Hpost as -> ->. simpl. by split_and!.
  - by rewrite Hrun in Hpost.
Qed.

Lemma load_sys_interfaces_owns_one_buffer_witness :
  ∃ w', load_sys_interfaces (boot 2 granted clock_100_200 [ReplyOverflow 9000; ReplyFailure 5])
        = Ok None w'
      ∧ bufs (mem w') = ∅.
Proof.
  eexists. split; [vm_compute; reflexivity|].
  destruct (load_sys_interfaces_owns_one_buffer
              (boot 2 granted clock_100_200 [ReplyOverflow 9000; ReplyFailure 5]) None
              (exec load_sys_interfaces
                 (boot 2 granted clock_100_200 [ReplyOverflow 9000; ReplyFailure 5])))
    as (_ & _ & _ & H).
  - apply store_ok_boot.
  - vm_compute. reflexivity.
  - exact H.
Defined.

(** As long as the operating system answers that the buffer is too small,
    [load_sys_interfaces] asks again with the same buffer, resized; the
    adapters of the first other answer are returned. *)
Theorem load_sys_interfaces_retries w needs a rest sc' :
  store_ok (mem w) →
  os_script w = (ReplyOverflow <$> needs) ++ ReplyAdapters a rest :: sc' →
  (∀ j, allocs (mem w) ≤ j ≤ allocs (mem w) + length needs → alloc_ok w j = true) →
  ∃ w', load_sys_interfaces w = Ok (Some (next_loc (mem w), a :: rest)) w'
      ∧ os_script w' = sc'
      ∧ allocs (mem w') = allocs (mem w) + length needs + 1
      ∧ bufs (mem w') = {[next_loc (mem w)]} ∪ bufs (mem w).
Proof.
  intros Hstore Hsc Hok. pose proof (load_sys_run w Hstore) as Hpost.
  rewrite Hsc, sys_overflows in Hpost by (intros; apply Hok; lia).
  simpl in Hpost. rewrite Hok in Hpost by lia. simpl in Hpost.
  eexists. split; [exact Hpost|]. simpl. split_and!; try done. lia.
Qed.

Lemma load_sys_interfaces_retries_witness :
  ∃ w', load_sys_interfaces
          (boot 2 granted clock_100_200
             [ReplyOverflow 9000; ReplyOverflow 12000; ReplyAdapters lan [bare]])
        = Ok (Some (0, [lan; bare])) w'
      ∧ os_script w' = []
      ∧ allocs (mem w') = 3
      ∧ bufs (mem w') = {[0]} ∪ ∅.
Proof.
  apply (load_sys_interfaces_retries
           (boot 2 granted clock_100_200
              [ReplyOverflow 9000; ReplyOverflow 12000; ReplyAdapters lan [bare]])
           [9000%Z; 12000%Z] lan [bare] []).
  - apply store_ok_boot.
  - reflexivity.
  - intros j _. reflexivity.
Defined.

(** When [realloc] fails, [load_sys_interfaces] gives up: the buffer it
    held is freed, NULL is returned, and the operating system is not
    asked again. *)
Theorem load_sys_interfaces_out_of_memory w needs sc :
  store_ok (mem w) →
  os_script w = (ReplyOverflow <$> needs) ++ sc →
  (∀ j, allocs (mem w) ≤ j < allocs (mem w) + length needs → alloc_ok w j = true) →
  alloc_ok w (allocs (mem w) + length needs) = false →
  ∃ w', load_sys_interfaces w = Ok None w'
      ∧ os_script w' = sc
      ∧ bufs (mem w') = bufs (mem w)
      ∧ allocs (mem w') = allocs (mem w) + length needs + 1.
Proof.
  intros Hstore Hsc Hok Hno. pose proof (load_sys_run w Hstore) as Hpost.
  rewrite Hsc, sys_overflows in Hpost by done.
  assert (sys (alloc_ok w) (allocs (mem w) + length needs) sc
          = SysNone (S (allocs (mem w) + length needs)) sc) as Hsys.
  { destruct sc; simpl; by rewrite Hno. }
  rewrite Hsys in Hpost. destruct Hpost as (lg & n' & _ & Hpost).
  eexists. split; [exact Hpost|]. simpl. split_and!; try done. lia.
Qed.

Lemma load_sys_interfaces_out_of_memory_witness :
  ∃ w', load_sys_interfaces
          (boot 2 (refused_at 1) clock_100_200 [ReplyOverflow 9000; ReplyAdapters lan [bare]])
        = Ok None w'
      ∧ os_script w' = [ReplyAdapters lan [bare]]
      ∧ bufs (mem w') = ∅
      ∧ allocs (mem w') = 2.
Proof.
  apply (load_sys_interfaces_out_of_memory
           (boot 2 (refused_at 1) clock_100_200 [ReplyOverflow 9000; ReplyAdapters lan [bare]])
           [9000%Z] [ReplyAdapters lan [bare]]).
  - apply store_ok_boot.
  - reflexivity.
  - intros j Hj. simpl in Hj. assert (j = 0) as -> by lia. reflexivity.
  - reflexivity.
Defined.

(** ** Further properties of [load_ipx_interfaces] *)

(** The early return of [load_ipx_interfaces], taken when an interface
    cannot be allocated, does not free the buffer of adapters: it stays
    allocated, and nothing refers to it any more. *)
Theorem refused_interface_keeps_buffer w a rest sc' k' :
  store_ok (mem w) →
  os_script w = ReplyAdapters a rest :: sc' →
  alloc_ok w (allocs (mem w)) = true →
  build (alloc_ok w) (get_iface_config w) (get_primary_iface w)
    (S (allocs (mem w))) [] (a :: rest) = OutOfMemory k' →
  ∃ w', load_ipx_interfaces w = Ok None w'
      ∧ (next_loc (mem w) ∉ bufs (mem w))
      ∧ bufs (mem w') = {[next_loc (mem w)]} ∪ bufs (mem w).
Proof.
  intros Hstore Hsc Hok Hbuild. pose proof (load_run w Hstore) as Hrun.
  destruct Hstore as (_ & _ & Hbf).
  unfold load_post in Hrun. rewrite Hsc in Hrun. simpl in Hrun.
  rewrite Hok, Hbuild in Hrun.
  destruct Hrun as (lg & hi' & ha' & n' & Hrun & _).
  eexists. split; [exact Hrun|]. simpl. split; [|done].
  intros Hin. apply Hbf in Hin. lia.
Qed.

Lemma refused_interface_keeps_buffer_witness :
  ∃ w', load_ipx_interfaces
          (boot 2 (refused_at 3) clock_100_200 [ReplyAdapters lan [tunnel; bare]])
        = Ok None w'
      ∧ (0 ∉ (∅ : gset loc))
      ∧ bufs (mem w') = {[0]} ∪ ∅.
Proof.
  apply (refused_interface_keeps_buffer
           (boot 2 (refused_at 3) clock_100_200 [ReplyAdapters lan [tunnel; bare]])
           lan [tunnel; bare] [] 4).
  - apply store_ok_boot.
  - reflexivity.
  - reflexivity.
  - vm_compute. reflexivity.
Defined.

Lemma visited_enabled cfg m : ∀ l V, length l ≤ m →
  visited cfg l = Some V →
  Forall (λ ad, enabled (cfg (addr48_in (Address ad))) = true) V ∧ V ⊆ l.
Proof.
  induction m as [|m IH]; intros l V Hlen Hv.
  { destruct l; [|simpl in Hlen; lia]. injection Hv as <-. by split. }
  destruct l as [|ad Next]; [injection Hv as <-; by split|].
  simpl in Hlen, Hv. destruct (enabled _) eqn:Hen.
  - destruct (visited cfg Next) as [V'|] eqn:Hv'; [|done]. injection Hv as <-.
    destruct (IH Next V' ltac:(lia) Hv') as [Hf Hs]. split.
    + by constructor.
    + intros x Hx. apply elem_of_cons in Hx as [->|Hx]; [left|right; by apply Hs].
  - destruct Next as [|ad' Next']; [done|]. simpl in Hlen.
    destruct (IH Next' V ltac:(lia) Hv) as [Hf Hs]. split; [done|].
    intros x Hx. right. right. by apply Hs.
Qed.

Lemma visited_all_enabled cfg l :
  Forall (λ ad, enabled (cfg (addr48_in (Address ad))) = true) l →
  visited cfg l = Some l.
Proof.
  induction 1 as [|ad l Hen _ IH]; [done|]. simpl. by rewrite Hen, IH.
Qed.

Lemma visited_disabled_last cfg pre last :
  Forall (λ ad, enabled (cfg (addr48_in (Address ad))) = true) pre →
  enabled (cfg (addr48_in (Address last))) = false →
  visited cfg (pre ++ [last]) = None.
Proof.
  intros Hpre Hlast. induction Hpre as [|ad l Hen _ IH]; simpl.
  - by rewrite Hlast.
  - by rewrite Hen, IH.
Qed.

(** When the configuration disables no adapter, every adapter gets an
    interface: the adapters with the primary hardware address lead the
    list, last one first, and the others follow in their order. *)
Theorem all_enabled_adapters_are_built w a rest sc' :
  store_ok (mem w) → all_ok w →
  os_script w = ReplyAdapters a rest :: sc' →
  Forall (λ ad, enabled (get_iface_config w (addr48_in (Address ad))) = true) (a :: rest) →
  ∃ q w' L, load_ipx_interfaces w = Ok q w'
    ∧ read_ifaces (mem w') q = Some L
    ∧ L = interface_of (get_iface_config w) <$>
            (reverse (filter (λ ad, addr48_in (Address ad) = get_primary_iface w) (a :: rest))
             ++ filter (λ ad, addr48_in (Address ad) ≠ get_primary_iface w) (a :: rest))
    ∧ length L = S (length rest)
    ∧ bufs (mem w') = bufs (mem w)
    ∧ os_script w' = sc'.
Proof.
  intros Hstore Hall Hsc Hen.
  pose proof (visited_all_enabled _ _ Hen) as Hvis.
  destruct (load_visited w a rest sc' _ Hstore Hall Hsc Hvis) as (q & w' & Hrun & Hread & Hsc').
  eexists q, w', _. split; [exact Hrun|]. split; [exact Hread|]. split; [done|].
  split.
  { rewrite length_fmap. change (reverse _ ++ _) with (arrange (get_primary_iface w) (a :: rest)).
    by rewrite (Permutation_length (arrange_perm _ _)). }
  split; [|done].
  pose proof (load_run w Hstore) as Hpost.
  unfold load_post in Hpost. rewrite Hsc in Hpost. simpl in Hpost.
  rewrite (Hall (allocs (mem w))) in Hpost by lia.
  pose proof (build_all_ok (alloc_ok w) (get_iface_config w) (get_primary_iface w)
                (length (a :: rest)) (a :: rest) ltac:(lia) (S (allocs (mem w))) []
                ltac:(intros; apply Hall; lia)) as Hbuild.
  rewrite Hvis in Hbuild. destruct Hbuild as [k' Hbuild]. rewrite Hbuild in Hpost.
  destruct Hpost as (lg & hi' & ha' & sh & q' & n' & Hrun' & _).
  rewrite Hrun in Hrun'. by injection Hrun' as -> ->.
Qed.

Lemma all_enabled_adapters_are_built_witness :
  ∃ q w' L,
    load_ipx_interfaces (boot 2 granted clock_100_200 [ReplyAdapters lan [tunnel; bare]])
    = Ok q w'
    ∧ read_ifaces (mem w') q = Some L
    ∧ L = [i_tunnel; i_lan; i_bare]
    ∧ length L = 3
    ∧ bufs (mem w') = ∅
    ∧ os_script w' = [].
Proof.
  apply (all_enabled_adapters_are_built
           (boot 2 granted clock_100_200 [ReplyAdapters lan [tunnel; bare]])
           lan [tunnel; bare] []).
  - apply store_ok_boot.
  - intros j _. reflexivity.
  - reflexivity.
  - repeat constructor.
Defined.

(** Whatever list a build returns, each of its interfaces is that of an
    adapter of the enumeration that the configuration enables: a disabled
    adapter never has an interface. *)
Theorem built_interfaces_are_enabled w a rest sc' q w' L :
  store_ok (mem w) → all_ok w →
  os_script w = ReplyAdapters a rest :: sc' →
  load_ipx_interfaces w = Ok q w' →
  read_ifaces (mem w') q = Some L →
  ∀ v, v ∈ L →
    ∃ ad, ad ∈ a :: rest
        ∧ enabled (get_iface_config w (addr48_in (Address ad))) = true
        ∧ hardware_address v = addr48_in (Address ad)
        ∧ network_number v = netnum (get_iface_config w (addr48_in (Address ad)))
        ∧ addresses v = adapter_bindings ad.
Proof.
  intros Hstore Hall Hsc Hrun Hread v Hv.
  destruct (visited (get_iface_config w) (a :: rest)) as [V|] eqn:Hvis.
  - destruct (load_visited w a rest sc' V Hstore Hall Hsc Hvis)
      as (q1 & w1 & Hrun1 & Hread1 & _).
    rewrite Hrun in Hrun1. injection Hrun1 as <- <-.
    rewrite Hread in Hread1. injection Hread1 as ->.
    apply list_elem_of_fmap in Hv as (ad & -> & Had).
    rewrite (arrange_perm _ V) in Had.
    destruct (visited_enabled _ (length (a :: rest)) _ _ (le_n _) Hvis) as [Hen Hsub].
    exists ad. split; [by apply Hsub|]. split; [|done].
    rewrite Forall_forall in Hen. by apply Hen.
  - pose proof (load_run w Hstore) as Hpost.
    unfold load_post in Hpost. rewrite Hsc in Hpost. simpl in Hpost.
    rewrite (Hall (allocs (mem w))) in Hpost by lia.
    pose proof (build_all_ok (alloc_ok w) (get_iface_config w) (get_primary_iface w)
                  (length (a :: rest)) (a :: rest) ltac:(lia) (S (allocs (mem w))) []
                  ltac:(intros; apply Hall; lia)) as Hbuild.
    rewrite Hvis in Hbuild. rewrite Hbuild in Hpost. by rewrite Hrun in Hpost.
Qed.

Lemma built_interfaces_are_enabled_witness :
  ∃ ad, ad ∈ [off; lan; bare]
      ∧ enabled (config (addr48_in (Address ad))) = true
      ∧ hardware_address i_bare = addr48_in (Address ad)
      ∧ network_number i_bare = netnum (config (addr48_in (Address ad)))
      ∧ addresses i_bare = adapter_bindings ad.
Proof.
  apply (built_interfaces_are_enabled
           (boot 2 granted clock_100_200 [ReplyAdapters off [lan; bare]])
           off [lan; bare] []
           (Some 1)
           (exec load_ipx_interfaces
              (boot 2 granted clock_100_200 [ReplyAdapters off [lan; bare]]))
           [i_bare]).
  - apply store_ok_boot.
  - intros j _. reflexivity.
  - reflexivity.
  - vm_compute. reflexivity.
  - vm_compute. reflexivity.
  - left.
Defined.

(** When the last adapter of the enumeration is disabled and the loop
    gets to it, [load_ipx_interfaces] reads through a null pointer,
    whatever the adapters before it are. *)
Theorem disabled_last_adapter_always_faults w a rest pre last sc' :
  store_ok (mem w) → all_ok w →
  os_script w = ReplyAdapters a rest :: sc' →
  a :: rest = pre ++ [last] →
  Forall (λ ad, enabled (get_iface_config w (addr48_in (Address ad))) = true) pre →
  enabled (get_iface_config w (addr48_in (Address last))) = false →
  load_ipx_interfaces w = Fault NullPointer
  ∧ (cache_inv w → stale w → get_ipx_interfaces w = Fault NullPointer).
Proof.
  intros Hstore Hall Hsc Hl Hpre Hlast.
  pose proof (visited_disabled_last _ _ _ Hpre Hlast) as Hvis.
  assert (∀ w0, store_ok (mem w0) → all_ok w0 → os_script w0 = os_script w →
                get_iface_config w0 = get_iface_config w →
                load_ipx_interfaces w0 = Fault NullPointer) as Hgen.
  { intros w0 Hstore0 Hall0 Hsc0 Hcfg.
    pose proof (load_run w0 Hstore0) as Hpost.
    unfold load_post in Hpost. rewrite Hsc0, Hsc in Hpost. simpl in Hpost.
    rewrite (Hall0 (allocs (mem w0))) in Hpost by lia.
    pose proof (build_all_ok (alloc_ok w0) (get_iface_config w) (get_primary_iface w0)
                  (length (pre ++ [last])) (pre ++ [last]) (le_n _) (S (allocs (mem w0))) []
                  ltac:(intros; apply Hall0; lia)) as Hbuild.
    rewrite Hvis in Hbuild. rewrite Hl, Hcfg, Hbuild in Hpost. exact Hpost. }
  split; [by apply Hgen|].
  intros Hinv Hstale.
  destruct (mem w) as [hi ha bf n k] eqn:Hmem.
  destruct (renew_stale_run w hi ha bf n k Hmem Hinv Hstale) as (hi1 & ha1 & Hb1 & Hb2 & Hrenew).
  rewrite Hgen in Hrenew.
  - unfold get_ipx_interfaces, EnterCriticalSection. rewrite bind_ret.
    by erewrite bind_Fault by exact Hrenew.
  - simpl. split_and!; try done. by destruct Hstore as (_ & _ & Hbf).
  - intros j Hj. simpl in *. apply Hall. rewrite Hmem. simpl. lia.
  - done.
  - done.
Qed.

Lemma disabled_last_adapter_always_faults_witness :
  load_ipx_interfaces (boot 2 granted clock_100_200 [ReplyAdapters lan [bare; off]])
  = Fault NullPointer.
Proof.
  destruct (disabled_last_adapter_always_faults
              (boot 2 granted clock_100_200 [ReplyAdapters lan [bare; off]])
              lan [bare; off] [lan; bare] off []) as [H _].
  - apply store_ok_boot.
  - intros j _. reflexivity.
  - reflexivity.
  - reflexivity.
  - repeat constructor.
  - reflexivity.
  - exact H.
Defined.

(** ** Further properties of the query functions *)

Lemma nth_from_lookup index L : ∀ i0,
  nth_from index i0 L
  = if decide (i0 ≤ index)%Z then L !! Z.to_nat (index - i0) else None.
Proof.
  induction L as [|v L IH]; intros i0; simpl.
  - by destruct (decide _).
  - destruct (decide (i0 = index)) as [->|Hne].
    + rewrite decide_True by lia. by rewrite Z.sub_diag.
    + rewrite IH. destruct (decide (i0 ≤ index)%Z) as [Hle|Hgt].
      * rewrite decide_True by lia.
        replace (Z.to_nat (index - i0)) with (S (Z.to_nat (index - (i0 + 1)))) by lia.
        done.
      * by rewrite decide_False by lia.
Qed.

Lemma find_addr_first net node L v :
  find_addr net node L = Some v →
  ∃ i, L !! i = Some v
     ∧ network_number v = net ∧ node_number v = node
     ∧ ∀ j u, j < i → L !! j = Some u → ¬ (network_number u = net ∧ node_number u = node).
Proof.
  induction L as [|u L IH]; [done|]. simpl.
  destruct (decide _) as [[Hn Hd]|Hno].
  - intros [= ->]. exists 0. split_and!; try done. intros j u' Hj. lia.
  - intros Hf. destruct (IH Hf) as (i & Hi & Hn & Hd & Hfirst).
    exists (S i). split_and!; try done.
    intros [|j] u' Hj Hu; simpl in Hu.
    + by injection Hu as <-.
    + eapply Hfirst; [|done]. lia.
Qed.

Lemma find_addr_none net node L :
  find_addr net node L = None →
  ∀ u, u ∈ L → ¬ (network_number u = net ∧ node_number u = node).
Proof.
  induction L as [|u L IH]; simpl.
  - intros _ u Hu. by apply elem_of_nil in Hu.
  - destruct (decide _) as [|Hno]; [done|]. intros Hf u' Hu'.
    apply elem_of_cons in Hu' as [->|Hu']; [done|by apply IH].
Qed.

Lemma by_index_within_bounds_aux w L index :
  cache_inv w → all_ok w → list_spec w = Some L →
  ∃ r w', ipx_interface_by_index index w = Ok r w'
    ∧ (if decide (0 ≤ index < Z.of_nat (length L))%Z
       then ∃ x i v, r = Some x
              ∧ L !! Z.to_nat index = Some v
              ∧ read_iface (mem w') r = Some v
              ∧ ifaces (mem w') !! x = Some i
              ∧ iface_prev i = None ∧ iface_next i = None
       else r = None ∧ renew_interface_cache w = Ok tt w').
Proof.
  intros Hinv Hall Hspec.
  destruct (ipx_interface_by_index_ok w L index Hinv Hall Hspec) as (w1 & Hrenew & Hpost).
  rewrite nth_from_lookup in Hpost. rewrite Z.sub_0_r in Hpost.
  destruct (decide (0 ≤ index < Z.of_nat (length L))%Z) as [Hin|Hout].
  - rewrite decide_True in Hpost by lia.
    destruct (lookup_lt_is_Some_2 L (Z.to_nat index)) as [v Hv]; [lia|].
    rewrite Hv in Hpost. pose proof Hpost as (w' & q & ils & shc & Heq & _ & _ & _ & _ & _ & Hi & _).
    rewrite Heq in Hpost. eexists _, w'. split; [exact Heq|].
    eexists _, _, v. split; [done|]. split; [done|]. split; [by eapply read_iface_copy|].
    rewrite Hi, lookup_insert_eq. done.
  - destruct (decide (0 ≤ index)%Z) as [Hpos|Hneg].
    + rewrite lookup_ge_None_2 in Hpost by lia. simpl in Hpost. by exists None, w1.
    + simpl in Hpost. by exists None, w1.
Qed.

(** [ipx_interface_by_index] hands out a copy of the interface at position
    [index] of the cache, detached from any list, when [index] is a
    position of the cache; for a negative index or one past the end it
    returns NULL and does nothing but renew the cache. *)
Theorem by_index_within_bounds w L index :
  cache_inv w → all_ok w → list_spec w = Some L →
  ∃ r w', ipx_interface_by_index index w = Ok r w'
    ∧ (if decide (0 ≤ index < Z.of_nat (length L))%Z
       then ∃ x i v, r = Some x
              ∧ L !! Z.to_nat index = Some v
              ∧ read_iface (mem w') r = Some v
              ∧ ifaces (mem w') !! x = Some i
              ∧ iface_prev i = None ∧ iface_next i = None
       else r = None ∧ renew_interface_cache w = Ok tt w').
Proof. apply by_index_within_bounds_aux. Qed.

Lemma by_index_within_bounds_witness :
  ∃ r w', ipx_interface_by_index 7
            (boot 2 granted clock_from_100 [ReplyAdapters lan [tunnel; bare]]) = Ok r w'
        ∧ r = None.
Proof.
  destruct (by_index_within_bounds
              (boot 2 granted clock_from_100 [ReplyAdapters lan [tunnel; bare]])
              [i_tunnel; i_lan; i_bare] 7) as (r & w' & Hrun & Hr).
  - apply cache_inv_boot.
  - intros j _. reflexivity.
  - vm_compute. reflexivity.
  - exists r, w'. split; [exact Hrun|]. simpl in Hr. by destruct Hr.
Defined.

(** [ipx_interface_by_addr] hands out a copy of the first interface of
    the cache that has the network and node numbers asked for, whatever
    comes after it; when no interface has them it returns NULL and does
    nothing but renew the cache. *)
Theorem by_addr_first_match w L net node :
  cache_inv w → all_ok w → list_spec w = Some L →
  ∃ r w', ipx_interface_by_addr net node w = Ok r w'
    ∧ (match r with
       | Some _ =>
           ∃ v i, read_iface (mem w') r = Some v
                ∧ L !! i = Some v
                ∧ network_number v = net ∧ node_number v = node
                ∧ ∀ j u, j < i → L !! j = Some u →
                    ¬ (network_number u = net ∧ node_number u = node)
       | None =>
           (∀ u, u ∈ L → ¬ (network_number u = net ∧ node_number u = node))
           ∧ renew_interface_cache w = Ok tt w'
       end).
Proof.
  intros Hinv Hall Hspec.
  destruct (ipx_interface_by_addr_ok w L net node Hinv Hall Hspec) as (w1 & Hrenew & Hpost).
  destruct (find_addr net node L) as [v|] eqn:Hfind.
  - pose proof Hpost as (w' & q & ils & shc & Heq & _).
    rewrite Heq in Hpost. eexists _, w'. split; [exact Heq|].
    destruct (find_addr_first _ _ _ _ Hfind) as (i & Hi & Hn & Hd & Hfirst).
    exists v, i. split; [by eapply read_iface_copy|done].
  - simpl in Hpost. exists None, w1. split; [done|]. split; [|done].
    by apply find_addr_none.
Qed.

Lemma by_addr_first_match_witness :
  ∃ r w', ipx_interface_by_addr 0x11 0xAA
            (boot 2 granted clock_from_100 [ReplyAdapters lan [tunnel; twin]]) = Ok r w'
        ∧ r ≠ None.
Proof.
  destruct (by_addr_first_match
              (boot 2 granted clock_from_100 [ReplyAdapters lan [tunnel; twin]])
              [i_tunnel; i_lan; i_twin] 0x11 0xAA) as (r & w' & Hrun & Hr).
  - apply cache_inv_boot.
  - intros j _. reflexivity.
  - vm_compute. reflexivity.
  - exists r, w'. split; [exact Hrun|]. destruct r as [l|]; [discriminate|].
    destruct Hr as [Hno _]. exfalso. apply (Hno i_lan).
    + right. left.
    + split; reflexivity.
Defined.

Lemma count_loop_ok ls : ∀ fuel w hi ha bf n k count p,
  chain hi p ls → length ls ≤ fuel →
  count_loop fuel count p (W w hi ha bf n k)
  = Ok (count + Z.of_nat (length ls))%Z (W w hi ha bf n k).
Proof.
  induction ls as [|x ls IH]; intros fuel w hi ha bf n k count p Hc Hfuel.
  - simpl in Hc. subst p. rewrite Z.add_0_r. by destruct fuel.
  - destruct fuel as [|fuel]; [simpl in Hfuel; lia|].
    pose proof Hc as Hc0. simpl in Hc. destruct Hc as [-> (q & Hq & _)].
    unfold nextf in Hq. destruct (hi !! x) as [i|] eqn:Hi; [|done].
    destruct (chain_next_node hi x ls i Hc0 Hi) as [Hnext Hc'].
    cbn [count_loop]. erewrite bind_Ok by (by apply deref_iface).
    rewrite (IH fuel) by (done || simpl in Hfuel; lia).
    f_equal. cbn [length]. lia.
Qed.

Lemma count_is_length_aux w L :
  cache_inv w → list_spec w = Some L →
  ∃ w', ipx_interface_count w = Ok (Z.of_nat (length L)) w'
      ∧ renew_interface_cache w = Ok tt w'.
Proof.
  intros Hinv Hspec.
  destruct (renew_ok w L Hinv Hspec) as (w1 & Hrenew & Hinv1 & Hsnap1 & _).
  exists w1. split; [|done].
  destruct Hinv1 as (_ & shc & L1 & Hlc).
  assert (L1 = L) as ->.
  { erewrite snapshot_of_list in Hsnap1 by done. congruence. }
  destruct (mem w1) as [hi ha bf n k] eqn:Hmem. simpl in *.
  pose proof Hlc as ((Hnd & Hc & _) & _ & Hats).
  assert (ipx_interface_count w
          = count_loop (size hi) 0 (interface_cache w1) (W w1 hi ha bf n k)) as ->.
  { unfold ipx_interface_count, EnterCriticalSection, LeaveCriticalSection.
    rewrite bind_ret. erewrite bind_Ok by exact Hrenew. rewrite !bind_get.
    unfold compose. rewrite Hmem. simpl ifaces.
    rewrite (with_mem w1 _ _ _ _ _ Hmem) at 2. unfold bind.
    by destruct (count_loop _ _ _ _). }
  rewrite (count_loop_ok shc.*1) by (done || by eapply chain_NoDup_length).
  f_equal.
  - rewrite length_fmap. rewrite (iface_list_length _ _ _ _ _ Hlc). lia.
  - symmetry. by apply with_mem.
Qed.

(** [ipx_interface_count] is the length of the list that the cache holds
    once it was renewed; counting changes nothing else.  (The list is taken
    to be shorter than 2^31, so that the counter stays within [int].) *)
Theorem count_is_length w L :
  cache_inv w → list_spec w = Some L →
  (Z.of_nat (length L) < 2 ^ 31)%Z →
  ∃ w', ipx_interface_count w = Ok (Z.of_nat (length L)) w'
      ∧ renew_interface_cache w = Ok tt w'.
Proof. intros Hinv Hspec _. by apply count_is_length_aux. Qed.

Lemma count_is_length_witness :
  ∃ w', ipx_interface_count
          (boot 2 granted clock_from_100 [ReplyAdapters lan [tunnel; bare]]) = Ok 3%Z w'.
Proof.
  destruct (count_is_length
              (boot 2 granted clock_from_100 [ReplyAdapters lan [tunnel; bare]])
              [i_tunnel; i_lan; i_bare]) as (w' & Hrun & _).
  - apply cache_inv_boot.
  - vm_compute. reflexivity.
  - vm_compute. reflexivity.
  - by exists w'.
Defined.

(** [ipx_interface_count] bounds the indices that
    [ipx_interface_by_index] accepts: as long as the cache is not renewed
    in between, an index gets an interface exactly when it is at least 0
    and less than the count. *)
Theorem count_bounds_index w L index :
  cache_inv w → all_ok w → list_spec w = Some L →
  (Z.of_nat (length L) < 2 ^ 31)%Z →
  ∃ c w1, ipx_interface_count w = Ok c w1
    ∧ c = Z.of_nat (length L)
    ∧ ((age w1 ≤ 5)%Z →
       ∃ r w2, ipx_interface_by_index index w1 = Ok r w2
             ∧ (r ≠ None ↔ (0 ≤ index < c)%Z)).
Proof.
  intros Hinv Hall Hspec Hlen.
  destruct (count_is_length_aux w L Hinv Hspec) as (w1 & Hcount & Hrenew).
  destruct (renew_ok w L Hinv Hspec) as (w1' & Hrenew' & Hinv1 & Hsnap1 & Henv & Hk & _).
  rewrite Hrenew in Hrenew'. injection Hrenew' as <-.
  pose proof (all_ok_mono _ _ Henv Hk Hall) as Hall1.
  exists (Z.of_nat (length L)), w1. split; [done|]. split; [done|]. intros Hage.
  assert (list_spec w1 = Some L) as Hspec1.
  { unfold list_spec. rewrite decide_False; [done|].
    unfold stale, INTERFACE_CACHE_TTL, age in *. lia. }
  destruct (by_index_within_bounds_aux w1 L index Hinv1 Hall1 Hspec1) as (r & w2 & Hrun & Hr).
  exists r, w2. split; [done|].
  destruct (decide (0 ≤ index < Z.of_nat (length L))%Z) as [Hin|Hout].
  - destruct Hr as (x & _ & _ & -> & _). by split.
  - destruct Hr as [-> _]. split; [done|]. intros Hc. by destruct Hout.
Qed.

Lemma count_bounds_index_witness :
  ∃ c w1, ipx_interface_count
            (boot 2 granted clock_from_100 [ReplyAdapters lan [tunnel; bare]]) = Ok c w1
        ∧ c = 3%Z.
Proof.
  destruct (count_bounds_index
              (boot 2 granted clock_from_100 [ReplyAdapters lan [tunnel; bare]])
              [i_tunnel; i_lan; i_bare] 0) as (c & w1 & Hrun & Hc & _).
  - apply cache_inv_boot.
  - intros j _. reflexivity.
  - vm_compute. reflexivity.
  - vm_compute. reflexivity.
  - exists c, w1. split; [exact Hrun|exact Hc].
Defined.

(** ** Setting the cache up and tearing it down *)

(** [ipx_interfaces_init] aborts when the critical section cannot be
    initialised.  Otherwise it empties the cache without freeing anything
    and sets its time stamp to 0, so that the first query builds the list
    as soon as the clock reads more than 5, and returns the empty list
    without asking the operating system when it does not. *)
Theorem init_then_first_query w L :
  store_ok (mem w) → all_ok w → rebuild_spec w = Some L →
  if cs_init_ok w then
    ∃ w0, ipx_interfaces_init w = Ok tt w0
      ∧ mem w0 = mem w
      ∧ interface_cache w0 = None
      ∧ interface_cache_ctime w0 = 0%Z
      ∧ ((clock w (time_calls w) > 5)%Z →
         ∃ q w', get_ipx_interfaces w0 = Ok q w'
               ∧ read_ifaces (mem w') q = Some L
               ∧ builds w' = S (builds w))
      ∧ ((clock w (time_calls w) ≤ 5)%Z →
         get_ipx_interfaces w0 = Ok None (tick w0))
  else ipx_interfaces_init w = Fault Aborted.
Proof.
  intros Hstore Hall Hspec.
  unfold ipx_interfaces_init. rewrite !bind_modify, bind_get.
  change (cs_init_ok (set_interface_cache_ctime 0 (set_interface_cache None w)))
    with (cs_init_ok w).
  destruct (cs_init_ok w); [|reflexivity].
  set (w0 := set_interface_cache_ctime 0 (set_interface_cache None w)).
  exists w0. split; [done|]. split; [done|]. split; [done|]. split; [done|].
  assert (cache_inv w0) as Hinv0.
  { split; [done|]. exists [], []. apply iface_list_nil. }
  split.
  - intros Hclock.
    assert (stale w0) as Hs.
    { unfold stale, INTERFACE_CACHE_TTL. simpl. lia. }
    assert (list_spec w0 = Some L) as Hspec0.
    { unfold list_spec. rewrite decide_True by done. exact Hspec. }
    destruct (get_ipx_interfaces_spec w0 L Hinv0 Hall Hspec0)
      as (q & w' & Hget & Hread & _ & _ & _ & _ & Hstale & _).
    exists q, w'. split; [done|]. split; [done|]. by destruct (Hstale Hs).
  - intros Hclock. apply get_empty_fresh; [done|].
    unfold stale, INTERFACE_CACHE_TTL. simpl. lia.
Qed.

Lemma init_then_first_query_witness :
  ∃ w0, ipx_interfaces_init
          (boot 2 granted clock_100_200 [ReplyAdapters lan [tunnel; bare]]) = Ok tt w0
      ∧ interface_cache w0 = None
      ∧ ∃ q w', get_ipx_interfaces w0 = Ok q w'
              ∧ read_ifaces (mem w') q = Some [i_tunnel; i_lan; i_bare]
              ∧ builds w' = 1.
Proof.
  assert (store_ok (mem (boot 2 granted clock_100_200 [ReplyAdapters lan [tunnel; bare]])))
    as Hs by apply store_ok_boot.
  assert (all_ok (boot 2 granted clock_100_200 [ReplyAdapters lan [tunnel; bare]]))
    as Ha by (intros j _; reflexivity).
  assert (rebuild_spec (boot 2 granted clock_100_200 [ReplyAdapters lan [tunnel; bare]])
          = Some [i_tunnel; i_lan; i_bare]) as Hr by (vm_compute; reflexivity).
  pose proof (init_then_first_query _ _ Hs Ha Hr) as H.
  change (cs_init_ok (boot 2 granted clock_100_200 [ReplyAdapters lan [tunnel; bare]]))
    with true in H. cbv iota in H.
  destruct H as (w0 & Hinit & _ & Hc & _ & Hget & _).
  exists w0. split; [exact Hinit|]. split; [exact Hc|]. apply Hget. reflexivity.
Defined.

(** [ipx_interfaces_cleanup] frees every record of the cache and nothing
    else, and leaves the cache variable NULL; the time stamp is left as
    it was. *)
Theorem cleanup_releases_cache w :
  cache_inv w →
  ∃ w', ipx_interfaces_cleanup w = Ok tt w'
    ∧ interface_cache w' = None
    ∧ interface_cache_ctime w' = interface_cache_ctime w
    ∧ bufs (mem w') = bufs (mem w)
    ∧ (∀ y, ifaces (mem w') !! y
            = if decide (y ∈ iface_cells (mem w) (interface_cache w)) then None
              else ifaces (mem w) !! y)
    ∧ (∀ z, ips (mem w') !! z
            = if decide (z ∈ ip_cells (mem w) (interface_cache w)) then None
              else ips (mem w) !! z).
Proof.
  intros (Hstore & shc & L & Hlc).
  destruct (cells_of_iface_list _ _ _ _ Hlc) as [Hc1 Hc2].
  destruct (mem w) as [hi ha bf n k] eqn:Hmem. simpl in *.
  destruct (free_ipx_interface_list_ok w hi ha bf n k (interface_cache w) shc L Hlc)
    as (hi' & ha' & Hfree & Hgone & Hstay & Hgone' & Hstay').
  exists (set_interface_cache None (W w hi' ha' bf n k)).
  split_and!; try done.
  - unfold ipx_interfaces_cleanup, DeleteCriticalSection.
    rewrite bind_ret, bind_get.
    rewrite (with_mem w _ _ _ _ _ Hmem) at 2.
    erewrite bind_Ok by exact Hfree. reflexivity.
  - intros y. simpl. rewrite Hc1. destruct (decide _); [by apply Hgone|by apply Hstay].
  - intros z. simpl. rewrite Hc2. destruct (decide _); [by apply Hgone'|by apply Hstay'].
Qed.

Lemma cleanup_releases_cache_witness :
  ∃ w', ipx_interfaces_cleanup
          (exec get_ipx_interfaces
             (boot 2 granted clock_from_100 [ReplyAdapters lan [tunnel; bare]]))
        = Ok tt w'
      ∧ interface_cache w' = None
      ∧ interface_cache_ctime w' = 101%Z.
Proof.
  destruct (cleanup_releases_cache
              (exec get_ipx_interfaces
                 (boot 2 granted clock_from_100 [ReplyAdapters lan [tunnel; bare]])))
    as (w' & Hrun & Hc & Ht & _).
  - apply (cache_inv_exec_get _ [i_tunnel; i_lan; i_bare]).
    + apply cache_inv_boot.
    + intros j _. reflexivity.
    + vm_compute. reflexivity.
  - exists w'. split; [exact Hrun|]. split; [exact Hc|]. rewrite Ht. vm_compute. reflexivity.
Defined.

(** ** Copying when memory runs out *)

(** One turn of the loop of [copy_ipx_interface] whose allocation is
    granted: the binding at [y] is copied to the new record [n], which is
    appended to the bindings of [d]. *)
Lemma copy_ip_loop_step fuel w hi ha bf n k b d di done al_done y v rest :
  alloc_ok w k = true →
  below n ha → b ≤ n →
  chain ha (Some y) (y :: rest) → ha !! y = Some v →
  (∀ z, z ∈ y :: rest → z < b) →
  hi !! d = Some di →
  ip_list ha (iface_ipaddr di) done al_done →
  (∀ z, z ∈ done → b ≤ z) →
  ∃ ha3 q1,
    copy_ip_loop (S fuel) (Some d) (Some y) (W w hi ha bf n k)
    = copy_ip_loop fuel (Some d) (next v)
        (W w (<[d := set_iface_ipaddr q1 di]> hi) ha3 bf (S n) (S k))
    ∧ below (S n) ha3
    ∧ (∀ z, z ≠ n → z ∉ done → ha3 !! z = ha !! z)
    ∧ ip_list ha3 q1 (done ++ [n]) (al_done ++ [ip_view v])
    ∧ chain ha3 (next v) rest.
Proof.
  intros Hok Hbel Hbn Hc0 Hy Hsrc Hd Hdone Hnew.
  destruct (chain_next_node ha y rest v Hc0 Hy) as [Hnext Hc'].
  assert (y < b) as Hyb by (apply Hsrc; left).
  assert (ha !! n = None) as Hn by (by apply below_fresh).
  set (ha2 := <[n := v]> ha).
  assert (alter (λ _, v) n (<[n := junk_ip]> ha) = ha2) as Halt.
  { erewrite alter_insert_same by apply lookup_insert_eq.
    apply insert_insert_eq. }
  assert (∀ z, z ∈ done → z ≠ n) as Hdn.
  { intros z Hz Hzn. destruct Hdone as [(_ & Hcd & _) _].
    pose proof (chain_live _ _ _ _ Hcd Hz) as Hlive. apply Hbel in Hlive. lia. }
  destruct (DL_APPEND_ip w hi ha2 bf (S n) (S k) (iface_ipaddr di) n done)
    as (ha3 & Hrun & Hd3 & Hb3 & Hfr3).
  { destruct Hdone as [Hdd _]. eapply dll_ext; [| |exact Hdd].
    - intros z Hz. unfold nextf, ha2. rewrite lookup_insert_ne; [done|].
      intros ->. by eapply Hdn.
    - intros z Hz. unfold prevf, ha2. rewrite lookup_insert_ne; [done|].
      intros ->. destruct Hdd as (_ & Hcd & _). apply chain_head in Hcd.
      rewrite Hz in Hcd. destruct done; [done|]. injection Hcd as <-.
      eapply Hdn; [left|done]. }
  { unfold ha2. by rewrite lookup_insert_eq. }
  { intros Hin. by eapply Hdn. }
  assert (∀ z, z ≠ n → z ∉ done → ha3 !! z = ha !! z) as Hframe.
  { intros z Hz Hzd. rewrite Hfr3 by done. unfold ha2. by rewrite lookup_insert_ne. }
  assert (∀ z, z < b → ha3 !! z = ha !! z) as Hold.
  { intros z Hz. apply Hframe; [lia|]. intros Hin. apply Hnew in Hin. lia. }
  exists ha3, (hd_error (done ++ [n])). split_and!.
  - cbn [copy_ip_loop].
    erewrite bind_Ok by (by apply malloc_ip).
    cbv beta iota.
    erewrite bind_Ok by (apply deref_ip; rewrite lookup_insert_ne; [done|lia]).
    erewrite bind_Ok by (apply assign_ip; by rewrite lookup_insert_eq).
    rewrite Halt.
    erewrite bind_Ok by (by apply deref_iface).
    erewrite bind_Ok by exact Hrun.
    erewrite bind_Ok by (apply assign_iface; by eexists).
    erewrite bind_Ok by (apply deref_ip; rewrite Hold; done).
    by rewrite (alter_insert_same _ _ di) by done.
  - eapply below_bodyf; [exact Hb3|]. by apply below_insert.
  - done.
  - split; [done|]. apply Forall2_app.
    + destruct Hdone as [_ Hfd]. eapply ip_views_ext; [|done].
      intros z Hz. rewrite Hb3. unfold bodyf, ha2.
      rewrite lookup_insert_ne; [done|]. intros ->. by eapply Hdn.
    + constructor; [|constructor]. rewrite ip_view_bodyf, Hb3.
      unfold bodyf, ha2. by rewrite lookup_insert_eq.
  - eapply chain_ext; [|exact Hc']. intros z Hz. unfold nextf.
    rewrite Hold; [done|]. apply Hsrc. by right.
Qed.

(** The loop of [copy_ipx_interface] when the allocations it needs are
    granted: one new record per binding, at consecutive locations. *)
Lemma copy_ip_loop_all rest : ∀ al_rest fuel w hi ha bf n k b d di done al_done p,
  (∀ j, k ≤ j < k + length rest → alloc_ok w j = true) →
  below n ha → b ≤ n →
  chain ha p rest →
  Forall2 (λ x v, ip_view <$> ha !! x = Some v) rest al_rest →
  (∀ y, y ∈ rest → y < b) →
  length rest ≤ fuel →
  hi !! d = Some di →
  ip_list ha (iface_ipaddr di) done al_done →
  (∀ y, y ∈ done → b ≤ y) →
  ∃ ha' q,
    copy_ip_loop fuel (Some d) p (W w hi ha bf n k)
    = Ok (Some d) (W w (<[d := set_iface_ipaddr q di]> hi) ha' bf
                     (n + length rest) (k + length rest))
    ∧ below (n + length rest) ha'
    ∧ (∀ z, z < n → z ∉ done → ha' !! z = ha !! z)
    ∧ ip_list ha' q (done ++ seq n (length rest)) (al_done ++ al_rest).
Proof.
  induction rest as [|y rest IH];
    intros al_rest fuel w hi ha bf n k b d di done al_done p
           Hok Hbel Hbn Hc Hviews Hsrc Hfuel Hd Hdone Hnew.
  - simpl in Hc. subst p. inversion Hviews; subst.
    exists ha, (iface_ipaddr di).
    rewrite set_iface_ipaddr_id, insert_id by done. simpl. rewrite !app_nil_r, !Nat.add_0_r.
    split; [by destruct fuel|]. by split_and!.
  - destruct fuel as [|fuel]; [simpl in Hfuel; lia|].
    pose proof Hc as Hc0. simpl in Hc. destruct Hc as [-> _].
    inversion Hviews as [|? av ? al_rest' Hv Hviews']; subst.
    destruct (ha !! y) as [v|] eqn:Hy; [|done]. simpl in Hv. injection Hv as Hv.
    destruct (copy_ip_loop_step fuel w hi ha bf n k b d di done al_done y v rest)
      as (ha3 & q1 & Hstep & Hbel3 & Hframe & Hlist3 & Hc3); try done.
    { apply Hok. simpl. lia. }
    assert (∀ z, z < b → ha3 !! z = ha !! z) as Hold.
    { intros z Hz. apply Hframe; [lia|]. intros Hin. apply Hnew in Hin. lia. }
    destruct (IH al_rest' fuel w (<[d := set_iface_ipaddr q1 di]> hi) ha3 bf (S n) (S k) b d
                (set_iface_ipaddr q1 di) (done ++ [n]) (al_done ++ [ip_view v]) (next v))
      as (ha' & q & Hloop & Hbel' & Hframe' & Hlist); try done.
    { intros j Hj. apply Hok. simpl. lia. }
    { lia. }
    { clear -Hviews' Hold Hsrc.
      assert (∀ z, z ∈ rest → ha3 !! z = ha !! z) as He.
      { intros z Hz. apply Hold, Hsrc. by right. }
      clear Hold Hsrc. induction Hviews'; constructor.
      - rewrite He; [done|left].
      - apply IHHviews'. intros z Hz. apply He. by right. }
    { intros z Hz. apply Hsrc. by right. }
    { simpl in Hfuel. lia. }
    { by rewrite lookup_insert_eq. }
    { intros z Hz. apply elem_of_app in Hz as [Hz|Hz]; [by apply Hnew|].
      apply list_elem_of_singleton in Hz. lia. }
    exists ha', q. simpl length. split_and!.
    + rewrite Hstep, Hloop, insert_insert_eq.
      replace (S n + length rest) with (n + S (length rest)) by lia.
      replace (S k + length rest) with (k + S (length rest)) by lia.
      reflexivity.
    + by replace (n + S (length rest)) with (S n + length rest) by lia.
    + intros z Hz Hzd. rewrite Hframe'.
      * apply Hframe; [lia|done].
      * lia.
      * intros Hin. apply elem_of_app in Hin as [Hin|Hin]; [done|].
        apply list_elem_of_singleton in Hin. lia.
    + rewrite <- Hv. rewrite <- !app_assoc in Hlist. exact Hlist.
Qed.

Lemma malloc_ip_fail w hi ha bf n k :
  alloc_ok w k = false →
  malloc junk_ip (W w hi ha bf n k) = Ok None (W w hi ha bf n (S k)).
Proof. intros Hk. unfold malloc. simpl. by rewrite Hk. Qed.

(** The loop of [copy_ipx_interface] when the [m]-th allocation it asks
    for is refused: the copy [d] is freed with the bindings it has got,
    and NULL is returned. *)
Lemma copy_ip_loop_refused m : ∀ rest al_rest fuel w hi ha bf n k b d di done al_done p,
  m < length rest →
  (∀ j, k ≤ j < k + m → alloc_ok w j = true) →
  alloc_ok w (k + m) = false →
  below n ha → b ≤ n →
  chain ha p rest →
  Forall2 (λ x v, ip_view <$> ha !! x = Some v) rest al_rest →
  (∀ y, y ∈ rest → y < b) →
  length rest ≤ fuel →
  hi !! d = Some di →
  ip_list ha (iface_ipaddr di) done al_done →
  (∀ y, y ∈ done → b ≤ y) →
  ∃ ha',
    copy_ip_loop fuel (Some d) p (W w hi ha bf n k)
    = Ok None (W (add_log (LOG_ERROR, "Cannot allocate ipx_interface_ip!"%string) w)
                 (delete d hi) ha' bf (n + m) (S (k + m)))
    ∧ (∀ z, ha' !! z = if decide (z ∈ done ∨ n ≤ z) then None else ha !! z).
Proof.
  induction m as [|m IH];
    intros rest al_rest fuel w hi ha bf n k b d di done al_done p
           Hm Hok Hno Hbel Hbn Hc Hviews Hsrc Hfuel Hd Hdone Hnew.
  - destruct rest as [|y rest]; [simpl in Hm; lia|].
    destruct fuel as [|fuel]; [simpl in Hfuel; lia|].
    pose proof Hc as Hc0. simpl in Hc. destruct Hc as [-> _].
    rewrite Nat.add_0_r in Hno. rewrite !Nat.add_0_r.
    destruct (free_ipx_interface_ok
                (add_log (LOG_ERROR, "Cannot allocate ipx_interface_ip!"%string) w)
                hi ha bf n (S k) d done
                (mk_interface (hwaddr di) (ipx_net di) (ipx_node di) al_done))
      as (ha' & Hfree & Hgone & Hstay).
    { exists di. by split_and!. }
    exists ha'. split.
    + cbn [copy_ip_loop].
      erewrite bind_Ok by (by apply malloc_ip_fail). cbv beta iota.
      rewrite bind_log.
      change (add_log ?e (W ?w0 ?a1 ?a2 ?a3 ?a4 ?a5)) with (W (add_log e w0) a1 a2 a3 a4 a5).
      erewrite bind_Ok by exact Hfree. reflexivity.
    + intros z. destruct (decide (z ∈ done ∨ n ≤ z)) as [[Hz|Hz]|Hz].
      * by apply Hgone.
      * destruct (decide (z ∈ done)) as [Hzd|Hzd]; [by apply Hgone|].
        rewrite Hstay by done. destruct (ha !! z) eqn:E; [|done].
        assert (z < n); [|lia]. apply Hbel. by rewrite E.
      * apply Hstay. tauto.
  - destruct rest as [|y rest]; [simpl in Hm; lia|].
    destruct fuel as [|fuel]; [simpl in Hfuel; lia|].
    pose proof Hc as Hc0. simpl in Hc. destruct Hc as [-> _].
    inversion Hviews as [|? av ? al_rest' Hv Hviews']; subst.
    destruct (ha !! y) as [v|] eqn:Hy; [|done]. simpl in Hv. injection Hv as Hv.
    destruct (copy_ip_loop_step fuel w hi ha bf n k b d di done al_done y v rest)
      as (ha3 & q1 & Hstep & Hbel3 & Hframe & Hlist3 & Hc3); try done.
    { apply Hok. lia. }
    assert (∀ z, z < b → ha3 !! z = ha !! z) as Hold.
    { intros z Hz. apply Hframe; [lia|]. intros Hin. apply Hnew in Hin. lia. }
    destruct (IH rest al_rest' fuel w (<[d := set_iface_ipaddr q1 di]> hi) ha3 bf (S n) (S k) b d
                (set_iface_ipaddr q1 di) (done ++ [n]) (al_done ++ [ip_view v]) (next v))
      as (ha' & Hloop & Hpost); try done.
    { simpl in Hm. lia. }
    { intros j Hj. apply Hok. lia. }
    { by replace (S k + m) with (k + S m) by lia. }
    { lia. }
    { clear -Hviews' Hold Hsrc.
      assert (∀ z, z ∈ rest → ha3 !! z = ha !! z) as He.
      { intros z Hz. apply Hold, Hsrc. by right. }
      clear Hold Hsrc. induction Hviews'; constructor.
      - rewrite He; [done|left].
      - apply IHHviews'. intros z Hz. apply He. by right. }
    { intros z Hz. apply Hsrc. by right. }
    { simpl in Hfuel. lia. }
    { by rewrite lookup_insert_eq. }
    { intros z Hz. apply elem_of_app in Hz as [Hz|Hz]; [by apply Hnew|].
      apply list_elem_of_singleton in Hz. lia. }
    exists ha'. split.
    + rewrite Hstep, Hloop, delete_insert_eq.
      replace (S n + m) with (n + S m) by lia.
      replace (S k + m) with (k + S m) by lia.
      reflexivity.
    + intros z. rewrite Hpost.
      destruct (decide (z ∈ done ∨ n ≤ z)) as [Hz|Hz].
      * rewrite decide_True; [done|]. destruct Hz as [Hz|Hz].
        -- left. apply elem_of_app. by left.
        -- destruct (decide (z = n)) as [->|]; [|right; lia].
           left. apply elem_of_app. right. left.
      * rewrite decide_False.
        -- apply Hframe; [lia|tauto].
        -- intros [Hin|Hin]; [|lia].
           apply elem_of_app in Hin as [Hin|Hin]; [tauto|].
           apply list_elem_of_singleton in Hin. lia.
Qed.

Lemma copy_ipx_interface_start w hi ha bf n k x i :
  alloc_ok w k = true → below n hi → hi !! x = Some i →
  copy_ipx_interface (Some x) (W w hi ha bf n k)
  = copy_ip_loop (size ha) (Some n) (iface_ipaddr i)
      (W w (<[n := mk_iface (hwaddr i) (ipx_net i) (ipx_node i) None None None]> hi)
         ha bf (S n) (S k)).
Proof.
  intros Hok Hbi Hi.
  assert (x < n) as Hxn by (apply Hbi; by eexists).
  unfold copy_ipx_interface.
  erewrite bind_Ok by (by apply malloc_iface).
  cbv beta iota.
  erewrite bind_Ok by (apply deref_iface; rewrite lookup_insert_ne; [done|lia]).
  erewrite bind_Ok by (apply assign_iface; by rewrite lookup_insert_eq).
  erewrite bind_Ok by (apply assign_iface; by rewrite lookup_alter_eq, lookup_insert_eq).
  erewrite bind_Ok by
    (apply assign_iface; by rewrite !lookup_alter_eq, lookup_insert_eq).
  erewrite bind_Ok by
    (apply assign_iface; by rewrite !lookup_alter_eq, lookup_insert_eq).
  assert (alter (set_iface_next None) n
            (alter (set_iface_prev None) n
               (alter (set_iface_ipaddr None) n
                  (alter (λ _, i) n (<[n := junk_iface]> hi))))
          = <[n := mk_iface (hwaddr i) (ipx_net i) (ipx_node i) None None None]> hi) as ->.
  { apply map_eq. intros z. destruct (decide (n = z)) as [->|].
    - by rewrite !lookup_alter_eq, !lookup_insert_eq.
    - by rewrite !lookup_alter_ne, !lookup_insert_ne. }
  erewrite bind_Ok by (apply deref_iface; rewrite lookup_insert_ne; [done|lia]).
  rewrite bind_get. reflexivity.
Qed.

(** [copy_ipx_interface] when the allocations it needs are granted: one
    record for the interface and one for each binding, at consecutive
    locations. *)
Lemma copy_ipx_interface_all w hi ha bf n k x ils v :
  (∀ j, k ≤ j < S k + length ils → alloc_ok w j = true) →
  below n hi → below n ha →
  iface_at hi ha x ils v →
  ∃ ha' q,
    copy_ipx_interface (Some x) (W w hi ha bf n k)
    = Ok (Some n)
        (W w (<[n := mk_iface (hardware_address v) (network_number v)
                        (node_number v) q None None]> hi) ha' bf
           (S n + length ils) (S k + length ils))
    ∧ below (S n + length ils) ha'
    ∧ (∀ z, z ≤ n → ha' !! z = ha !! z)
    ∧ ip_list ha' q (seq (S n) (length ils)) (addresses v).
Proof.
  intros Hok Hbi Hba (i & Hi & Hhw & Hnet & Hnode & Hl).
  set (d0 := mk_iface (hwaddr i) (ipx_net i) (ipx_node i) None None None).
  pose proof Hl as [(Hnd & Hc & _) Hviews].
  destruct (copy_ip_loop_all ils (addresses v) (size ha) w (<[n := d0]> hi) ha bf
              (S n) (S k) n n d0 [] [] (iface_ipaddr i))
    as (ha' & q & Hloop & Hbel' & Hold & Hlist).
  - intros j Hj. apply Hok. lia.
  - eapply below_mono; [|done]. lia.
  - lia.
  - done.
  - done.
  - intros y Hy. apply Hba. by eapply chain_live.
  - by eapply chain_NoDup_length.
  - by rewrite lookup_insert_eq.
  - apply ip_list_nil.
  - intros y Hy. by apply elem_of_nil in Hy.
  - exists ha', q. split_and!; try done.
    + rewrite (copy_ipx_interface_start _ _ _ _ _ _ _ i) by (done || apply Hok; lia).
      fold d0. rewrite Hloop, insert_insert_eq. do 3 f_equal.
      unfold d0, set_iface_ipaddr. simpl. congruence.
    + intros z Hz. apply Hold; [lia|]. intros Hin. by apply elem_of_nil in Hin.
Qed.

(** [copy_ipx_interface] when the [m]-th allocation it asks for is
    refused: it returns NULL and leaves no record behind. *)
Lemma copy_ipx_interface_refused w hi ha bf n k x ils v m :
  m ≤ length ils →
  (∀ j, k ≤ j < k + m → alloc_ok w j = true) →
  alloc_ok w (k + m) = false →
  below n hi → below n ha →
  iface_at hi ha x ils v →
  ∃ e, copy_ipx_interface (Some x) (W w hi ha bf n k)
       = Ok None (W (add_log e w) hi ha bf (n + m) (S (k + m))).
Proof.
  intros Hm Hok Hno Hbi Hba (i & Hi & Hhw & Hnet & Hnode & Hl).
  destruct m as [|m].
  - rewrite Nat.add_0_r in Hno. rewrite !Nat.add_0_r. eexists.
    unfold copy_ipx_interface.
    erewrite bind_Ok by (by apply malloc_iface_fail). cbv beta iota.
    rewrite bind_log. reflexivity.
  - set (d0 := mk_iface (hwaddr i) (ipx_net i) (ipx_node i) None None None).
    pose proof Hl as [(Hnd & Hc & _) Hviews].
    destruct (copy_ip_loop_refused m ils (addresses v) (size ha) w (<[n := d0]> hi) ha bf
                (S n) (S k) n n d0 [] [] (iface_ipaddr i))
      as (ha' & Hloop & Hpost).
    + lia.
    + intros j Hj. apply Hok. lia.
    + by replace (S k + m) with (k + S m) by lia.
    + eapply below_mono; [|done]. lia.
    + lia.
    + done.
    + done.
    + intros y Hy. apply Hba. by eapply chain_live.
    + by eapply chain_NoDup_length.
    + by rewrite lookup_insert_eq.
    + apply ip_list_nil.
    + intros y Hy. by apply elem_of_nil in Hy.
    + eexists.
      rewrite (copy_ipx_interface_start _ _ _ _ _ _ _ i) by (done || apply Hok; lia).
      fold d0. rewrite Hloop.
      rewrite delete_insert_eq, delete_id by (by apply below_fresh).
      assert (ha' = ha) as ->.
      { apply map_eq. intros z. rewrite Hpost.
        destruct (decide _) as [[Hz|Hz]|Hz]; [by apply elem_of_nil in Hz| |done].
        symmetry. destruct (ha !! z) eqn:E; [|done].
        assert (z < n); [|lia]. apply Hba. by rewrite E. }
      replace (S n + m) with (n + S m) by lia.
      replace (S k + m) with (k + S m) by lia.
      reflexivity.
Qed.

Lemma cells_cons x ils sh : cells ((x, ils) :: sh) = S (length ils) + cells sh.
Proof. unfold cells. rewrite !fmap_cons, concat_cons, length_app. cbn [snd length]. lia. Qed.

(** One turn of the loop of [copy_ipx_interface_list] whose allocations
    are granted: the interface at [x] is copied to [n] and appended to the
    copies made so far. *)
Lemma copy_list_loop_step fuel w hi ha bf n k b donesh L_done x ils v rest L_rest dest i :
  (∀ j, k ≤ j < S k + length ils → alloc_ok w j = true) →
  below n hi → below n ha → b ≤ n →
  chain hi (Some x) (x :: rest.*1) → hi !! x = Some i →
  iface_at hi ha x ils v →
  Forall2 (λ c v, iface_at hi ha c.1 c.2 v) rest L_rest →
  sh_below b ((x, ils) :: rest) →
  iface_list hi ha dest donesh L_done →
  sh_above b donesh →
  ∃ hi2 ha1 dest',
    copy_list_loop (S fuel) dest (Some x) (W w hi ha bf n k)
    = copy_list_loop fuel dest' (next i)
        (W w hi2 ha1 bf (S n + length ils) (S k + length ils))
    ∧ below (S n + length ils) hi2 ∧ below (S n + length ils) ha1
    ∧ (∀ z, z ≠ n → z ∉ donesh.*1 → hi2 !! z = hi !! z)
    ∧ (∀ z, z ≤ n → ha1 !! z = ha !! z)
    ∧ iface_list hi2 ha1 dest' (donesh ++ [(n, seq (S n) (length ils))]) (L_done ++ [v])
    ∧ chain hi2 (next i) rest.*1
    ∧ Forall2 (λ c v, iface_at hi2 ha1 c.1 c.2 v) rest L_rest.
Proof.
  intros Hok Hbi Hba Hbn Hc0 Hi Hx Hats' [Hsrc1 Hsrc2] Hdone [Hab1 Hab2].
  destruct (chain_next_node hi x rest.*1 i Hc0 Hi) as [Hnext Hc'].
  assert (x < b) as Hxb by (apply Hsrc1; left).
  destruct (copy_ipx_interface_all w hi ha bf n k x ils v Hok Hbi Hba Hx)
    as (ha1 & q0 & Hcopy & Hba1 & Hold1 & Hl1).
  set (d := mk_iface (hardware_address v) (network_number v) (node_number v) q0 None None) in *.
  set (hi1 := <[n := d]> hi) in *.
  set (n1 := S n + length ils) in *. set (k1 := S k + length ils) in *.
  destruct (iface_list_live _ _ _ _ _ Hdone) as [Hlive1 Hlive2].
  assert (∀ y, y ∈ donesh.*1 → y ≠ n) as Hdn.
  { intros y Hy Hyn. apply Hlive1, Hbi in Hy. lia. }
  destruct Hdone as (Hdd & Hndd & Hfd).
  destruct (DL_APPEND_iface w hi1 ha1 bf n1 k1 dest n donesh.*1)
    as (hi2 & Hrun & Hd2 & Hb2 & Hfr2).
  { eapply dll_ext; [| |exact Hdd].
    - intros z Hz. unfold nextf, hi1. rewrite lookup_insert_ne; [done|].
      intros ->. by eapply Hdn.
    - intros z Hz. unfold prevf, hi1. rewrite lookup_insert_ne; [done|].
      intros ->. destruct Hdd as (_ & Hcd & _). apply chain_head in Hcd.
      rewrite Hz in Hcd. destruct donesh; [done|]. injection Hcd as Heq.
      eapply Hdn; [left|]. done. }
  { unfold hi1. by rewrite lookup_insert_eq. }
  { intros Hin. by eapply Hdn. }
  assert (∀ z, z ≠ n → z ∉ donesh.*1 → hi2 !! z = hi !! z) as Hframe.
  { intros z Hz Hzd. rewrite Hfr2 by done. unfold hi1. by rewrite lookup_insert_ne. }
  assert (∀ z, z < b → hi2 !! z = hi !! z) as Hold.
  { intros z Hz. apply Hframe; [lia|]. intros Hin. apply Hab1 in Hin. lia. }
  exists hi2, ha1, (hd_error (donesh.*1 ++ [n])). split_and!; try done.
  - cbn [copy_list_loop].
    erewrite bind_Ok by exact Hcopy. cbv beta iota.
    erewrite bind_Ok by exact Hrun.
    erewrite bind_Ok by (apply deref_iface; rewrite Hold; done).
    reflexivity.
  - eapply below_bodyf; [exact Hb2|]. unfold hi1.
    eapply below_mono; [|by apply below_insert]. unfold n1. lia.
  - split; [by rewrite fmap_app|]. split.
    + rewrite fmap_app, concat_app. simpl. rewrite app_nil_r.
      apply NoDup_app. split; [done|]. split.
      * intros z Hz Hz'. apply Hlive2, Hba in Hz. apply elem_of_seq in Hz'. lia.
      * apply NoDup_seq.
    + apply Forall2_app.
      * eapply iface_ats_ext; [| |exact Hfd].
        -- intros z Hz. rewrite Hb2. unfold bodyf, hi1.
           rewrite lookup_insert_ne; [done|]. intros ->. by eapply Hdn.
        -- intros z Hz. apply Hold1. apply Hlive2, Hba in Hz. lia.
      * constructor; [|constructor]. simpl.
        eapply iface_at_ext; [apply Hb2|done|].
        exists d. unfold hi1. rewrite lookup_insert_eq. by split_and!.
  - eapply chain_ext; [|exact Hc']. intros z Hz. unfold nextf.
    rewrite Hold; [done|]. apply Hsrc1. by right.
  - eapply iface_ats_ext; [| |exact Hats'].
    + intros z Hz. unfold bodyf. rewrite Hold; [done|]. apply Hsrc1. by right.
    + intros z Hz. apply Hold1. assert (z < b); [|lia].
      apply Hsrc2. simpl. apply elem_of_app. by right.
Qed.

(** The loop of [copy_ipx_interface_list] when the [m]-th allocation it
    asks for is refused: the copies made so far are freed and NULL is
    returned. *)
Lemma copy_list_loop_refused rest : ∀ m L_rest fuel w hi ha bf n k b donesh L_done s dest,
  m < cells rest →
  (∀ j, k ≤ j < k + m → alloc_ok w j = true) →
  alloc_ok w (k + m) = false →
  below n hi → below n ha → b ≤ n →
  chain hi s rest.*1 →
  Forall2 (λ c v, iface_at hi ha c.1 c.2 v) rest L_rest →
  sh_below b rest →
  length rest ≤ fuel →
  iface_list hi ha dest donesh L_done →
  sh_above b donesh →
  ∃ e hi' ha',
    copy_list_loop fuel dest s (W w hi ha bf n k)
    = Ok None (W (add_log e w) hi' ha' bf (n + m) (S (k + m)))
    ∧ (∀ y, hi' !! y = if decide (y ∈ donesh.*1 ∨ n ≤ y) then None else hi !! y)
    ∧ (∀ z, ha' !! z = if decide (z ∈ concat donesh.*2 ∨ n ≤ z) then None else ha !! z).
Proof.
  induction rest as [|[x ils] rest IH];
    intros m L_rest fuel w hi ha bf n k b donesh L_done s dest
           Hm Hok Hno Hbi Hba Hbn Hc Hats Hsrc Hfuel Hdone Hab.
  - unfold cells in Hm. simpl in Hm. lia.
  - destruct fuel as [|fuel]; [simpl in Hfuel; lia|].
    pose proof Hc as Hc0. simpl in Hc. destruct Hc as [-> _].
    inversion Hats as [|? v ? L_rest' Hx Hats']; subst. simpl in Hx.
    pose proof Hx as (i & Hi & _).
    rewrite cells_cons in Hm.
    destruct (decide (m ≤ length ils)) as [Hhere|Hlater].
    + destruct (copy_ipx_interface_refused w hi ha bf n k x ils v m Hhere Hok Hno Hbi Hba Hx)
        as (e & Hcopy).
      destruct (free_ipx_interface_list_ok (add_log e w) hi ha bf (n + m) (S (k + m))
                  dest donesh L_done Hdone)
        as (hi' & ha' & Hfree & Hgone & Hstay & Hgone' & Hstay').
      exists e, hi', ha'. split_and!.
      * cbn [copy_list_loop]. erewrite bind_Ok by exact Hcopy. cbv beta iota.
        erewrite bind_Ok by exact Hfree. reflexivity.
      * intros y. destruct (decide (y ∈ donesh.*1)) as [Hy|Hy].
        -- rewrite decide_True by tauto. by apply Hgone.
        -- rewrite Hstay by done. destruct (decide _) as [[?|Hn]|]; [done| |done].
           destruct (hi !! y) eqn:E; [|done].
           assert (y < n); [|lia]. apply Hbi. by rewrite E.
      * intros z. destruct (decide (z ∈ concat donesh.*2)) as [Hz|Hz].
        -- rewrite decide_True by tauto. by apply Hgone'.
        -- rewrite Hstay' by done. destruct (decide _) as [[?|Hn]|]; [done| |done].
           destruct (ha !! z) eqn:E; [|done].
           assert (z < n); [|lia]. apply Hba. by rewrite E.
    + destruct (copy_list_loop_step fuel w hi ha bf n k b donesh L_done x ils v rest L_rest'
                  dest i)
        as (hi2 & ha1 & dest' & Hstep & Hbi2 & Hba1 & Hframe & Hold1 & Hlist & Hc2 & Hats2);
        try done.
      { intros j Hj. apply Hok. lia. }
      destruct Hsrc as [Hsrc1 Hsrc2]. destruct Hab as [Hab1 Hab2].
      destruct (IH (m - S (length ils)) L_rest' fuel w hi2 ha1 bf (S n + length ils)
                  (S k + length ils) b (donesh ++ [(n, seq (S n) (length ils))])
                  (L_done ++ [v]) (next i) dest')
        as (e & hi' & ha' & Hloop & Hposti & Hposta); try done.
      { lia. }
      { intros j Hj. apply Hok. lia. }
      { by replace (S k + length ils + (m - S (length ils))) with (k + m) by lia. }
      { lia. }
      { split; intros z Hz; [apply Hsrc1|apply Hsrc2]; simpl.
        - by right.
        - apply elem_of_app. by right. }
      { simpl in Hfuel. lia. }
      { apply sh_above_app; [done|]. apply sh_above_one; [lia|].
        intros z Hz. apply elem_of_seq in Hz. lia. }
      exists e, hi', ha'. split_and!.
      * rewrite Hstep, Hloop.
        replace (S n + length ils + (m - S (length ils))) with (n + m) by lia.
        replace (S k + length ils + (m - S (length ils))) with (k + m) by lia.
        reflexivity.
      * intros y. rewrite Hposti. rewrite fmap_app. simpl.
        destruct (decide (y ∈ donesh.*1 ∨ n ≤ y)) as [[Hy|Hy]|Hy].
        -- rewrite decide_True; [done|]. left. apply elem_of_app. by left.
        -- destruct (decide (y = n)) as [->|Hne].
           ++ rewrite decide_True; [done|]. left. apply elem_of_app. right. left.
           ++ destruct (decide _); [done|].
              destruct (hi2 !! y) eqn:E; [|done].
              destruct (decide (y ∈ donesh.*1)) as [Hin|Hin].
              ** destruct (iface_list_live _ _ _ _ _ Hdone) as [Hl1 _].
                 apply Hl1, Hbi in Hin. lia.
              ** rewrite Hframe in E by done. assert (y < n); [|lia].
                 apply Hbi. by rewrite E.
        -- rewrite decide_False.
           ++ apply Hframe; [lia|tauto].
           ++ intros [Hin|Hin]; [|lia].
              apply elem_of_app in Hin as [Hin|Hin]; [tauto|].
              apply list_elem_of_singleton in Hin. lia.
      * intros z. rewrite Hposta. rewrite fmap_app, concat_app. simpl. rewrite app_nil_r.
        destruct (decide (z ∈ concat donesh.*2 ∨ n ≤ z)) as [[Hz|Hz]|Hz].
        -- rewrite decide_True; [done|]. left. apply elem_of_app. by left.
        -- destruct (decide (z = n)) as [->|Hne].
           ++ destruct (decide _); [done|]. rewrite Hold1 by lia.
              by apply below_fresh.
           ++ destruct (decide (z < S n + length ils)) as [Hlt|Hge].
              ** rewrite decide_True; [done|]. left. apply elem_of_app. right.
                 apply elem_of_seq. lia.
              ** rewrite decide_True; [done|]. right. lia.
        -- rewrite decide_False.
           ++ apply Hold1. lia.
           ++ intros [Hin|Hin]; [|lia].
              apply elem_of_app in Hin as [Hin|Hin]; [tauto|].
              apply elem_of_seq in Hin. lia.
Qed.

(** The loop of [copy_ipx_interface_list] when the allocations it needs
    are granted: the records of the copy are the only new ones. *)
Lemma copy_list_loop_all rest : ∀ L_rest fuel w hi ha bf n k b donesh L_done s dest,
  (∀ j, k ≤ j < k + cells rest → alloc_ok w j = true) →
  below n hi → below n ha → b ≤ n →
  chain hi s rest.*1 →
  Forall2 (λ c v, iface_at hi ha c.1 c.2 v) rest L_rest →
  sh_below b rest →
  length rest ≤ fuel →
  iface_list hi ha dest donesh L_done →
  sh_above b donesh →
  ∃ hi' ha' newsh q,
    copy_list_loop fuel dest s (W w hi ha bf n k)
    = Ok q (W w hi' ha' bf (n + cells rest) (k + cells rest))
    ∧ below (n + cells rest) hi' ∧ below (n + cells rest) ha'
    ∧ (∀ y, y < n → y ∉ donesh.*1 → hi' !! y = hi !! y)
    ∧ (∀ z, z < n → ha' !! z = ha !! z)
    ∧ iface_list hi' ha' q (donesh ++ newsh) (L_done ++ L_rest)
    ∧ sh_above n newsh
    ∧ (∀ y, n ≤ y → is_Some (hi' !! y) → y ∈ newsh.*1)
    ∧ (∀ z, n ≤ z → is_Some (ha' !! z) → z ∈ concat newsh.*2).
Proof.
  induction rest as [|[x ils] rest IH];
    intros L_rest fuel w hi ha bf n k b donesh L_done s dest
           Hok Hbi Hba Hbn Hc Hats Hsrc Hfuel Hdone Hab.
  - simpl in Hc. subst s. inversion Hats; subst.
    exists hi, ha, [], dest. unfold cells. simpl. rewrite !app_nil_r, !Nat.add_0_r.
    split; [by destruct fuel|]. split_and!; try done.
    + apply sh_above_nil.
    + intros y Hy Hlive. apply Hbi in Hlive. lia.
    + intros z Hz Hlive. apply Hba in Hlive. lia.
  - destruct fuel as [|fuel]; [simpl in Hfuel; lia|].
    pose proof Hc as Hc0. simpl in Hc. destruct Hc as [-> _].
    inversion Hats as [|? v ? L_rest' Hx Hats']; subst. simpl in Hx.
    pose proof Hx as (i & Hi & _).
    rewrite cells_cons in *.
    destruct (copy_list_loop_step fuel w hi ha bf n k b donesh L_done x ils v rest L_rest'
                dest i)
      as (hi2 & ha1 & dest' & Hstep & Hbi2 & Hba1 & Hframe & Hold1 & Hlist & Hc2 & Hats2);
      try done.
    { intros j Hj. apply Hok. lia. }
    destruct Hsrc as [Hsrc1 Hsrc2]. pose proof Hab as [Hab1 Hab2].
    destruct (IH L_rest' fuel w hi2 ha1 bf (S n + length ils)
                (S k + length ils) b (donesh ++ [(n, seq (S n) (length ils))])
                (L_done ++ [v]) (next i) dest')
      as (hi' & ha' & newsh & q & Hloop & Hbi' & Hba' & Hfi & Hfa & Hl & Habove & Hexi & Hexa);
      try done.
    { intros j Hj. apply Hok. lia. }
    { lia. }
    { split; intros z Hz; [apply Hsrc1|apply Hsrc2]; simpl.
      - by right.
      - apply elem_of_app. by right. }
    { simpl in Hfuel. lia. }
    { apply sh_above_app; [done|]. apply sh_above_one; [lia|].
      intros z Hz. apply elem_of_seq in Hz. lia. }
    destruct (iface_list_live _ _ _ _ _ Hdone) as [Hlive1 Hlive2].
    destruct Habove as [Ha1 Ha2].
    exists hi', ha', ((n, seq (S n) (length ils)) :: newsh), q. split_and!.
    + rewrite Hstep, Hloop.
      replace (S n + length ils + cells rest) with (n + (S (length ils) + cells rest)) by lia.
      replace (S k + length ils + cells rest) with (k + (S (length ils) + cells rest)) by lia.
      reflexivity.
    + by replace (n + (S (length ils) + cells rest)) with (S n + length ils + cells rest) by lia.
    + by replace (n + (S (length ils) + cells rest)) with (S n + length ils + cells rest) by lia.
    + intros y Hy Hyd. rewrite Hfi.
      * apply Hframe; [lia|done].
      * lia.
      * rewrite fmap_app. intros Hin. apply elem_of_app in Hin as [Hin|Hin]; [done|].
        simpl in Hin. apply list_elem_of_singleton in Hin. lia.
    + intros z Hz. rewrite Hfa by lia. apply Hold1. lia.
    + by rewrite <- !app_assoc in Hl.
    + split; intros z Hz; simpl in Hz.
      * apply elem_of_cons in Hz as [->|Hz]; [done|]. apply Ha1 in Hz. lia.
      * apply elem_of_app in Hz as [Hz|Hz].
        -- apply elem_of_seq in Hz. lia.
        -- apply Ha2 in Hz. lia.
    + intros y Hy Hlive. simpl. destruct (decide (y = n)) as [->|Hne]; [left|]. right.
      apply Hexi; [|done]. destruct (decide (S n + length ils ≤ y)) as [|Hlt]; [done|].
      exfalso. rewrite Hfi in Hlive.
      * rewrite Hframe in Hlive; [|done|].
        -- apply Hbi in Hlive. lia.
        -- intros Hin. apply Hlive1, Hbi in Hin. lia.
      * lia.
      * rewrite fmap_app. intros Hin. apply elem_of_app in Hin as [Hin|Hin].
        -- apply Hlive1, Hbi in Hin. lia.
        -- simpl in Hin. apply list_elem_of_singleton in Hin. lia.
    + intros z Hz Hlive. simpl. apply elem_of_app.
      destruct (decide (S n + length ils ≤ z)) as [Hge|Hlt]; [right; by apply Hexa|].
      left. apply elem_of_seq. destruct (decide (z = n)) as [->|Hne]; [|lia].
      exfalso. rewrite Hfa in Hlive by lia. rewrite Hold1 in Hlive by lia.
      apply Hba in Hlive. lia.
Qed.

Lemma cells_records hi ha sh L :
  Forall2 (λ c v, iface_at hi ha c.1 c.2 v) sh L → cells sh = records L.
Proof.
  unfold cells, records. induction 1 as [|[x ils] v sh L Hx _ IH]; [done|].
  rewrite !fmap_cons, !concat_cons, !length_app. cbn [snd length].
  destruct Hx as (i & _ & _ & _ & _ & Hl). apply ip_list_length in Hl.
  simpl in Hl. lia.
Qed.

Lemma source_kept hi ha hi' ha' src sh L n :
  below n hi → below n ha →
  (∀ y, y < n → hi' !! y = hi !! y) →
  (∀ z, z < n → ha' !! z = ha !! z) →
  iface_list hi ha src sh L → iface_list hi' ha' src sh L.
Proof.
  intros Hbi Hba Hfi Hfa Hl.
  destruct (iface_list_below _ _ _ _ _ _ Hbi Hba Hl) as [Hb1 Hb2].
  pose proof Hl as (Hd & Hnd & Hf).
  eapply iface_list_ext; [| | |exact Hl].
  - eapply dll_ext; [| |exact Hd].
    + intros y Hy. unfold nextf. by rewrite Hfi by (by apply Hb1).
    + intros y Hy. unfold prevf. rewrite Hfi; [done|]. apply Hb1.
      destruct Hd as (_ & Hc & _). apply chain_head in Hc. rewrite Hy in Hc.
      destruct sh.*1; [done|]. injection Hc as ->. left.
  - intros y Hy. unfold bodyf. by rewrite Hfi by (by apply Hb1).
  - intros z Hz. apply Hfa. by apply Hb2.
Qed.

Lemma copy_ipx_interface_list_all w hi ha bf n k src sh L :
  (∀ j, k ≤ j < k + records L → alloc_ok w j = true) →
  below n hi → below n ha →
  iface_list hi ha src sh L →
  ∃ hi' ha' sh' q,
    copy_ipx_interface_list src (W w hi ha bf n k)
    = Ok q (W w hi' ha' bf (n + records L) (k + records L))
    ∧ below (n + records L) hi' ∧ below (n + records L) ha'
    ∧ (∀ y, y < n → hi' !! y = hi !! y)
    ∧ (∀ z, z < n → ha' !! z = ha !! z)
    ∧ iface_list hi' ha' q sh' L
    ∧ sh_above n sh'
    ∧ (∀ y, n ≤ y → is_Some (hi' !! y) → y ∈ sh'.*1)
    ∧ (∀ z, n ≤ z → is_Some (ha' !! z) → z ∈ concat sh'.*2).
Proof.
  intros Hok Hbi Hba Hl.
  pose proof Hl as ((Hnd & Hc & _) & _ & Hats).
  pose proof (cells_records _ _ _ _ Hats) as Hcells.
  unfold copy_ipx_interface_list. rewrite bind_get. cbn [compose mem set_mem ifaces].
  destruct (copy_list_loop_all sh L (size hi) w hi ha bf n k n [] [] src None)
    as (hi' & ha' & sh' & q & Hloop & ? & ? & Hfi & ? & ? & ? & ? & ?); try done.
  - by rewrite Hcells.
  - by eapply iface_list_below.
  - rewrite <- (length_fmap fst sh). by eapply chain_NoDup_length.
  - apply iface_list_nil.
  - apply sh_above_nil.
  - rewrite Hcells in *. exists hi', ha', sh', q. split_and!; try done.
    intros y Hy. apply Hfi; [done|]. intros Hin. by apply elem_of_nil in Hin.
Qed.

Lemma copy_ipx_interface_list_refused w hi ha bf n k src sh L m :
  m < records L →
  (∀ j, k ≤ j < k + m → alloc_ok w j = true) →
  alloc_ok w (k + m) = false →
  below n hi → below n ha →
  iface_list hi ha src sh L →
  ∃ e, copy_ipx_interface_list src (W w hi ha bf n k)
       = Ok None (W (add_log e w) hi ha bf (n + m) (S (k + m))).
Proof.
  intros Hm Hok Hno Hbi Hba Hl.
  pose proof Hl as ((Hnd & Hc & _) & _ & Hats).
  pose proof (cells_records _ _ _ _ Hats) as Hcells.
  unfold copy_ipx_interface_list. rewrite bind_get. cbn [compose mem set_mem ifaces].
  destruct (copy_list_loop_refused sh m L (size hi) w hi ha bf n k n [] [] src None)
    as (e & hi' & ha' & Hloop & Hpi & Hpa); try done.
  - by rewrite Hcells.
  - by eapply iface_list_below.
  - rewrite <- (length_fmap fst sh). by eapply chain_NoDup_length.
  - apply iface_list_nil.
  - apply sh_above_nil.
  - exists e. rewrite Hloop.
    assert (hi' = hi) as ->.
    { apply map_eq. intros y. rewrite Hpi.
      destruct (decide _) as [[Hy|Hy]|Hy]; [by apply elem_of_nil in Hy| |done].
      symmetry. destruct (hi !! y) eqn:E; [|done].
      assert (y < n); [|lia]. apply Hbi. by rewrite E. }
    assert (ha' = ha) as ->; [|done].
    apply map_eq. intros z. rewrite Hpa.
    destruct (decide _) as [[Hz|Hz]|Hz]; [by apply elem_of_nil in Hz| |done].
    symmetry. destruct (ha !! z) eqn:E; [|done].
    assert (z < n); [|lia]. apply Hba. by rewrite E.
Qed.

(** A copy made by [copy_ipx_interface_list] takes one allocation for each
    record of the list, reads as the list it was made from and leaves
    that list as it was; freeing the copy with [free_ipx_interface_list]
    gives back exactly the records that the copy took. *)
Theorem copy_then_free_restores w src sh L :
  store_ok (mem w) →
  iface_list (ifaces (mem w)) (ips (mem w)) src sh L →
  (∀ j, allocs (mem w) ≤ j < allocs (mem w) + records L → alloc_ok w j = true) →
  ∃ q w1 w2,
    copy_ipx_interface_list src w = Ok q w1
    ∧ read_ifaces (mem w1) q = Some L
    ∧ read_ifaces (mem w1) src = Some L
    ∧ allocs (mem w1) = allocs (mem w) + records L
    ∧ free_ipx_interface_list q w1 = Ok None w2
    ∧ ifaces (mem w2) = ifaces (mem w)
    ∧ ips (mem w2) = ips (mem w)
    ∧ bufs (mem w2) = bufs (mem w).
Proof.
  intros (Hbi & Hba & _) Hl Hok.
  destruct (mem w) as [hi ha bf n k] eqn:Hmem. simpl in *.
  destruct (copy_ipx_interface_list_all w hi ha bf n k src sh L Hok Hbi Hba Hl)
    as (hi' & ha' & sh' & q & Hcopy & Hbi' & Hba' & Hfi & Hfa & Hl' & [Ha1 Ha2] & Hexi & Hexa).
  destruct (free_ipx_interface_list_ok w hi' ha' bf (n + records L) (k + records L) q sh' L Hl')
    as (hi2 & ha2 & Hfree & Hgone & Hstay & Hgone' & Hstay').
  eexists q, _, _. split_and!.
  - rewrite (with_mem w _ _ _ _ _ Hmem) at 1. exact Hcopy.
  - by eapply iface_list_read.
  - apply (iface_list_read _ _ sh). simpl. by apply (source_kept hi ha _ _ _ _ _ n).
  - done.
  - exact Hfree.
  - simpl. apply map_eq. intros y.
    destruct (decide (y ∈ sh'.*1)) as [Hy|Hy].
    + rewrite Hgone by done. symmetry. destruct (hi !! y) eqn:E; [|done].
      assert (y < n) by (apply Hbi; by rewrite E). apply Ha1 in Hy. lia.
    + rewrite Hstay by done. destruct (decide (y < n)) as [Hlt|Hge]; [by apply Hfi|].
      destruct (hi' !! y) eqn:E.
      * exfalso. apply Hy, Hexi; [lia|]. by rewrite E.
      * symmetry. destruct (hi !! y) eqn:E'; [|done].
        assert (y < n) by (apply Hbi; by rewrite E'). lia.
  - simpl. apply map_eq. intros z.
    destruct (decide (z ∈ concat sh'.*2)) as [Hz|Hz].
    + rewrite Hgone' by done. symmetry. destruct (ha !! z) eqn:E; [|done].
      assert (z < n) by (apply Hba; by rewrite E). apply Ha2 in Hz. lia.
    + rewrite Hstay' by done. destruct (decide (z < n)) as [Hlt|Hge]; [by apply Hfa|].
      destruct (ha' !! z) eqn:E.
      * exfalso. apply Hz, Hexa; [lia|]. by rewrite E.
      * symmetry. destruct (ha !! z) eqn:E'; [|done].
        assert (z < n) by (apply Hba; by rewrite E'). lia.
  - done.
Qed.

Lemma cache_inv_three_cached : cache_inv three_cached.
Proof.
  apply (cache_inv_exec_get _ [i_tunnel; i_lan; i_bare]).
  - apply cache_inv_boot.
  - intros j _. reflexivity.
  - vm_compute. reflexivity.
Qed.

Lemma copy_then_free_restores_witness :
  ∃ L q w1 w2,
    copy_ipx_interface_list (interface_cache three_cached) three_cached = Ok q w1
    ∧ read_ifaces (mem w1) q = Some L
    ∧ free_ipx_interface_list q w1 = Ok None w2
    ∧ ifaces (mem w2) = ifaces (mem three_cached)
    ∧ ips (mem w2) = ips (mem three_cached).
Proof.
  destruct cache_inv_three_cached as (Hstore & sh & L & Hl).
  destruct (copy_then_free_restores three_cached (interface_cache three_cached) sh L)
    as (q & w1 & w2 & H1 & H2 & _ & _ & H3 & H4 & H5 & _).
  - exact Hstore.
  - exact Hl.
  - intros j _. reflexivity.
  - exists L, q, w1, w2. split; [exact H1|]. split; [exact H2|]. split; [exact H3|].
    split; [exact H4|exact H5].
Defined.

(** When an allocation is refused in the middle of
    [copy_ipx_interface_list], the function returns NULL and every record
    it had allocated is freed again: the store holds what it held before,
    and the list to copy is as it was. *)
Theorem refused_copy_leaves_nothing w src sh L m :
  store_ok (mem w) →
  iface_list (ifaces (mem w)) (ips (mem w)) src sh L →
  m < records L →
  (∀ j, allocs (mem w) ≤ j < allocs (mem w) + m → alloc_ok w j = true) →
  alloc_ok w (allocs (mem w) + m) = false →
  ∃ w', copy_ipx_interface_list src w = Ok None w'
      ∧ ifaces (mem w') = ifaces (mem w)
      ∧ ips (mem w') = ips (mem w)
      ∧ bufs (mem w') = bufs (mem w)
      ∧ allocs (mem w') = S (allocs (mem w) + m)
      ∧ read_ifaces (mem w') src = Some L.
Proof.
  intros (Hbi & Hba & _) Hl Hm Hok Hno.
  destruct (mem w) as [hi ha bf n k] eqn:Hmem. simpl in *.
  destruct (copy_ipx_interface_list_refused w hi ha bf n k src sh L m Hm Hok Hno Hbi Hba Hl)
    as (e & Hcopy).
  eexists. split; [rewrite (with_mem w _ _ _ _ _ Hmem) at 1; exact Hcopy|].
  simpl. split_and!; try done. by eapply iface_list_read.
Qed.

Lemma cache_inv_refusing k w : cache_inv w → cache_inv (refusing k w).
Proof. done. Qed.

Lemma mem_refusing k w : mem (refusing k w) = mem w.
Proof. reflexivity. Qed.

Lemma alloc_ok_refusing k w j : alloc_ok (refusing k w) j = negb (Nat.eqb j k).
Proof. reflexivity. Qed.

Lemma three_cached_facts :
  snapshot three_cached = Some [i_tunnel; i_lan; i_bare]
  ∧ allocs (mem three_cached) = 11.
Proof. vm_compute. split; reflexivity. Qed.

Lemma refused_copy_leaves_nothing_witness :
  ∃ w', copy_ipx_interface_list (interface_cache three_cached) (refusing 14 three_cached)
        = Ok None w'
      ∧ ifaces (mem w') = ifaces (mem three_cached)
      ∧ ips (mem w') = ips (mem three_cached).
Proof.
  destruct cache_inv_three_cached as (Hstore & sh & L & Hl).
  destruct three_cached_facts as [Hs' Hk].
  pose proof (snapshot_of_list three_cached sh L Hl) as Hs.
  assert (L = [i_tunnel; i_lan; i_bare]) as ->
    by (rewrite Hs in Hs'; injection Hs' as ->; reflexivity).
  destruct (refused_copy_leaves_nothing (refusing 14 three_cached)
              (interface_cache three_cached) sh [i_tunnel; i_lan; i_bare] 3)
    as (w' & H1 & H2 & H3 & _).
  - rewrite mem_refusing. exact Hstore.
  - rewrite mem_refusing. exact Hl.
  - vm_compute. lia.
  - intros j Hj. rewrite mem_refusing, Hk in Hj. rewrite alloc_ok_refusing.
    apply negb_true_iff, Nat.eqb_neq. lia.
  - rewrite mem_refusing, Hk, alloc_ok_refusing. reflexivity.
  - rewrite mem_refusing in H2, H3.
    exists w'. split; [exact H1|]. split; [exact H2|exact H3].
Defined.

Lemma snapshot_refusing k w : snapshot (refusing k w) = snapshot w.
Proof. reflexivity. Qed.

(** When an allocation is refused while [get_ipx_interfaces] copies a
    cache that is not stale, the caller gets NULL, the partial copy is
    freed, and the cache is untouched: a later call that finds memory
    returns the list. *)
Theorem refused_get_keeps_cache w L m :
  cache_inv w → ¬ stale w → snapshot w = Some L →
  m < records L →
  (∀ j, allocs (mem w) ≤ j < allocs (mem w) + m → alloc_ok w j = true) →
  alloc_ok w (allocs (mem w) + m) = false →
  ∃ w', get_ipx_interfaces w = Ok None w'
      ∧ ifaces (mem w') = ifaces (mem w)
      ∧ ips (mem w') = ips (mem w)
      ∧ interface_cache w' = interface_cache w
      ∧ snapshot w' = Some L
      ∧ (all_ok w' → (age w' ≤ 5)%Z →
         ∃ q w'', get_ipx_interfaces w' = Ok q w''
                ∧ read_ifaces (mem w'') q = Some L).
Proof.
  intros Hinv Hfresh Hsnap Hm Hok Hno.
  pose proof Hinv as (Hstore & sh & L1 & Hl).
  assert (L1 = L) as ->.
  { erewrite snapshot_of_list in Hsnap by done. congruence. }
  pose proof Hstore as (Hbi & Hba & Hbf).
  destruct (mem w) as [hi ha bf n k] eqn:Hmem. simpl in *.
  destruct (copy_ipx_interface_list_refused (tick w) hi ha bf n k (interface_cache w) sh L m
              Hm Hok Hno Hbi Hba Hl) as (e & Hcopy).
  assert (tick w = W (tick w) hi ha bf n k) as Hw.
  { destruct w; simpl in *. by subst. }
  set (w' := W (add_log e (tick w)) hi ha bf (n + m) (S (k + m))).
  assert (iface_list (ifaces (mem w')) (ips (mem w')) (interface_cache w') sh L) as Hl' by done.
  exists w'. split_and!; try done.
  - unfold get_ipx_interfaces, EnterCriticalSection, LeaveCriticalSection.
    rewrite bind_ret. erewrite bind_Ok by (by apply renew_fresh).
    rewrite bind_get. simpl interface_cache. rewrite Hw at 1.
    erewrite bind_Ok by exact Hcopy. reflexivity.
  - by eapply snapshot_of_list.
  - intros Hall Hage.
    assert (cache_inv w') as Hinv'.
    { split; [|by exists sh, L]. split_and!; simpl.
      - eapply below_mono; [|exact Hbi]. lia.
      - eapply below_mono; [|exact Hba]. lia.
      - intros x Hx. apply Hbf in Hx. lia. }
    assert (list_spec w' = Some L) as Hspec.
    { unfold list_spec. rewrite decide_False.
      - by eapply snapshot_of_list.
      - unfold stale, INTERFACE_CACHE_TTL, age in *. lia. }
    destruct (get_ipx_interfaces_spec w' L Hinv' Hall Hspec) as (q & w'' & ? & ? & _).
    by exists q, w''.
Qed.

Lemma refused_get_keeps_cache_witness :
  ∃ w', get_ipx_interfaces (refusing 14 three_cached) = Ok None w'
      ∧ snapshot w' = Some [i_tunnel; i_lan; i_bare].
Proof.
  destruct three_cached_facts as [Hs Hk].
  destruct (refused_get_keeps_cache (refusing 14 three_cached) [i_tunnel; i_lan; i_bare] 3)
    as (w' & H1 & _ & _ & _ & H2 & _).
  - apply cache_inv_refusing, cache_inv_three_cached.
  - vm_compute. discriminate.
  - rewrite snapshot_refusing. exact Hs.
  - vm_compute. lia.
  - intros j Hj. rewrite mem_refusing, Hk in Hj. rewrite alloc_ok_refusing.
    apply negb_true_iff, Nat.eqb_neq. lia.
  - rewrite mem_refusing, Hk, alloc_ok_refusing. reflexivity.
  - exists w'. split; [exact H1|exact H2].
Defined.





(** ** A build in which the allocation of a binding is refused *)

Lemma bind_assoc {A B C} (c : M A) (f : A → M B) (g : B → M C) w :
  bind (bind c f) g w = bind c (λ a, bind (f a) g) w.
Proof. unfold bind. by destruct (c w). Qed.

Lemma bind_ext {A B} (c : M A) (f g : A → M B) w :
  (∀ a w', f a w' = g a w') → bind c f w = bind c g w.
Proof. intros Hfg. unfold bind. by destruct (c w). Qed.

(** The loop over the address entries runs through the entries in turn. *)
Lemma load_ip_loop_app iface es1 : ∀ es2 nics w,
  load_ip_loop iface nics (es1 ++ es2) w
  = bind (load_ip_loop iface nics es1) (λ nics', load_ip_loop iface nics' es2) w.
Proof.
  induction es1 as [|e es1 IH]; intros es2 nics w; [done|].
  cbn [app load_ip_loop]. destruct (decide (IpAddress e = 0%Z)); [apply IH|].
  rewrite bind_assoc. apply bind_ext. intros [a|] w1.
  - repeat (rewrite bind_assoc; apply bind_ext; intros ? ?). apply IH.
  - repeat (rewrite bind_assoc; apply bind_ext; intros ? ?). apply IH.
Qed.

(** Once the interface record is freed, the loop over the remaining
    entries either passes them all (none of them has an address) or
    accesses the freed record. *)
Lemma load_ip_loop_freed es : ∀ w hi ha bf n k x nics,
  hi !! x = None →
  load_ip_loop (Some x) nics es (W w hi ha bf n k) = Fault InvalidPointer
  ∨ load_ip_loop (Some x) nics es (W w hi ha bf n k) = Ok nics (W w hi ha bf n k).
Proof.
  induction es as [|e es IH]; intros w hi ha bf n k x nics Hx; [by right|].
  cbn [load_ip_loop]. destruct (decide (IpAddress e = 0%Z)); [by apply IH|].
  left. destruct (alloc_ok w k) eqn:Hk.
  - erewrite bind_Ok by (by apply malloc_ip). cbv beta iota.
    erewrite bind_Ok by (apply assign_ip; by rewrite lookup_insert_eq).
    erewrite bind_Ok by (apply assign_ip; by rewrite lookup_alter_eq, lookup_insert_eq).
    erewrite bind_Ok by (apply assign_ip; by rewrite !lookup_alter_eq, lookup_insert_eq).
    unfold bind at 1, deref. simpl. by rewrite Hx.
  - erewrite bind_Ok by (by apply malloc_ip_fail). cbv beta iota.
    rewrite bind_log.
    change (add_log ?e (W w ?a ?b ?c ?d ?e')) with (W (add_log e w) a b c d e').
    unfold bind at 1, free_ipx_interface, bind at 1, deref. simpl. by rewrite Hx.
Qed.

(** The loop over the address entries when the [m]-th allocation it asks
    for is refused: the interface record is freed, with the list built so
    far, and the loop goes on. *)
Lemma load_ip_loop_refused es : ∀ m w hi ha bf n k b x i done al_done nics sh L,
  m < length (bindings_of es) →
  (∀ j, k ≤ j < k + m → alloc_ok w j = true) →
  alloc_ok w (k + m) = false →
  below n hi → below n ha → b ≤ n →
  hi !! x = Some i → x ∉ sh.*1 →
  ip_list ha (iface_ipaddr i) done al_done →
  (∀ z, z ∈ done → b ≤ z) →
  iface_list hi ha nics sh L →
  (∀ z, z ∈ concat sh.*2 → z < b) →
  load_ip_loop (Some x) nics es (W w hi ha bf n k) = Fault InvalidPointer
  ∨ ∃ nics' w', load_ip_loop (Some x) nics es (W w hi ha bf n k) = Ok nics' w'
              ∧ ifaces (mem w') !! x = None.
Proof.
  induction es as [|e es IH];
    intros m w hi ha bf n k b x i done al_done nics sh L
           Hm Hok Hno Hbi Hba Hbn Hi Hx Hdone Hab Hl Hsb.
  { simpl in Hm. lia. }
  rewrite bindings_of_cons in Hm.
  destruct (decide (IpAddress e = 0%Z)) as [He|He].
  { cbn [load_ip_loop]. rewrite decide_True by done. by eapply IH. }
  pose proof Hl as (Hdd & Hnd & Hfd).
  assert (∀ hi', (∀ y, y ≠ x → hi' !! y = hi !! y) → dll hi' nics sh.*1) as Hdll.
  { intros hi' Hsame. eapply dll_ext; [| |exact Hdd].
    - intros z Hz. unfold nextf. rewrite Hsame; [done|]. by intros ->.
    - intros z Hz. unfold prevf. rewrite Hsame; [done|].
      intros ->. destruct Hdd as (_ & Hcd & _). apply chain_head in Hcd.
      rewrite Hz in Hcd. destruct sh; [done|]. injection Hcd as Heq.
      apply Hx. rewrite Heq. left. }
  destruct m as [|m].
  - (* the allocation for [e] is refused *)
    rewrite Nat.add_0_r in Hno.
    set (v := mk_interface (hwaddr i) (ipx_net i) (ipx_node i) al_done).
    destruct (free_ipx_interface_ok
                (add_log (LOG_ERROR, "Couldn't allocate ipx_interface_ip!"%string) w)
                hi ha bf n (S k) x done v) as (ha1 & Hfree & Hgone & Hkeep).
    { exists i. by split_and!. }
    assert (iface_list (delete x hi) ha1 nics sh L) as Hl1.
    { eapply iface_list_ext; [| | |exact Hl].
      - apply Hdll. intros y Hy. by rewrite lookup_delete_ne.
      - intros y Hy. unfold bodyf. rewrite lookup_delete_ne; [done|]. by intros ->.
      - intros z Hz. apply Hkeep. intros Hin. apply Hab in Hin. apply Hsb in Hz. lia. }
    destruct (free_ipx_interface_list_ok
                (add_log (LOG_ERROR, "Couldn't allocate ipx_interface_ip!"%string) w)
                (delete x hi) ha1 bf n (S k) nics sh L Hl1)
      as (hi2 & ha2 & Hfl & _ & Hstay & _ & _).
    assert (hi2 !! x = None) as Hx2.
    { rewrite Hstay by done. apply lookup_delete_eq. }
    assert (∀ r,
      r = load_ip_loop (Some x) None es
            (W (add_log (LOG_ERROR, "Couldn't allocate ipx_interface_ip!"%string) w)
               hi2 ha2 bf n (S k)) →
      load_ip_loop (Some x) nics (e :: es) (W w hi ha bf n k) = r) as Hrun.
    { intros r ->. cbn [load_ip_loop]. rewrite decide_False by done.
      erewrite bind_Ok by (by apply malloc_ip_fail). cbv beta iota.
      rewrite bind_log.
      change (add_log ?e (W w ?a ?b ?c ?d ?e')) with (W (add_log e w) a b c d e').
      erewrite bind_Ok by exact Hfree.
      erewrite bind_Ok by exact Hfl. reflexivity. }
    rewrite (Hrun _ eq_refl).
    destruct (load_ip_loop_freed es
                (add_log (LOG_ERROR, "Couldn't allocate ipx_interface_ip!"%string) w)
                hi2 ha2 bf n (S k) x None Hx2) as [->| ->]; [by left|].
    right. by eexists _, _.
  - (* the allocation for [e] is granted *)
    change (e :: es) with ([e] ++ es). rewrite load_ip_loop_app.
    destruct (load_ip_loop_ok [e] w hi ha bf n k b x i done al_done nics)
      as (ha' & new & q & Hloop & Hbel' & Hold' & Hlist & Hfresh & _); try done.
    { intros j Hj. apply Hok. rewrite bindings_of_cons, decide_False in Hj by done.
      simpl in Hj. lia. }
    assert (length (bindings_of [e]) = 1) as Hone.
    { by rewrite bindings_of_cons, decide_False by done. }
    rewrite Hone in Hloop, Hbel'.
    erewrite bind_Ok by exact Hloop.
    replace (n + 1) with (S n) in * by lia. replace (k + 1) with (S k) in * by lia.
    eapply (IH m w _ ha' bf (S n) (S k) b x (set_iface_ipaddr q i)
              (done ++ new) (al_done ++ bindings_of [e]) nics sh L).
    + simpl in Hm. lia.
    + intros j Hj. apply Hok. lia.
    + rewrite <- Hno. f_equal. lia.
    + intros y Hy. destruct (decide (x = y)) as [<-|Hxy].
      * assert (x < n) by (apply Hbi; by rewrite Hi). lia.
      * rewrite lookup_insert_ne in Hy by done. apply Hbi in Hy. lia.
    + done.
    + lia.
    + by rewrite lookup_insert_eq.
    + done.
    + done.
    + intros z Hz. apply elem_of_app in Hz as [Hz|Hz]; [by apply Hab|].
      apply Hfresh in Hz. lia.
    + eapply iface_list_ext; [| | |exact Hl].
      * apply Hdll. intros y Hy. by rewrite lookup_insert_ne.
      * intros y Hy. unfold bodyf. rewrite lookup_insert_ne; [done|]. by intros ->.
      * intros z Hz. apply Hold'. by apply Hsb.
    + done.
Qed.

Lemma requests_cons ad l :
  requests (ad :: l) = S (length (adapter_bindings ad)) + requests l.
Proof. unfold requests. rewrite fmap_cons, concat_cons, length_app. simpl. lia. Qed.

(** The turn of the adapter loop in which the allocation of a binding is
    refused ends in an access to the interface record that was freed. *)
Lemma load_ipx_loop_refused_binding primary ad Next m w hi ha bf n k nics sh L :
  enabled (get_iface_config w (addr48_in (Address ad))) = true →
  m < length (adapter_bindings ad) →
  (∀ j, k ≤ j < S k + m → alloc_ok w j = true) →
  alloc_ok w (S k + m) = false →
  below n hi → below n ha →
  iface_list hi ha nics sh L →
  load_ipx_loop primary nics (ad :: Next) (W w hi ha bf n k) = Fault InvalidPointer.
Proof.
  intros Hen Hm Hok Hno Hbi Hba Hl.
  assert (hi !! n = None) as Hn by (by apply below_fresh).
  destruct (iface_list_live _ _ _ _ _ Hl) as [Hlive1 Hlive2].
  assert (n ∉ sh.*1) as Hnsh.
  { intros Hin. apply Hlive1, Hbi in Hin. lia. }
  pose proof Hl as (Hdd & _ & _).
  assert (iface_list (<[n := junk_iface]> hi) ha nics sh L) as Hl'.
  { eapply iface_list_ext; [| | |exact Hl].
    - eapply dll_ext; [| |exact Hdd].
      + intros z Hz. unfold nextf. rewrite lookup_insert_ne; [done|]. by intros ->.
      + intros z Hz. unfold prevf. rewrite lookup_insert_ne; [done|].
        intros ->. destruct Hdd as (_ & Hcd & _). apply chain_head in Hcd.
        rewrite Hz in Hcd. destruct sh; [done|]. injection Hcd as Heq.
        apply Hnsh. rewrite Heq. left.
    - intros y Hy. unfold bodyf. rewrite lookup_insert_ne; [done|]. by intros ->.
    - done. }
  cbn [load_ipx_loop]. rewrite bind_get.
  change (get_iface_config (W w hi ha bf n k)) with (get_iface_config w).
  rewrite Hen. cbn [negb].
  erewrite bind_Ok by (apply malloc_iface; apply Hok; lia).
  cbv beta iota.
  erewrite bind_Ok by (apply assign_iface; by rewrite lookup_insert_eq).
  rewrite (alter_insert_same _ _ junk_iface) by apply lookup_insert_eq.
  rewrite insert_insert_eq.
  assert (below (S n) (<[n := junk_iface]> hi)) as Hbi' by (by apply below_insert).
  assert (below (S n) ha) as Hba' by (eapply below_mono; [|done]; lia).
  assert (∀ z, z ∈ concat sh.*2 → z < S n) as Hsb.
  { intros z Hz. apply Hlive2, Hba in Hz. lia. }
  destruct (load_ip_loop_refused (IpAddressList ad :: IpAddressNext ad) m w
              (<[n := junk_iface]> hi) ha bf (S n) (S k) (S n) n junk_iface [] [] nics sh L
              Hm ltac:(intros j Hj; apply Hok; lia) Hno Hbi' Hba' (le_n _)
              (lookup_insert_eq _ _ _) Hnsh (ip_list_nil _)
              ltac:(intros z Hz; by apply elem_of_nil in Hz) Hl' Hsb)
    as [Hrun|(nics' & w' & Hrun & Hfreed)].
  - by erewrite bind_Fault by exact Hrun.
  - erewrite bind_Ok by exact Hrun.
    unfold bind at 1, assign. simpl. by rewrite Hfreed.
Qed.

(** The adapter loop over enabled adapters [pre], then an adapter [ad] for
    which the allocation of a binding is refused. *)
Lemma load_ipx_loop_use_after_free primary ad post m pre :
  ∀ w hi ha bf n k b nics sh L,
  Forall (λ ad, enabled (get_iface_config w (addr48_in (Address ad))) = true) pre →
  enabled (get_iface_config w (addr48_in (Address ad))) = true →
  m < length (adapter_bindings ad) →
  (∀ j, k ≤ j < k + requests pre + S m → alloc_ok w j = true) →
  alloc_ok w (k + requests pre + S m) = false →
  below n hi → below n ha → b ≤ n →
  iface_list hi ha nics sh L → sh_above b sh →
  (∀ y, b ≤ y → is_Some (hi !! y) → y ∈ sh.*1) →
  (∀ z, b ≤ z → is_Some (ha !! z) → z ∈ concat sh.*2) →
  load_ipx_loop primary nics (pre ++ ad :: post) (W w hi ha bf n k)
  = Fault InvalidPointer.
Proof.
  induction pre as [|p pre IH];
    intros w hi ha bf n k b nics sh L Hpre Hen Hm Hok Hno Hbi Hba Hbn Hl Hab Hexi Hexa.
  - change (requests []) with 0 in *. rewrite Nat.add_0_r in *.
    apply (load_ipx_loop_refused_binding primary ad post m w hi ha bf n k nics sh L);
      try done.
    + intros j Hj. apply Hok. lia.
    + rewrite <- Hno. f_equal. lia.
  - inversion Hpre as [|? ? Hp Hpre']; subst.
    rewrite requests_cons in Hok, Hno.
    destruct (load_ipx_loop_step primary p (pre ++ ad :: post) w hi ha bf n k b nics sh L)
      as (lg & hi' & ha' & nics' & sh' & Hstep & Hbi' & Hba' & _ & _ & Hl' &
          Hab' & Hexi' & Hexa'); try done.
    { intros j Hj. apply Hok. lia. }
    change ((p :: pre) ++ ad :: post) with (p :: pre ++ ad :: post).
    rewrite Hstep.
    eapply (IH (set_log lg w) hi' ha' bf _ _ b nics' sh').
    + exact Hpre'.
    + exact Hen.
    + exact Hm.
    + intros j Hj. change (alloc_ok (set_log lg w)) with (alloc_ok w). apply Hok. lia.
    + change (alloc_ok (set_log lg w)) with (alloc_ok w). rewrite <- Hno. f_equal. lia.
    + exact Hbi'.
    + exact Hba'.
    + lia.
    + exact Hl'.
    + exact Hab'.
    + exact Hexi'.
    + exact Hexa'.
Qed.

(** When the allocation of a binding is refused during a build (the
    adapters before it being enabled, hence built, and every allocation
    before it granted), [load_ipx_interfaces] frees the interface it is
    filling and goes on using it: the run ends in an access to a freed
    record.  So does the call of [get_ipx_interfaces] that starts such a
    build. *)
Theorem refused_binding_uses_freed_interface w a rest pre ad post sc' m :
  store_ok (mem w) →
  os_script w = ReplyAdapters a rest :: sc' →
  a :: rest = pre ++ ad :: post →
  Forall (λ ad, enabled (get_iface_config w (addr48_in (Address ad))) = true) pre →
  enabled (get_iface_config w (addr48_in (Address ad))) = true →
  m < length (adapter_bindings ad) →
  (∀ j, allocs (mem w) ≤ j < S (allocs (mem w)) + requests pre + S m →
        alloc_ok w j = true) →
  alloc_ok w (S (allocs (mem w)) + requests pre + S m) = false →
  load_ipx_interfaces w = Fault InvalidPointer
  ∧ (cache_inv w → stale w → get_ipx_interfaces w = Fault InvalidPointer).
Proof.
  intros Hstore Hsc Hl Hpre Hen Hm Hok Hno.
  assert (∀ w0 hi ha bf n,
            mem w0 = mk_store hi ha bf n (allocs (mem w)) →
            below n hi → below n ha → (∀ x, x ∈ bf → x < n) →
            alloc_ok w0 = alloc_ok w → os_script w0 = os_script w →
            get_iface_config w0 = get_iface_config w →
            load_ipx_interfaces w0 = Fault InvalidPointer) as Hgen.
  { intros w0 hi ha bf n Hmem Hbi Hba Hbf Hal Hsc0 Hcfg.
    rewrite (with_mem w0 _ _ _ _ _ Hmem).
    unfold load_ipx_interfaces. rewrite bind_modify.
    change (count_build (W w0 hi ha bf n (allocs (mem w))))
      with (W (count_build w0) hi ha bf n (allocs (mem w))).
    pose proof (load_sys_interfaces_ok (count_build w0) hi ha bf n (allocs (mem w)) Hbf)
      as Hsys.
    change (alloc_ok (count_build w0)) with (alloc_ok w0) in Hsys.
    change (os_script (count_build w0)) with (os_script w0) in Hsys.
    rewrite Hsc0, Hsc, Hal in Hsys. cbn [sys] in Hsys.
    rewrite Hok in Hsys by lia. simpl in Hsys.
    erewrite bind_Ok by exact Hsys. rewrite bind_get.
    set (w1 := set_os_script sc' (count_build w0)).
    erewrite bind_Fault; [done|]. rewrite Hl.
    apply (load_ipx_loop_use_after_free _ ad post m pre w1 hi ha ({[n]} ∪ bf) (S n)
             (S (allocs (mem w))) (S n) None [] []).
    - change (get_iface_config w1) with (get_iface_config w0). by rewrite Hcfg.
    - change (get_iface_config w1) with (get_iface_config w0). by rewrite Hcfg.
    - done.
    - intros j Hj. change (alloc_ok w1) with (alloc_ok w0). rewrite Hal. apply Hok. lia.
    - change (alloc_ok w1) with (alloc_ok w0). by rewrite Hal.
    - eapply below_mono; [|exact Hbi]. lia.
    - eapply below_mono; [|exact Hba]. lia.
    - done.
    - apply iface_list_nil.
    - apply sh_above_nil.
    - intros y Hy Hlive. apply Hbi in Hlive. lia.
    - intros z Hz Hlive. apply Hba in Hlive. lia. }
  destruct (mem w) as [hi ha bf n k] eqn:Hmem.
  destruct Hstore as (Hbi & Hba & Hbf). simpl in *.
  split; [by apply (Hgen w hi ha bf n)|].
  intros Hinv Hstale.
  destruct (renew_stale_run w hi ha bf n k Hmem Hinv Hstale) as (hi1 & ha1 & Hb1 & Hb2 & Hrenew).
  rewrite (Hgen _ hi1 ha1 bf n) in Hrenew; try done.
  unfold get_ipx_interfaces, EnterCriticalSection. rewrite bind_ret.
  by erewrite bind_Fault by exact Hrenew.
Qed.

Lemma refused_binding_uses_freed_interface_witness :
  load_ipx_interfaces
    (boot 2 (refused_at 4) clock_100_200 [ReplyAdapters lan [tunnel; bare]])
  = Fault InvalidPointer.
Proof.
  destruct (refused_binding_uses_freed_interface
              (boot 2 (refused_at 4) clock_100_200 [ReplyAdapters lan [tunnel; bare]])
              lan [tunnel; bare] [lan] tunnel [bare] [] 0) as [H _].
  - apply store_ok_boot.
  - reflexivity.
  - reflexivity.
  - repeat constructor.
  - reflexivity.
  - vm_compute. lia.
  - intros j Hj. change (requests [lan]) with 2 in Hj. simpl in Hj.
    unfold refused_at. apply negb_true_iff, Nat.eqb_neq. lia.
  - reflexivity.
  - exact H.
Defined.
